(** * Passage: the database-to-domain translation layer

    A shallow embedding of [apps/passage-backend/src/database.ts] (the
    reaction classifier, the attributed-body text decoder, the row
    mapper and the read queries of [MessagesDatabase]) together with
    the properties of it that the specification states.

    Conventions of the embedding.
    - A JavaScript string is kept as a Rocq [string] holding its UTF-8
      encoding; SQLite TEXT and [Buffer.toString('utf8')] both produce
      well-formed text, so nothing is lost.
    - SQL columns are nullable: INTEGER is [option Z], TEXT is
      [option string], BLOB is [option (list byte)].
    - A table is the list of its rows; a query is a function on those
      lists that follows the SQL text clause by clause.
    - JavaScript numbers that only hold small integers (limits, counts,
      type codes) are [Z]; the one computation that leaves the integers,
      the timestamp conversion, is done in [Double], a model of
      binary64 rounding.  ROWIDs are kept as the database has them,
      which is what JavaScript sees below 2^53.
    - What lies outside the repository (the bplist-parser package and
      the system clock) is a field of [Host].

    The later sections embed what surrounds that layer: the contacts
    cache of [contacts.ts], the change handler of [server.ts], the
    escaping of [applescript.ts], what the two clients do with the
    messages they receive ([controller.ts], [MessageThread.tsx],
    [store.ts]), and how the terminal client lays out its screen,
    reads its keys and keeps its selection ([layout.ts],
    [conversations.ts], [input.ts], [store.ts], [render.ts]). *)

From Stdlib Require Import ZArith QArith Qround Qpower Lia Lqa Floats.
From Stdlib Require Import String Ascii DecimalString.
From Stdlib Require DecimalPos DecimalZ.
From Stdlib.Strings Require Import Byte.
From stdpp Require Import base list gmap strings sorting.

Close Scope Q_scope.

(* ================================================================= *)
(** ** Binary64 arithmetic *)

(** [row.date / 1000000] and the sum with the epoch offset are
    computed on IEEE-754 doubles.  [to_double] rounds a rational to
    the nearest double, ties to even.  Only the normal range is
    modelled: the magnitudes met here (between 1e-6 and 1e19) are far
    from overflow and from the subnormals. *)
Module Double.

Local Open Scope Q_scope.

Definition pow2 (e : Z) : Q := 2 ^ e.

(** Nearest integer, ties to even. *)
Definition rne (q : Q) : Z :=
  let f := Qfloor q in
  match Qcompare (q - inject_Z f) (1 # 2) with
  | Lt => f
  | Gt => (f + 1)%Z
  | Eq => if Z.even f then f else (f + 1)%Z
  end.

(** The exponent [e] with [2^52 <= a / 2^e < 2^53], for [a > 0]. *)
Definition binade (a : Q) : Z :=
  let c := (Z.log2 (Qnum a) - Z.log2 (Zpos (Qden a)))%Z in
  if Qle_bool (pow2 c) a then (c - 52)%Z else (c - 53)%Z.

Definition round_pos (a : Q) : Q :=
  let e := binade a in inject_Z (rne (a / pow2 e)) * pow2 e.

Definition to_double (x : Q) : Q :=
  match Qcompare x 0 with
  | Eq => 0
  | Gt => round_pos x
  | Lt => - round_pos (- x)
  end.

(** The double nearest to a real that may be tiny: at or below
    [2^-1075], half the least subnormal, the nearest double is zero. *)
Definition nearest (x : Q) : Q :=
  if Qle_bool (- pow2 (-1075)) x && Qle_bool x (pow2 (-1075)) then 0 else to_double x.

(** A 64-bit INTEGER column read into a JavaScript number. *)
Definition of_int64 (t : Z) : Q := to_double (inject_Z t).
Definition add (a b : Q) : Q := to_double (a + b).
Definition div (a b : Q) : Q := to_double (a / b).
(** [Math.floor] *)
Definition floor (x : Q) : Z := Qfloor x.

(** The value of a hardware float, to compare the model with
    [PrimFloat] on samples. *)
Definition of_float (f : float) : option Q :=
  match Prim2SF f with
  | S754_zero _ => Some 0
  | S754_finite s m e => Some ((if s then -1 else 1) * inject_Z (Zpos m) * pow2 e)
  | _ => None
  end.

Definition float_of_int64 (t : Z) : float :=
  SF2Prim (binary_normalize 53 1024 t 0 false).

End Double.

(* ================================================================= *)
(** ** JavaScript values and strings *)

(** The values an archive reader can hand back.  Numbers are kept to
    the integers.  A [Buffer] (the data of an archive) is apart from
    the plain objects because it has methods, [slice] among them; a
    plain object and a [Date] are [JObj] with the properties they
    have, none of which is a function. *)
#[local] Unset Elimination Schemes.
Inductive jsval : Type :=
  | JUndefined
  | JNull
  | JBool (b : bool)
  | JNum (z : Z)
  | JStr (s : string)
  | JArr (items : list jsval)
  | JBuffer (bytes : list byte)
  | JObj (props : list (string * jsval)).
#[local] Set Elimination Schemes.

Definition truthy (v : jsval) : bool :=
  match v with
  | JUndefined | JNull => false
  | JBool b => b
  | JNum z => negb (z =? 0)%Z
  | JStr s => negb (String.eqb s "")
  | JArr _ | JBuffer _ | JObj _ => true
  end.

(** [a || b] *)
Definition js_or (a b : jsval) : jsval := if truthy a then a else b.

Fixpoint assoc_get (k : string) (props : list (string * jsval)) : jsval :=
  match props with
  | [] => JUndefined
  | (k', v) :: rest => if String.eqb k k' then v else assoc_get k rest
  end.

(** [o.k] and [o['k']].  [None] is the TypeError raised when [o] is
    null or undefined; primitives and arrays have no such property. *)
Definition get_prop (o : jsval) (k : string) : option jsval :=
  match o with
  | JUndefined | JNull => None
  | JObj props => Some (assoc_get k props)
  | _ => Some JUndefined
  end.

Definition is_string (v : jsval) : bool :=
  match v with JStr _ => true | _ => false end.

(** Truthiness of nullable columns. *)
Definition truthy_int (o : option Z) : bool :=
  match o with Some z => negb (z =? 0)%Z | None => false end.

Definition truthy_text (o : option string) : bool :=
  match o with Some s => negb (String.eqb s "") | None => false end.

(** [o || dflt] on a TEXT column *)
Definition text_or (o : option string) (dflt : string) : string :=
  match o with
  | Some s => if String.eqb s "" then dflt else s
  | None => dflt
  end.

(** [o || 0] on an INTEGER column *)
Definition int_or_zero (o : option Z) : Z :=
  match o with Some z => z | None => 0%Z end.

(** [String(n)] for an integer [n] of magnitude below 2^53, where a
    double holds it exactly and prints it in full ([safe_integer]
    below; the statements that rest on the digits of a ROWID assume
    it). *)
Definition String_of_Z (z : Z) : string := NilZero.string_of_int (Z.to_int z).

Definition bytes_of_string (s : string) : list nat :=
  map nat_of_ascii (list_ascii_of_string s).

Definition string_of_bytes (l : list nat) : string :=
  string_of_list_ascii (map ascii_of_nat l).

Definition is_digit (c : nat) : bool := (48 <=? c) && (c <=? 57).

(** [s.includes('@')] *)
Definition includes_at (s : string) : bool :=
  existsb (Nat.eqb 64) (bytes_of_string s).

(** [s.replace(/\D/g, '')] *)
Definition strip_non_digits (s : string) : string :=
  string_of_bytes (List.filter is_digit (bytes_of_string s)).

(** [s.slice(i, j)] for [0 <= i <= j] *)
Definition slice (i j : nat) (s : string) : string := substring i (j - i) s.

(** [s.slice(i)] for [0 <= i] *)
Definition slice_from (i : nat) (s : string) : string :=
  substring i (String.length s - i) s.

(** [s.slice(-10)] *)
Definition last10 (s : string) : string :=
  slice_from (String.length s - 10) s.

(** [s.toLowerCase()], on the ASCII letters. *)
Definition toLowerCase (s : string) : string :=
  string_of_bytes
    (map (fun c => if (65 <=? c) && (c <=? 90) then c + 32 else c) (bytes_of_string s)).

(** [parts.join(', ')] *)
Fixpoint join_comma (parts : list string) : string :=
  match parts with
  | [] => ""
  | [p] => p
  | p :: rest => p +:+ ", " +:+ join_comma rest
  end.

(* ================================================================= *)
(** ** Reaction classifier *)

Inductive ReactionType : Type :=
  | love | like | dislike | laugh | emphasis | question.

(** iMessage reaction type codes: 2000-2005 add a reaction,
    3000-3005 remove one. *)
Definition REACTION_TYPE_MAP : gmap Z ReactionType :=
  list_to_map
    [(2000%Z, love); (2001%Z, like); (2002%Z, dislike);
     (2003%Z, laugh); (2004%Z, emphasis); (2005%Z, question)].

Definition isReactionMessage (associatedMessageType : option Z) : bool :=
  match associatedMessageType with
  | None => false
  | Some t =>
      if (t =? 0)%Z then false
      else ((2000 <=? t)%Z && (t <=? 2005)%Z) || ((3000 <=? t)%Z && (t <=? 3005)%Z)
  end.

Definition getReactionType (associatedMessageType : Z) : option ReactionType :=
  let normalized :=
    if (3000 <=? associatedMessageType)%Z
    then (associatedMessageType - 1000)%Z else associatedMessageType in
  REACTION_TYPE_MAP !! normalized.

Definition isRemoveReaction (associatedMessageType : Z) : bool :=
  (3000 <=? associatedMessageType)%Z && (associatedMessageType <=? 3005)%Z.

(** *** The target of a reaction

    [associated_message_guid.match(/(?:p:\d+\/|bp:)?(.+)/)].  The
    pattern is not anchored: the engine takes the leftmost position
    from which it matches.  [.] stops at a line terminator (LF, CR,
    U+2028, U+2029; the last two are three bytes in UTF-8). *)
Definition line_terminator_len (s : list nat) : nat :=
  match s with
  | 10 :: _ | 13 :: _ => 1
  | 226 :: 128 :: 168 :: _ | 226 :: 128 :: 169 :: _ => 3
  | _ => 0
  end.

(** [(.+)], greedy *)
Fixpoint dot_run (s : list nat) : list nat :=
  match s with
  | [] => []
  | c :: rest => if line_terminator_len s =? 0 then c :: dot_run rest else []
  end.

Fixpoint drop_digits (s : list nat) : list nat :=
  match s with
  | c :: rest => if is_digit c then drop_digits rest else s
  | [] => []
  end.

(** [(?:p:\d+\/|bp:)]: what follows the prefix, when there is one. *)
Definition after_prefix (s : list nat) : option (list nat) :=
  match s with
  | 112 :: 58 :: d :: rest =>
      if is_digit d then
        match drop_digits rest with
        | 47 :: r => Some r
        | _ => None
        end
      else None
  | 98 :: 112 :: 58 :: rest => Some rest
  | _ => None
  end.

(** The capture of a match that starts at the head of [s]: with the
    prefix when a non-empty run follows it, else without. *)
Definition capture_here (s : list nat) : option (list nat) :=
  let plain := match dot_run s with [] => None | r => Some r end in
  match after_prefix s with
  | Some r => match dot_run r with [] => plain | run => Some run end
  | None => plain
  end.

(** Leftmost match; [skip] counts the bytes left of a line terminator
    that is being stepped over. *)
Fixpoint capture_from (skip : nat) (s : list nat) : option (list nat) :=
  match skip with
  | S k => match s with [] => None | _ :: rest => capture_from k rest end
  | 0 =>
      match capture_here s with
      | Some r => Some r
      | None =>
          match s with
          | [] => None
          | _ :: rest => capture_from (line_terminator_len s - 1) rest
          end
      end
  end.

(** [parentGuid] of the reaction loop: [match[1]] when the pattern
    matches, the association id itself otherwise. *)
Definition parentGuidOf (associated_message_guid : string) : string :=
  match capture_from 0 (bytes_of_string associated_message_guid) with
  | Some r => string_of_bytes r
  | None => associated_message_guid
  end.

(* ================================================================= *)
(** ** Binary text decoder *)

(** *** [Buffer.toString('utf8')]

    Well-formed sequences are kept; every maximal ill-formed subpart
    becomes U+FFFD (EF BF BD), as in the WHATWG decoder Node follows.
    The output is accumulated in reverse. *)
Record utf8_state : Type := mkUtf8 {
  needed : nat;            (* continuation bytes still expected *)
  lower : nat;             (* bounds on the next continuation byte *)
  upper : nat;
  pending : list nat       (* bytes of the sequence so far, reversed *)
}.

Definition utf8_idle : utf8_state := mkUtf8 0 128 191 [].
Definition replacement_rev : list nat := [189; 191; 239].

Definition utf8_lead (b : nat) (out : list nat) : utf8_state * list nat :=
  if b <=? 127 then (utf8_idle, b :: out)
  else if (194 <=? b) && (b <=? 223) then (mkUtf8 1 128 191 [b], out)
  else if (224 <=? b) && (b <=? 239) then
    (mkUtf8 2 (if b =? 224 then 160 else 128) (if b =? 237 then 159 else 191) [b], out)
  else if (240 <=? b) && (b <=? 244) then
    (mkUtf8 3 (if b =? 240 then 144 else 128) (if b =? 244 then 143 else 191) [b], out)
  else (utf8_idle, replacement_rev ++ out).

Definition utf8_step (acc : utf8_state * list nat) (b : nat) : utf8_state * list nat :=
  let (st, out) := acc in
  if needed st =? 0 then utf8_lead b out
  else if (lower st <=? b) && (b <=? upper st) then
    if needed st =? 1 then (utf8_idle, (b :: pending st) ++ out)
    else (mkUtf8 (needed st - 1) 128 191 (b :: pending st), out)
  else utf8_lead b (replacement_rev ++ out).

Definition utf8_decode (bytes : list nat) : list nat :=
  let (st, out) := fold_left utf8_step bytes (utf8_idle, []) in
  rev (if needed st =? 0 then out else replacement_rev ++ out).

(** *** Cleaning the extracted text *)

(** [.replace(/[\x00-\x1f\x80-\x9f]+$/, '')], on the reversed text:
    U+0080-U+009F are the pairs C2 80 - C2 9F. *)
Fixpoint strip_controls_rev (r : list nat) : list nat :=
  match r with
  | c :: rest =>
      if c <=? 31 then strip_controls_rev rest
      else
        match rest with
        | 194 :: rest' =>
            if (128 <=? c) && (c <=? 159) then strip_controls_rev rest' else r
        | _ => r
        end
  | [] => []
  end.

(** Length of the white space or line terminator that starts [s], as
    [String.prototype.trim] understands them; 0 when there is none. *)
Definition whitespace_len (s : list nat) : nat :=
  match s with
  | 9 :: _ | 10 :: _ | 11 :: _ | 12 :: _ | 13 :: _ | 32 :: _ => 1
  | 194 :: 160 :: _ => 2
  | 225 :: 154 :: 128 :: _ => 3
  | 226 :: 128 :: c :: _ =>
      if ((128 <=? c) && (c <=? 138)) || (c =? 168) || (c =? 169) || (c =? 175)
      then 3 else 0
  | 226 :: 129 :: 159 :: _ => 3
  | 227 :: 128 :: 128 :: _ => 3
  | 239 :: 187 :: 191 :: _ => 3
  | _ => 0
  end.

(** The same, read from the end of the text. *)
Definition whitespace_len_rev (r : list nat) : nat :=
  match r with
  | 9 :: _ | 10 :: _ | 11 :: _ | 12 :: _ | 13 :: _ | 32 :: _ => 1
  | 160 :: 194 :: _ => 2
  | 128 :: 154 :: 225 :: _ => 3
  | 159 :: 129 :: 226 :: _ => 3
  | 128 :: 128 :: 227 :: _ => 3
  | 191 :: 187 :: 239 :: _ => 3
  | c :: 128 :: 226 :: _ =>
      if ((128 <=? c) && (c <=? 138)) || (c =? 168) || (c =? 169) || (c =? 175)
      then 3 else 0
  | _ => 0
  end.

Fixpoint trim_with (ws : list nat -> nat) (skip : nat) (s : list nat) : list nat :=
  match skip with
  | S k => match s with [] => [] | _ :: rest => trim_with ws k rest end
  | 0 =>
      match s with
      | [] => []
      | _ :: rest =>
          match ws s with
          | 0 => s
          | S k => trim_with ws k rest
          end
      end
  end.

(** [s.trim()] *)
Definition trim (s : list nat) : list nat :=
  rev (trim_with whitespace_len_rev 0 (rev (trim_with whitespace_len 0 s))).

(** [/^[\x00-\x1f]*$/.test(s)] *)
Definition only_controls (s : list nat) : bool := forallb (fun c => c <=? 31) s.

(** *** The decoder *)

(** What the repository takes from outside: [bplistParser.parseBuffer]
    ([None] when it throws) and [Date.now()], of which [now i] is the
    reading taken while the [i]-th row of a result is converted. *)
Record Host : Type := mkHost {
  parseBuffer : list byte -> option (list jsval);
  now : nat -> Z
}.

Definition nsStringMarker : list nat := bytes_of_string "NSString".

Fixpoint starts_with (needle hay : list nat) : bool :=
  match needle, hay with
  | [], _ => true
  | n :: needle', h :: hay' => (n =? h) && starts_with needle' hay'
  | _ :: _, [] => false
  end.

(** [buf.indexOf(needle)]; [None] is the result -1. *)
Fixpoint indexOf_from (i : nat) (needle hay : list nat) : option nat :=
  if starts_with needle hay then Some i
  else match hay with
       | [] => None
       | _ :: hay' => indexOf_from (S i) needle hay'
       end.

Definition indexOf (needle hay : list nat) : option nat := indexOf_from 0 needle hay.

(** [buf[i]]; [None] is [undefined]. *)
Definition at_ (buf : list nat) (i : nat) : option nat := nth_error buf i.

Definition at_is (buf : list nat) (i v : nat) : bool :=
  match at_ buf i with Some b => b =? v | None => false end.

(** [buf[i]] where the guards of the code have checked [i < length]. *)
Definition at0 (buf : list nat) (i : nat) : nat := nth i buf 0.

(** [buf.subarray(i, j)] *)
Definition subarray (i j : nat) (buf : list nat) : list nat := firstn (j - i) (skipn i buf).

Definition isBplist (buf : list nat) : bool :=
  (6 <=? length buf) &&
  at_is buf 0 98 && at_is buf 1 112 && at_is buf 2 108 &&
  at_is buf 3 105 && at_is buf 4 115 && at_is buf 5 116.

(** How a block of statements ends. *)
Inductive completion : Type :=
  | Normal                 (* ran to its end *)
  | Return (v : jsval)     (* [return v] *)
  | Throw.                 (* raised an exception *)

(** [if (o.k) return o.k;] followed by [rest] *)
Definition return_if_prop (o : jsval) (k : string) (rest : completion) : completion :=
  match get_prop o k with
  | None => Throw
  | Some v => if truthy v then Return v else rest
  end.

(** The body of the [try] block. *)
Definition tryArchive (h : Host) (attributedBody : list byte) : completion :=
  match parseBuffer h attributedBody with
  | None => Throw
  | Some [] => Normal
  | Some (obj :: _) =>
      return_if_prop obj "NSString"
        (return_if_prop obj "NS.string"
           (match get_prop obj "NSAttributedString" with
            | None => Throw
            | Some attrString =>
                if truthy attrString then
                  return_if_prop attrString "NSString"
                    (return_if_prop attrString "NS.string" Normal)
                else Normal
            end))
  end.

(** The length field that starts at [offset]: the text length and the
    offset of the text. *)
Definition readLength (buf : list nat) (offset : nat) : nat * nat :=
  if 128 <=? at0 buf offset then
    let extraBytes := at0 buf offset - 128 in
    let offset := offset + 1 in
    if (extraBytes =? 1) && (offset <? length buf) then
      let textLength := at0 buf offset in
      let offset := offset + 1 in
      (textLength, if (offset <? length buf) && at_is buf offset 0 then offset + 1 else offset)
    else if (extraBytes =? 2) && (offset + 1 <? length buf) then
      let textLength := Nat.lor (Nat.shiftl (at0 buf offset) 8) (at0 buf (offset + 1)) in
      let offset := offset + 2 in
      (textLength, if (offset <? length buf) && at_is buf offset 0 then offset + 1 else offset)
    else (0, offset)
  else (at0 buf offset, offset + 1).

(** The typedstream path: the length-prefixed text after the marker. *)
Definition scanTypedstream (buf : list nat) : jsval :=
  match indexOf nsStringMarker buf with
  | None => JNull
  | Some markerIndex =>
      let offset := markerIndex + length nsStringMarker in
      let offset := offset + 4 in
      let offset :=
        if (offset <? length buf) && at_is buf offset 43 then offset + 1 else offset in
      if offset <? length buf then
        let (textLength, offset) := readLength buf offset in
        if (0 <? textLength) && (offset + textLength <=? length buf) then
          let textBuffer := subarray offset (offset + textLength) buf in
          let extractedText := utf8_decode textBuffer in
          let cleaned := trim (rev (strip_controls_rev (rev extractedText))) in
          if (0 <? length cleaned) && negb (only_controls cleaned)
          then JStr (string_of_bytes cleaned)
          else JNull
        else JNull
      else JNull
  end.

Definition extractTextFromAttributedBody (h : Host) (attributedBody : option (list byte))
  : jsval :=
  match attributedBody with
  | None => JNull
  | Some body =>
      let buf := map Byte.to_nat body in
      if length buf <? 8 then JNull
      else
        match (if isBplist buf then tryArchive h body else Normal) with
        | Return v => v
        | Normal | Throw => scanTypedstream buf
        end
  end.

(* ================================================================= *)
(** ** Contact name resolver *)

Record ContactsResolver : Type := mkResolver {
  phoneCache : gmap string string;
  emailCache : gmap string string;
  cacheBuilt : bool
}.

(** [cache.get(key) || null] *)
Definition cache_get (cache : gmap string string) (key : string) : option string :=
  match cache !! key with
  | Some name => if String.eqb name "" then None else Some name
  | None => None
  end.

Definition resolvePhone (r : ContactsResolver) (phoneNumber : string) : option string :=
  if negb (cacheBuilt r) then None
  else
    let cleaned := strip_non_digits phoneNumber in
    let key := last10 cleaned in
    cache_get (phoneCache r) key.

Definition resolveEmail (r : ContactsResolver) (email : string) : option string :=
  if negb (cacheBuilt r) then None
  else cache_get (emailCache r) (toLowerCase email).

Definition resolve (r : ContactsResolver) (identifier : string) : option string :=
  if String.eqb identifier "" then None
  else if includes_at identifier then resolveEmail r identifier
  else resolvePhone r identifier.

(* ================================================================= *)
(** ** The source database *)

(** Rows of the tables the queries read, with the columns they name.
    [ROWID] is the integer key SQLite gives every row. *)
Record chat : Type := mkChat {
  chat_ROWID : Z;
  chat_identifier : option string;
  display_name : option string;
  group_id : option string
}.

Record message : Type := mkMessage {
  ROWID : Z;
  guid : option string;
  text : option string;
  attributedBody : option (list byte);
  handle_id : option Z;
  service : option string;
  date : option Z;
  date_read : option Z;
  date_delivered : option Z;
  is_from_me : option Z;
  is_read : option Z;
  is_sent : option Z;
  is_delivered : option Z;
  cache_has_attachments : option Z;
  associated_message_guid : option string;
  associated_message_type : option Z;
  expressive_send_style_id : option string
}.

Record handle : Type := mkHandle {
  handle_ROWID : Z;
  handle_ident : string;           (* column [id], never NULL *)
  handle_service : option string
}.

Record attachment : Type := mkAttachmentRow {
  attachment_ROWID : Z;
  filename : option string;
  mime_type : option string;
  total_bytes : option Z;
  transfer_name : option string;
  is_sticker : option Z;
  hide_attachment : option Z
}.

Record Database : Type := mkDatabase {
  chats : list chat;
  messages : list message;
  handles : list handle;
  attachments_tbl : list attachment;
  chat_message_join : list (Z * Z);        (* chat_id, message_id *)
  chat_handle_join : list (Z * Z);         (* chat_id, handle_id *)
  message_attachment_join : list (Z * Z)   (* message_id, attachment_id *)
}.

Record MessagesDatabase : Type := mkMessagesDatabase {
  db : Database;
  contactsResolver : option ContactsResolver
}.

(** *** Query parameters *)

(** A value bound to a [?]. *)
Inductive sqlval : Type :=
  | SqlInt (z : Z)
  | SqlText (s : string).

(** SQLite compares an INTEGER column with a TEXT parameter as
    numbers: it reads the text as a number first ([sqlite3AtoF]).
    The text may hold blanks, a sign, digits with or without a
    decimal point, an exponent, and blanks again; at least one digit
    is needed before the exponent, and one in it. *)
Definition is_space (c : nat) : bool := ((9 <=? c) && (c <=? 13)) || (c =? 32).

Fixpoint skip_spaces (s : list nat) : list nat :=
  match s with
  | c :: rest => if is_space c then skip_spaces rest else s
  | [] => []
  end.

(** The digits a text begins with, and the rest of it. *)
Fixpoint span_digits (s : list nat) : list nat * list nat :=
  match s with
  | c :: rest =>
      if is_digit c then let (ds, rest') := span_digits rest in (c :: ds, rest')
      else ([], s)
  | [] => ([], [])
  end.

Definition read_sign (s : list nat) : bool * list nat :=
  match s with
  | c :: rest =>
      if c =? 45 then (true, rest) else if c =? 43 then (false, rest) else (false, s)
  | [] => (false, [])
  end.

(** The number the digits [ds] stand for, read after the digits that
    gave [acc]. *)
Fixpoint digits_value (acc : Z) (ds : list nat) : Z :=
  match ds with
  | [] => acc
  | d :: rest => digits_value (10 * acc + Z.of_nat (d - 48))%Z rest
  end.

(** A numeric literal: its sign, the digits before the point, the
    digits after it when there is a point, and the exponent when
    there is one. *)
Record numeral : Type := mkNumeral {
  negative : bool;
  whole : list nat;
  fraction : option (list nat);
  exponent : option Z
}.

Definition read_fraction (s : list nat) : option (list nat) * list nat :=
  match s with
  | c :: rest =>
      if c =? 46 then let (ds, rest') := span_digits rest in (Some ds, rest') else (None, s)
  | [] => (None, [])
  end.

(** [None] is an [e] that no digit follows. *)
Definition read_exponent (s : list nat) : option (option Z * list nat) :=
  match s with
  | c :: rest =>
      if (c =? 101) || (c =? 69) then
        let (minus, rest) := read_sign rest in
        let (ds, rest') := span_digits rest in
        match ds with
        | [] => None
        | _ => Some (Some (if minus then - digits_value 0 ds else digits_value 0 ds)%Z, rest')
        end
      else Some (None, s)
  | [] => Some (None, [])
  end.

Definition read_numeral (text : list nat) : option numeral :=
  let (negative, s) := read_sign (skip_spaces text) in
  let (whole, s) := span_digits s in
  let (fraction, s) := read_fraction s in
  match read_exponent s with
  | Some (exponent, s) =>
      match skip_spaces s with
      | [] =>
          if 0 <? length whole + length (default [] fraction)
          then Some (mkNumeral negative whole fraction exponent)
          else None
      | _ :: _ => None
      end
  | None => None
  end.

(** The value of a literal: its digits, scaled by the power of ten
    that the exponent and the place of the point give. *)
Definition numeral_value (n : numeral) : Q :=
  let digits := whole n ++ default [] (fraction n) in
  let scale := (default 0 (exponent n) - Z.of_nat (length (default [] (fraction n))))%Z in
  let magnitude := (inject_Z (digits_value 0 digits) * 10 ^ scale)%Q in
  if negative n then (- magnitude)%Q else magnitude.

(** A number as SQLite holds it. *)
Inductive sqlnum : Type :=
  | NumInt (z : Z)
  | NumReal (d : Q).

(** NUMERIC affinity on a TEXT value ([applyNumericAffinity]): digits
    alone that fit 64 bits are an INTEGER; any other literal is a
    REAL, the double nearest to its value (the conversion of SQLite
    is taken to round correctly); a text that is no literal stays a
    text. *)
Definition numeric_of_text (s : string) : option sqlnum :=
  match read_numeral (bytes_of_string s) with
  | Some n =>
      match fraction n, exponent n with
      | None, None =>
          let z := if negative n then (- digits_value 0 (whole n))%Z
                   else digits_value 0 (whole n) in
          if (- 2 ^ 63 <=? z)%Z && (z <? 2 ^ 63)%Z then Some (NumInt z)
          else Some (NumReal (Double.nearest (inject_Z z)))
      | _, _ => Some (NumReal (Double.nearest (numeral_value n)))
      end
  | None => None
  end.

(** [col = ?] on an INTEGER column; a text that is no number equals
    no integer. *)
Definition int_eq_param (col : Z) (p : sqlval) : bool :=
  match p with
  | SqlInt z => (col =? z)%Z
  | SqlText s =>
      match numeric_of_text s with
      | Some (NumInt z) => (col =? z)%Z
      | Some (NumReal d) => Qeq_bool d (inject_Z col)
      | None => false
      end
  end.

(** The ROWID a text parameter looks up in [c.ROWID = ?]: the key of
    the search must be an integer, and a REAL becomes one when it is
    whole and strictly inside the 64-bit range. *)
Definition integer_of_text (s : string) : option Z :=
  match numeric_of_text s with
  | Some (NumInt z) => Some z
  | Some (NumReal d) =>
      let z := Qfloor d in
      if Qeq_bool d (inject_Z z) && (- 2 ^ 63 <? z)%Z && (z <? 2 ^ 63)%Z then Some z else None
  | None => None
  end.

(** [c.ROWID = ?] with a text parameter. *)
Definition rowid_eq_text (rowid : Z) (s : string) : bool :=
  match integer_of_text s with
  | Some z => (rowid =? z)%Z
  | None => false
  end.

(** [col = 0] ; a NULL equals nothing. *)
Definition is_zero (col : option Z) : bool :=
  match col with Some z => (z =? 0)%Z | None => false end.

(** *** Ordering *)

(** [a <= b] in SQLite's order on a nullable INTEGER, where NULL sorts
    before every value. *)
Definition sql_leb (a b : option Z) : bool :=
  match a, b with
  | None, _ => true
  | Some _, None => false
  | Some x, Some y => (x <=? y)%Z
  end.

(** [ORDER BY key DESC]: [a] may come before [b]. *)
Definition desc_by {A} (key : A -> option Z) (a b : A) : Prop :=
  sql_leb (key b) (key a) = true.

#[global] Instance desc_by_dec {A} (key : A -> option Z) (a b : A) :
  Decision (desc_by key a b).
Proof. unfold desc_by. apply _. Defined.

(** [ORDER BY key DESC].  SQLite promises no order among rows with
    equal keys; the model takes the one the merge sort leaves. *)
Definition order_by_desc {A} (key : A -> option Z) (rows : list A) : list A :=
  merge_sort (desc_by key) rows.

(** [LIMIT n]: a negative [n] means no limit. *)
Definition sql_limit {A} (n : Z) (rows : list A) : list A :=
  if (n <? 0)%Z then rows else take (Z.to_nat n) rows.

(** [MAX(col)]: NULLs are skipped; NULL when nothing is left. *)
Definition sql_max (vals : list (option Z)) : option Z :=
  fold_right (fun v acc =>
                match v, acc with
                | Some x, Some y => Some (Z.max x y)
                | Some x, None => Some x
                | None, _ => acc
                end) None vals.

(* ================================================================= *)
(** ** The domain model ([packages/shared-types/types.ts]) *)

Module Contact.
Record t : Type := mk {
  id : string;
  displayName : string;
  handleIdentifier : string;
  phoneNumber : option string;
  email : option string;
  isMe : bool
}.
End Contact.

Module Reaction.
Record t : Type := mk {
  type : ReactionType;
  senderId : string;
  senderName : string;
  isFromMe : bool
}.
End Reaction.

Module Attachment.
Record t : Type := mk {
  id : string;
  messageId : string;
  filename : string;
  mimeType : string;
  totalBytes : Z;
  transferName : string;
  filePath : string;
  isSticker : bool;
  hideAttachment : bool
}.
End Attachment.

Module Message.
Record t : Type := mk {
  id : string;
  conversationId : string;
  text : jsval;
  senderId : string;
  senderName : string;
  timestamp : Z;
  isFromMe : bool;
  isRead : bool;
  isSent : bool;
  isDelivered : bool;
  attachments : list Attachment.t;
  reactions : list Reaction.t;
  associatedMessageGuid : option string;
  associatedMessageType : option Z;
  expressiveSendStyleId : option string
}.

(** [message.reactions = rs] *)
Definition set_reactions (m : t) (rs : list Reaction.t) : t :=
  mk (id m) (conversationId m) (text m) (senderId m) (senderName m) (timestamp m)
     (isFromMe m) (isRead m) (isSent m) (isDelivered m) (attachments m) rs
     (associatedMessageGuid m) (associatedMessageType m) (expressiveSendStyleId m).
End Message.

Module Conversation.
Record t : Type := mk {
  id : string;
  displayName : string;
  participants : list Contact.t;
  lastMessage : option Message.t;
  unreadCount : Z;
  isGroup : bool;
  groupPhotoPath : option string
}.
End Conversation.

Record GetMessagesResult : Type := mkResult {
  result_messages : list Message.t;
  hasMore : bool
}.

(* ================================================================= *)
(** ** The queries *)

(** A row of the message queries: the columns of [message] and
    [h.id as sender_identifier] from the left join. *)
Record row : Type := mkRow {
  row_message :> message;
  sender_identifier : option string
}.

(** [message m LEFT JOIN handle h ON m.handle_id = h.ROWID] *)
Definition left_join_handle (d : Database) (m : message) : list (option string) :=
  match List.filter (fun h => match handle_id m with
                              | Some k => (k =? handle_ROWID h)%Z
                              | None => false
                              end) (handles d) with
  | [] => [None]
  | hs => map (fun h => Some (handle_ident h)) hs
  end.

(** [FROM message m LEFT JOIN handle h ... JOIN chat_message_join cmj
    ON cmj.message_id = m.ROWID WHERE cmj.chat_id = ? AND where(m)] *)
Definition selectMessages (d : Database) (chat_id : sqlval) (where_ : message -> bool)
  : list row :=
  m ← messages d;
  sender ← left_join_handle d m;
  cmj ← chat_message_join d;
  if (cmj.2 =? ROWID m)%Z && int_eq_param cmj.1 chat_id && where_ m
  then [mkRow m sender] else [].

(** [m.date], the key of [ORDER BY m.date DESC] *)
Definition row_date (r : row) : option Z := date r.

(** [m.date < ?] *)
Definition date_before (cursor : Z) (m : message) : bool :=
  match date m with Some t => (t <? cursor)%Z | None => false end.

(** The query of [getMessages]. *)
Definition messagesQuery (d : Database) (conversationId : string) (limit : Z)
    (before : option Z) : list row :=
  let where_ :=
    if truthy_int before then date_before (int_or_zero before) else (fun _ => true) in
  sql_limit ((limit + 1) * 3)
    (order_by_desc row_date (selectMessages d (SqlText conversationId) where_)).

(** [m.associated_message_type IS NULL OR m.associated_message_type <
    2000 OR m.associated_message_type > 3005] *)
Definition lastMessageFilter (m : message) : bool :=
  match associated_message_type m with
  | None => true
  | Some t => (t <? 2000)%Z || (3005 <? t)%Z
  end.

(** The query of [getLastMessageForChat], which ends in [LIMIT 1]. *)
Definition lastMessageQuery (d : Database) (chatId : Z) : list row :=
  sql_limit 1 (order_by_desc row_date (selectMessages d (SqlInt chatId) lastMessageFilter)).

(** [FROM chat_message_join cmj JOIN message m ON cmj.message_id =
    m.ROWID WHERE cmj.chat_id = c.ROWID] *)
Definition joinedMessages (d : Database) (chat_rowid : Z) : list message :=
  cmj ← chat_message_join d;
  m ← messages d;
  if (cmj.2 =? ROWID m)%Z && (cmj.1 =? chat_rowid)%Z then [m] else [].

(** A row of the conversation queries. *)
Record chat_row : Type := mkChatRow {
  chat_id : Z;
  row_display_name : option string;
  unread_count : Z;
  last_message_date : option Z
}.

Definition unread (m : message) : bool := is_zero (is_read m) && is_zero (is_from_me m).

Definition select_chat (d : Database) (c : chat) : chat_row :=
  mkChatRow (chat_ROWID c) (display_name c)
    (Z.of_nat (length (List.filter unread (joinedMessages d (chat_ROWID c)))))
    (sql_max (map date (joinedMessages d (chat_ROWID c)))).

(** The query of [getConversations]. *)
Definition conversationsQuery (d : Database) : list chat_row :=
  order_by_desc last_message_date
    (List.filter (fun r => bool_decide (is_Some (last_message_date r)))
                 (map (select_chat d) (chats d))).

(** The query of [getConversation]. *)
Definition conversationQuery (d : Database) (conversationId : string) : list chat_row :=
  map (select_chat d)
      (List.filter (fun c => rowid_eq_text (chat_ROWID c) conversationId) (chats d)).

(** The query of [getChatParticipants]. *)
Definition participantsQuery (d : Database) (chatId : Z) : list handle :=
  h ← handles d;
  chj ← chat_handle_join d;
  if (chj.2 =? handle_ROWID h)%Z && (chj.1 =? chatId)%Z then [h] else [].

(** The query of [getMessageAttachments]. *)
Definition attachmentsQuery (d : Database) (messageId : Z) : list attachment :=
  a ← attachments_tbl d;
  maj ← message_attachment_join d;
  if (maj.2 =? attachment_ROWID a)%Z && (maj.1 =? messageId)%Z then [a] else [].

(* ================================================================= *)
(** ** The assembler ([MessagesDatabase]) *)

(** [String(row.handle_id || 'unknown')] *)
Definition handle_or_unknown (handle_id : option Z) : string :=
  if truthy_int handle_id then String_of_Z (int_or_zero handle_id) else "unknown".

Definition formatHandleIdentifier (self : MessagesDatabase) (identifier : string) : string :=
  if String.eqb identifier "" then "Unknown"
  else
    let contactName :=
      match contactsResolver self with
      | Some r => resolve r identifier
      | None => None
      end in
    match contactName with
    | Some name => name
    | None =>
        if includes_at identifier then identifier
        else
          let cleaned := strip_non_digits identifier in
          if String.length cleaned =? 10 then
            "(" +:+ slice 0 3 cleaned +:+ ") " +:+ slice 3 6 cleaned +:+ "-"
            +:+ slice_from 6 cleaned
          else if (String.length cleaned =? 11) && String.eqb (slice 0 1 cleaned) "1" then
            "+1 (" +:+ slice 1 4 cleaned +:+ ") " +:+ slice 4 7 cleaned +:+ "-"
            +:+ slice_from 7 cleaned
          else identifier
    end.

Definition generateDisplayName (participants : list Contact.t) : string :=
  match participants with
  | [] => "Unknown"
  | [p] => Contact.displayName p
  | [_; _] => join_comma (map Contact.displayName participants)
  | p :: _ =>
      Contact.displayName p +:+ " and " +:+
      String_of_Z (Z.of_nat (length participants) - 1) +:+ " others"
  end.

Definition getChatParticipants (self : MessagesDatabase) (chatId : Z) : list Contact.t :=
  map (fun h =>
         Contact.mk
           (String_of_Z (handle_ROWID h))
           (formatHandleIdentifier self (handle_ident h))
           (handle_ident h)
           (if bool_decide (handle_service h = Some "SMS")
            then Some (handle_ident h) else None)
           (if bool_decide (handle_service h = Some "iMessage") && includes_at (handle_ident h)
            then Some (handle_ident h) else None)
           false)
      (participantsQuery (db self) chatId).

Definition getMessageAttachments (self : MessagesDatabase) (messageId : Z)
  : list Attachment.t :=
  map (fun a =>
         Attachment.mk
           (String_of_Z (attachment_ROWID a))
           (String_of_Z messageId)
           (text_or (filename a) "")
           (text_or (mime_type a) "")
           (int_or_zero (total_bytes a))
           (text_or (transfer_name a) "")
           (text_or (filename a) "")
           (truthy_int (is_sticker a))
           (truthy_int (hide_attachment a)))
      (attachmentsQuery (db self) messageId).

Definition appleEpoch : Z := 978307200000.

(** [appleEpoch + row.date / 1000000], on doubles *)
Definition convertedDate (t : Z) : Q :=
  Double.add (inject_Z appleEpoch) (Double.div (Double.of_int64 t) 1000000%Q).

(** [Math.floor(row.date ? appleEpoch + row.date / 1000000 : Date.now())] *)
Definition timestampOf (h : Host) (i : nat) (date : option Z) : Z :=
  Double.floor
    (if truthy_int date then convertedDate (int_or_zero date) else inject_Z (now h i)).

(** The same sum on hardware floats, to compare the model with. *)
Definition convertedDate_hw (t : Z) : float :=
  PrimFloat.add (Double.float_of_int64 appleEpoch)
                (PrimFloat.div (Double.float_of_int64 t) (Double.float_of_int64 1000000)).

(** [x || undefined] *)
Definition text_or_undefined (o : option string) : option string :=
  if truthy_text o then o else None.

Definition int_or_undefined (o : option Z) : option Z :=
  if truthy_int o then o else None.

(** [i] numbers the conversion within the call, for the clock. *)
Definition mapRowToMessage (h : Host) (self : MessagesDatabase) (i : nat)
    (row : row) (conversationId : string) : Message.t :=
  let timestamp := timestampOf h i (date row) in
  let attachments :=
    if truthy_int (cache_has_attachments row)
    then getMessageAttachments self (ROWID row) else [] in
  let messageText := match text row with Some s => JStr s | None => JNull end in
  let messageText :=
    if negb (truthy messageText) && bool_decide (is_Some (attributedBody row))
    then extractTextFromAttributedBody h (attributedBody row)
    else messageText in
  Message.mk
    (text_or (guid row) (String_of_Z (ROWID row)))
    conversationId
    (js_or messageText (JStr ""))
    (if truthy_int (is_from_me row) then "me" else handle_or_unknown (handle_id row))
    (if truthy_int (is_from_me row) then "Me"
     else formatHandleIdentifier self (text_or (sender_identifier row) "Unknown"))
    timestamp
    (truthy_int (is_from_me row))
    (truthy_int (is_read row))
    (truthy_int (is_sent row))
    (truthy_int (is_delivered row))
    attachments
    []
    (text_or_undefined (associated_message_guid row))
    (int_or_undefined (associated_message_type row))
    (text_or_undefined (expressive_send_style_id row)).

(** The [Reaction] built from a reaction row. *)
Definition reactionOf (self : MessagesDatabase) (reactionType : ReactionType) (row : row)
  : Reaction.t :=
  Reaction.mk
    reactionType
    (if truthy_int (is_from_me row) then "me" else handle_or_unknown (handle_id row))
    (if truthy_int (is_from_me row) then "Me"
     else formatHandleIdentifier self (text_or (sender_identifier row) "Unknown"))
    (truthy_int (is_from_me row)).

(** One turn of the loop that fills [reactionsMap]. *)
Definition addReaction (self : MessagesDatabase) (reactionsMap : gmap string (list Reaction.t))
    (row : row) : gmap string (list Reaction.t) :=
  match associated_message_guid row, associated_message_type row with
  | Some assoc, Some ty =>
      if String.eqb assoc "" || isRemoveReaction ty then reactionsMap
      else
        let parentGuid := parentGuidOf assoc in
        match getReactionType ty with
        | None => reactionsMap
        | Some reactionType =>
            let existing := default [] (reactionsMap !! parentGuid) in
            <[parentGuid := existing ++ [reactionOf self reactionType row]]> reactionsMap
        end
  | _, _ => reactionsMap
  end.

(** [reactionsMap.get(row.guid) || []] *)
Definition reactionsFor (reactionsMap : gmap string (list Reaction.t)) (guid : option string)
  : list Reaction.t :=
  match guid with
  | Some g => default [] (reactionsMap !! g)
  | None => []
  end.

(** [rows.slice(0, limit)]: a negative end counts from the end. *)
Definition slice0 {A} (limit : Z) (rows : list A) : list A :=
  if (limit <? 0)%Z then take (Z.to_nat (Z.of_nat (length rows) + limit)) rows
  else take (Z.to_nat limit) rows.

Definition getMessages (h : Host) (self : MessagesDatabase) (conversationId : string)
    (limit : Z) (before : option Z) : GetMessagesResult :=
  let rows := messagesQuery (db self) conversationId limit before in
  let reactionRows :=
    List.filter (fun row : row => isReactionMessage (associated_message_type row)) rows in
  let messageRows :=
    List.filter (fun row : row => negb (isReactionMessage (associated_message_type row)))
                rows in
  let reactionsMap := fold_left (addReaction self) reactionRows ∅ in
  let hasMore := (limit <? Z.of_nat (length messageRows))%Z in
  let messages :=
    imap (fun i (row : row) =>
            let message := mapRowToMessage h self i row conversationId in
            Message.set_reactions message (reactionsFor reactionsMap (guid row)))
         (slice0 limit messageRows) in
  mkResult (reverse messages) hasMore.

Definition getLastMessageForChat (h : Host) (self : MessagesDatabase) (i : nat) (chatId : Z)
  : option Message.t :=
  match lastMessageQuery (db self) chatId with
  | [] => None
  | row :: _ => Some (mapRowToMessage h self i row (String_of_Z chatId))
  end.

(** The object both conversation readers build from a row. *)
Definition conversationOf (h : Host) (self : MessagesDatabase) (i : nat) (row : chat_row)
  : Conversation.t :=
  let participants := getChatParticipants self (chat_id row) in
  let lastMessage := getLastMessageForChat h self i (chat_id row) in
  Conversation.mk
    (String_of_Z (chat_id row))
    (text_or (row_display_name row) (generateDisplayName participants))
    participants
    lastMessage
    (unread_count row)
    (2 <? length participants)
    None.

Definition getConversations (h : Host) (self : MessagesDatabase) : list Conversation.t :=
  imap (conversationOf h self) (conversationsQuery (db self)).

Definition getConversation (h : Host) (self : MessagesDatabase) (conversationId : string)
  : option Conversation.t :=
  match conversationQuery (db self) conversationId with
  | [] => None
  | row :: _ => Some (conversationOf h self 0 row)
  end.

(* ================================================================= *)
(** ** Building the contacts cache ([contacts.ts]) *)

(** [s.split(sep)] for a separator of one character; [cur] holds the
    piece being read, reversed. *)
Fixpoint split_from (sep : nat) (cur : list nat) (s : list nat) : list (list nat) :=
  match s with
  | [] => [rev cur]
  | c :: rest =>
      if c =? sep then rev cur :: split_from sep [] rest
      else split_from sep (c :: cur) rest
  end.

Definition split_on (sep : nat) (s : string) : list string :=
  map string_of_bytes (split_from sep [] (bytes_of_string s)).

(** [s.trim()] on strings *)
Definition trimmed (s : string) : string := string_of_bytes (trim (bytes_of_string s)).

(** [stdout.trim().split('\n').filter(line => line.trim())] *)
Definition contactLines (stdout : string) : list string :=
  List.filter (fun line => negb (String.eqb (trimmed line) ""))
              (split_on 10 (trimmed stdout)).

(** One turn of the loop over the lines [name|type|value]. *)
Definition cacheContact (r : ContactsResolver) (line : string) : ContactsResolver :=
  match split_on 124 line with
  | [name; type; value] =>
      if String.eqb name "" || String.eqb value "" then r
      else if String.eqb type "phone" then
        let cleaned := strip_non_digits value in
        let key := last10 cleaned in
        if 7 <=? String.length key
        then mkResolver (<[key := name]> (phoneCache r)) (emailCache r) (cacheBuilt r)
        else r
      else if String.eqb type "email" then
        mkResolver (phoneCache r) (<[toLowerCase value := name]> (emailCache r)) (cacheBuilt r)
      else r
  | _ => r
  end.

(** [new ContactsResolver()] *)
Definition newResolver : ContactsResolver := mkResolver ∅ ∅ false.

(** [buildCache], given what the AppleScript run printed; [None] when
    the run failed, which is logged and changes nothing.  Writing the
    cache file afterwards is left out. *)
Definition buildCache (r : ContactsResolver) (stdout : option string) : ContactsResolver :=
  match stdout with
  | None => r
  | Some out =>
      let r' := fold_left cacheContact (contactLines out) r in
      mkResolver (phoneCache r') (emailCache r') true
  end.

(* ================================================================= *)
(** ** Change notifications ([server.ts]) *)

(** What the server sends over the WebSocket ([types.ts]). *)
Inductive WebSocketMessage : Type :=
  | new_message (payload : Message.t)
  | message_updated (payload : Message.t)
  | conversation_updated (payload : Conversation.t)
  | contacts_ready
  | error_message (message : string).

(** The start-up loop that fills [lastSeenMessageIds]; [None] when
    [getConversations] throws, which is logged. *)
Definition rememberLastMessage (lastSeenMessageIds : gmap string string)
    (conversation : Conversation.t) : gmap string string :=
  match Conversation.lastMessage conversation with
  | Some lastMessage =>
      <[Conversation.id conversation := Message.id lastMessage]> lastSeenMessageIds
  | None => lastSeenMessageIds
  end.

Definition initLastSeen (initialConversations : option (list Conversation.t))
  : gmap string string :=
  match initialConversations with
  | Some conversations => fold_left rememberLastMessage conversations ∅
  | None => ∅
  end.

(** [text?.slice(0, 30)] in the line that logs a new message:
    [false] when the call throws.  Strings, arrays and Buffers have
    the method; a number, a boolean and a plain object have none, and
    calling what is not a function is a TypeError.  The rest of the
    line ([|| '[no text]'] and the template) throws on none of these
    values. *)
Definition sliceText (text : jsval) : bool :=
  match text with
  | JUndefined | JNull => true
  | JStr _ | JArr _ | JBuffer _ => true
  | JBool _ | JNum _ | JObj _ => false
  end.

(** One turn of the loop of the watcher's ['change'] handler: the map
    of last seen message ids and the messages broadcast so far, and
    whether the turn threw. *)
Definition noteConversation (state : gmap string string * list WebSocketMessage)
    (conversation : Conversation.t) : gmap string string * list WebSocketMessage * bool :=
  let (lastSeenMessageIds, sent) := state in
  match Conversation.lastMessage conversation with
  | Some lastMessage =>
      let lastSeenId := lastSeenMessageIds !! Conversation.id conversation in
      let currentMessageId := Message.id lastMessage in
      if bool_decide (lastSeenId <> Some currentMessageId) then
        let sent := sent ++ [conversation_updated conversation] in
        if sliceText (Message.text lastMessage) then
          (<[Conversation.id conversation := currentMessageId]> lastSeenMessageIds,
           sent ++ [new_message lastMessage], false)
        else (lastSeenMessageIds, sent, true)
      else (state, false)
  | None => (state, false)
  end.

(** The loop, which an exception ends. *)
Fixpoint noteConversations (state : gmap string string * list WebSocketMessage)
    (conversations : list Conversation.t)
  : gmap string string * list WebSocketMessage * bool :=
  match conversations with
  | [] => (state, false)
  | conversation :: rest =>
      let (state, threw) := noteConversation state conversation in
      if threw then (state, true) else noteConversations state rest
  end.

(** The ['change'] handler, given what [db.getConversations()]
    returns ([None] when it throws): the new map and the broadcasts,
    in order.  The [catch] block broadcasts an error after whatever
    the [try] block had sent. *)
Definition onChange (lastSeenMessageIds : gmap string string)
    (conversations : option (list Conversation.t))
  : gmap string string * list WebSocketMessage :=
  match conversations with
  | Some conversations =>
      let '(lastSeenMessageIds, sent, threw) :=
        noteConversations (lastSeenMessageIds, []) conversations in
      (lastSeenMessageIds,
       if threw then sent ++ [error_message "Failed to fetch updated messages"] else sent)
  | None => (lastSeenMessageIds, [error_message "Failed to fetch updated messages"])
  end.

(* ================================================================= *)
(** ** Sending through AppleScript ([applescript.ts]) *)

(** [s.replace(/c/g, replacement)] for a pattern of one character *)
Definition replaceAll (c : nat) (replacement : list nat) (s : list nat) : list nat :=
  flat_map (fun x => if x =? c then replacement else [x]) s.

(** [text.replace(/\\/g, '\\\\').replace(/"/g, '\\"')]: backslashes
    are doubled first, then every double quote gets a backslash. *)
Definition escapeForAppleScript (text : string) : string :=
  string_of_bytes (replaceAll 34 [92; 34] (replaceAll 92 [92; 92] (bytes_of_string text))).

(** [script.replace(/'/g, "'\"'\"'")], the script as it is put
    between single quotes on the [osascript -e] command line. *)
Definition quoteForShell (script : string) : string :=
  string_of_bytes ([39] ++ replaceAll 39 [39; 34; 39; 34; 39] (bytes_of_string script) ++ [39]).

(* ================================================================= *)
(** ** Reaction badges ([components/MessageThread.tsx]) *)

#[global] Instance ReactionType_eq_dec : EqDecision ReactionType.
Proof. solve_decision. Defined.

Definition REACTION_EMOJI (type : ReactionType) : string :=
  match type with
  | love => "❤️"
  | like => "👍"
  | dislike => "👎"
  | laugh => "😂"
  | emphasis => "‼️"
  | question => "❓"
  end.

Record ReactionGroup : Type := mkGroup {
  group_type : ReactionType;
  group_emoji : string;
  group_count : nat;
  group_names : list string
}.

(** One turn of the loop over the reactions.  [groups] is the [Map],
    as the list of its entries in insertion order: an entry that
    exists is updated in place, a new one goes to the end. *)
Fixpoint countReaction (type : ReactionType) (senderName : string)
    (groups : list (ReactionType * (nat * list string)))
  : list (ReactionType * (nat * list string)) :=
  match groups with
  | [] => [(type, (1, [senderName]))]
  | (type', (count, names)) :: rest =>
      if decide (type' = type)
      then (type', (count + 1, names ++ [senderName])) :: rest
      else (type', (count, names)) :: countReaction type senderName rest
  end.

Definition groupReactions (reactions : list Reaction.t) : list ReactionGroup :=
  let groups :=
    fold_left (fun groups reaction =>
                 countReaction (Reaction.type reaction) (Reaction.senderName reaction) groups)
              reactions [] in
  map (fun entry => mkGroup entry.1 (REACTION_EMOJI entry.1) entry.2.1 entry.2.2) groups.

(* ================================================================= *)
(** ** The clients' stores ([passage-frontend/src/controller.ts],
       [passage-tui/src/state/store.ts]) *)

(** [array.findIndex(p)]; [None] is the result -1. *)
Fixpoint findIndex {A} (p : A -> bool) (l : list A) : option nat :=
  match l with
  | [] => None
  | x :: rest => if p x then Some 0 else S <$> findIndex p rest
  end.

(** [array.sort(compare)].  The sort is stable, which fixes the
    result; it is computed here by insertion from the right. *)
Fixpoint insertBy {A} (compare : A -> A -> Z) (x : A) (sorted : list A) : list A :=
  match sorted with
  | [] => [x]
  | y :: rest =>
      if (compare x y <=? 0)%Z then x :: sorted else y :: insertBy compare x rest
  end.

Definition sortBy {A} (compare : A -> A -> Z) (l : list A) : list A :=
  foldr (insertBy compare) [] l.

(** [c.lastMessage?.timestamp ?? 0] *)
Definition lastTime (c : Conversation.t) : Z :=
  match Conversation.lastMessage c with
  | Some m => Message.timestamp m
  | None => 0%Z
  end.

(** The ['conversation_updated'] case of the controller's
    [handleWebSocketMessage], on the list of conversations. *)
Definition conversationUpdated (conversations : list Conversation.t)
    (updatedConversation : Conversation.t) : list Conversation.t :=
  let index :=
    findIndex (fun c => String.eqb (Conversation.id c) (Conversation.id updatedConversation))
              conversations in
  let conversations :=
    match index with
    | Some index => <[index := updatedConversation]> conversations
    | None => conversations ++ [updatedConversation]
    end in
  sortBy (fun a b => (lastTime b - lastTime a)%Z) conversations.

(** [addMessage] of the terminal client's store, on the map of
    messages by conversation. *)
Definition addMessage (messages : gmap string (list Message.t)) (message : Message.t)
  : gmap string (list Message.t) :=
  let existing := default [] (messages !! Message.conversationId message) in
  let existingIndex :=
    findIndex (fun m => String.eqb (Message.id m) (Message.id message)) existing in
  let existing :=
    match existingIndex with
    | Some existingIndex => <[existingIndex := message]> existing
    | None => existing ++ [message]
    end in
  <[Message.conversationId message := existing]> messages.

(* ================================================================= *)
(** ** The terminal client ([passage-tui]) *)

(** *** The layout ([views/layout.ts]) *)

Record LayoutDimensions : Type := mkLayout {
  width : Z;
  height : Z;
  statusBarRow : Z;
  statusBarWidth : Z;
  convPaneLeft : Z;
  convPaneTop : Z;
  convPaneWidth : Z;
  convPaneHeight : Z;
  msgPaneLeft : Z;
  msgPaneTop : Z;
  msgPaneWidth : Z;
  msgPaneHeight : Z;
  composerRow : Z;
  composerWidth : Z;
  helpBarRow : Z;
  helpBarWidth : Z
}.

(** [calculateLayout] for a terminal of [cols] columns and [rows]
    rows.  [Math.floor(width * 0.25)] is the quotient by 4 rounded
    down: the product of an integer by a power of two is exact. *)
Definition calculateLayout (cols rows : Z) : LayoutDimensions :=
  let width := cols in
  let height := rows in
  let contentHeight := (height - 5)%Z in
  let convWidth := Z.max 20 (Z.min 40 (width / 4)) in
  let msgWidth := (width - convWidth - 1)%Z in
  mkLayout width height
    0 width
    0 2 convWidth contentHeight
    (convWidth + 1) 2 msgWidth contentHeight
    (height - 3) width
    (height - 1) width.

(** The rows on which [renderFrame] draws a horizontal separator. *)
Definition horizontalSeparators (layout : LayoutDimensions) : list Z :=
  [1; composerRow layout - 1; helpBarRow layout - 1]%Z.

(** *** Key sequences ([core/input.ts]) *)

(** A key event.  The flags are optional in the source, which reads
    them only through [!key.ctrl] and [!key.alt]: an absent flag is
    [false] here. *)
Record KeyEvent : Type := mkKey {
  key : string;
  char : option string;
  ctrl : bool;
  alt : bool;
  shift : bool
}.

(** The length of a string in UTF-16 code units, counted on its
    UTF-8 bytes: a continuation byte adds nothing, the first byte of
    a four-byte sequence adds two. *)
Definition utf16_length (s : list nat) : nat :=
  fold_right (fun b n =>
                (if b <? 128 then 1 else if b <? 192 then 0 else if b <? 240 then 1 else 2) + n)
             0 s.

(** [parseKey].  [str] is [data.toString()] in UTF-8 bytes.  In the
    Alt branch [str] has two code units, the first of which is the
    escape: [str[1]] is the rest of the string. *)
Definition parseKey (data : list nat) : KeyEvent :=
  let str := utf8_decode data in
  let bytes := data in
  if bool_decide (str = [3]) then mkKey "ctrl+c" None true false false
  else if bool_decide (str = [4]) then mkKey "ctrl+d" None true false false
  else if bool_decide (head str = Some 27) then
    if bool_decide (str = [27; 91; 65]) then mkKey "up" None false false false
    else if bool_decide (str = [27; 91; 66]) then mkKey "down" None false false false
    else if bool_decide (str = [27; 91; 67]) then mkKey "right" None false false false
    else if bool_decide (str = [27; 91; 68]) then mkKey "left" None false false false
    else if bool_decide (str = [27; 91; 72]) || bool_decide (str = [27; 91; 49; 126])
    then mkKey "home" None false false false
    else if bool_decide (str = [27; 91; 70]) || bool_decide (str = [27; 91; 52; 126])
    then mkKey "end" None false false false
    else if bool_decide (str = [27; 91; 53; 126]) then mkKey "pageup" None false false false
    else if bool_decide (str = [27; 91; 54; 126]) then mkKey "pagedown" None false false false
    else if bool_decide (str = [27; 91; 51; 126]) then mkKey "delete" None false false false
    else if (utf16_length str =? 2) && bool_decide (head str = Some 27)
    then mkKey (string_of_bytes (tail str)) None false true false
    else if bool_decide (str = [27]) then mkKey "escape" None false false false
    else mkKey "escape" (Some (string_of_bytes str)) false false false
  else if bool_decide (str = [13]) || bool_decide (str = [10])
  then mkKey "enter" None false false false
  else if bool_decide (str = [9]) then mkKey "tab" None false false false
  else if bool_decide (str = [127]) || bool_decide (str = [8])
  then mkKey "backspace" None false false false
  else if bool_decide (str = [32]) then mkKey "space" (Some " ") false false false
  else if (length bytes =? 1) && (at0 bytes 0 <? 27)
  then mkKey ("ctrl+" +:+ String (ascii_of_nat (at0 bytes 0 + 96)) "") None true false false
  else mkKey (string_of_bytes str) (Some (string_of_bytes str)) false false false.

(** The module's variables.  Timers are numbered as [setTimeout]
    creates them; [timers] holds those that have neither fired nor
    been cleared, [gSequenceTimer] the handle the module keeps. *)
Record KeyListener : Type := mkListener {
  waitingForG : bool;
  gSequenceTimer : option nat;
  timers : list nat;
  created : nat
}.

Definition clearTimeout (timer : option nat) (timers : list nat) : list nat :=
  match timer with
  | Some t => List.filter (fun t' => negb (t' =? t)) timers
  | None => timers
  end.

(** [handleKeyWithSequences]: the new variables and the events handed
    to [handler], in order. *)
Definition handleKeyWithSequences (l : KeyListener) (k : KeyEvent)
  : KeyListener * list KeyEvent :=
  if String.eqb (key k) "g" && negb (ctrl k) && negb (alt k) then
    if waitingForG l then
      (mkListener false (gSequenceTimer l)
                  (clearTimeout (gSequenceTimer l) (timers l)) (created l),
       [mkKey "gg" None false false false])
    else
      (mkListener true (Some (created l)) (timers l ++ [created l]) (S (created l)),
       [])
  else
    if waitingForG l then
      (mkListener false (gSequenceTimer l)
                  (clearTimeout (gSequenceTimer l) (timers l)) (created l),
       [mkKey "g" (Some "g") false false false; k])
    else (l, [k]).

(** The callback of the timer, which runs if the timer is still
    pending. *)
Definition gSequenceTimeout (l : KeyListener) (t : nat) : KeyListener * list KeyEvent :=
  if bool_decide (t ∈ timers l) then
    (mkListener false (gSequenceTimer l) (clearTimeout (Some t) (timers l)) (created l),
     [mkKey "g" (Some "g") false false false])
  else (l, []).

(** What happens to the listener: the terminal sends the bytes of a
    key, or 300 ms have passed since timer [t] was created. *)
Inductive inputEvent : Type :=
  | DataReceived (data : list nat)
  | TimerFired (t : nat).

Definition listenerStep (state : KeyListener * list KeyEvent) (event : inputEvent)
  : KeyListener * list KeyEvent :=
  let (l, handled) := state in
  let (l, more) :=
    match event with
    | DataReceived data => let key := parseKey data in handleKeyWithSequences l key
    | TimerFired t => gSequenceTimeout l t
    end in
  (l, handled ++ more).

(** [startKeyListener]: the listener runs from the module's initial
    values. *)
Definition startKeyListener (events : list inputEvent) : KeyListener * list KeyEvent :=
  fold_left listenerStep events (mkListener false None [] 0, []).

(** *** The selection ([state/store.ts]) *)

(** The part of [AppState] that the selection functions use. *)
Record AppState : Type := mkState {
  conversations : list Conversation.t;
  selectedConversationId : option string;
  selectedConversationIndex : Z;
  messageScrollOffset : Z
}.

Definition setConversations (state : AppState) (conversations : list Conversation.t)
  : AppState :=
  let state :=
    mkState conversations (selectedConversationId state) (selectedConversationIndex state)
            (messageScrollOffset state) in
  match selectedConversationId state, conversations with
  | None, first :: _ =>
      mkState conversations (Some (Conversation.id first)) 0 (messageScrollOffset state)
  | Some id, first :: _ =>
      if String.eqb id "" then
        mkState conversations (Some (Conversation.id first)) 0 (messageScrollOffset state)
      else state
  | _, _ => state
  end.

Definition updateConversation (state : AppState) (conversation : Conversation.t) : AppState :=
  match findIndex (fun c => String.eqb (Conversation.id c) (Conversation.id conversation))
                  (conversations state) with
  | Some index =>
      mkState (<[index := conversation]> (conversations state))
              (selectedConversationId state) (selectedConversationIndex state)
              (messageScrollOffset state)
  | None => state
  end.

Definition selectConversation (state : AppState) (id : string) : AppState :=
  match findIndex (fun c => String.eqb (Conversation.id c) id) (conversations state) with
  | Some index => mkState (conversations state) (Some id) (Z.of_nat index) 0
  | None => state
  end.

Definition selectConversationByIndex (state : AppState) (index : Z) : AppState :=
  if (0 <=? index)%Z && (index <? Z.of_nat (length (conversations state)))%Z then
    match conversations state !! Z.to_nat index with
    | Some c => mkState (conversations state) (Some (Conversation.id c)) index 0
    | None => state
    end
  else state.

Definition moveConversationSelection (state : AppState) (delta : Z) : AppState :=
  let newIndex :=
    Z.max 0 (Z.min (Z.of_nat (length (conversations state)) - 1)
                   (selectedConversationIndex state + delta)) in
  selectConversationByIndex state newIndex.

(** *** The list of conversations ([views/conversations.ts]) *)

Definition calculateScrollOffset (selectedIndex currentOffset viewportHeight totalItems : Z)
  : Z :=
  if (selectedIndex <? currentOffset)%Z then selectedIndex
  else if (selectedIndex >=? currentOffset + viewportHeight)%Z
  then (selectedIndex - viewportHeight + 1)%Z
  else currentOffset.

(** The rows [renderConversations] hands to [renderConversationRow]:
    the row on the screen, the conversation and whether it is the
    selected one.  An index outside the list gives [undefined], on
    which [renderConversationRow] throws: the result is [None]. *)
Definition renderConversations (conversations : list Conversation.t)
    (selectedIndex scrollOffset : Z) (layout : LayoutDimensions)
  : option (list (Z * Conversation.t * bool)) :=
  let top := convPaneTop layout in
  let height := convPaneHeight layout in
  if length conversations =? 0 then Some []
  else
    let visibleCount := height in
    let startIndex := scrollOffset in
    let endIndex := Z.min (startIndex + visibleCount) (Z.of_nat (length conversations)) in
    mapM (fun i =>
            conv ← (if (i <? 0)%Z then None else conversations !! Z.to_nat i);
            Some ((top + (i - startIndex))%Z, conv, (i =? selectedIndex)%Z))
         (seqZ startIndex (endIndex - startIndex)).

(** *** Wrapping and cutting ([core/render.ts]) *)

(** Text on the screen is measured in UTF-16 code units; in this
    section a string is the list of its code units. *)
Definition wrapStep (maxWidth : Z) (state : list (list nat) * list nat) (word : list nat)
  : list (list nat) * list nat :=
  let (lines, currentLine) := state in
  if length currentLine =? 0 then (lines, word)
  else if (Z.of_nat (length currentLine) + 1 + Z.of_nat (length word) <=? maxWidth)%Z
  then (lines, currentLine ++ [32] ++ word)
  else (lines ++ [currentLine], word).

Definition wrapText (text : list nat) (maxWidth : Z) : list (list nat) :=
  if (Z.of_nat (length text) <=? maxWidth)%Z then [text]
  else
    let words := split_from 32 [] text in
    let (lines, currentLine) := fold_left (wrapStep maxWidth) words ([], []) in
    if 0 <? length currentLine then lines ++ [currentLine] else lines.

(** The ellipsis, U+2026. *)
Definition ellipsis : nat := Z.to_nat 8230.

Definition truncate (text : list nat) (maxLength : Z) : list nat :=
  if (Z.of_nat (length text) <=? maxLength)%Z then text
  else slice0 (maxLength - 1) text ++ [ellipsis].

(* ================================================================= *)
(** ** Notions the statements use *)

(** The magic header of a binary property list. *)
Definition bplistMagic : list byte := list_byte_of_string "bplist".

(** The marker the typedstream scan looks for. *)
Definition markerToken : list byte := list_byte_of_string "NSString".

Definition begins_with {A} (header buf : list A) : Prop := exists rest, buf = header ++ rest.

Definition contains {A} (token buf : list A) : Prop :=
  exists before after, buf = before ++ token ++ after.

(** A [text] field that holds something. *)
Definition text_present (m : Message.t) : Prop :=
  Message.text m <> JNull /\ Message.text m <> JUndefined.


(** Where the length field of the typedstream record starts: twelve
    bytes after the marker begins, one more when a ['+'] tag sits
    there. *)
Definition lengthFieldOffset (buf : list nat) : option nat :=
  match indexOf nsStringMarker buf with
  | None => None
  | Some markerIndex =>
      let offset := markerIndex + length nsStringMarker + 4 in
      Some (if (offset <? length buf) && at_is buf offset 43 then offset + 1 else offset)
  end.


(** The chat a conversation object was built from. *)
Definition conversation_of_chat (d : Database) (conv : Conversation.t) (c : chat) : Prop :=
  c ∈ chats d /\ Conversation.id conv = String_of_Z (chat_ROWID c).

(** Unread and not from me. *)
Definition unreadNotFromMe (m : message) : Prop :=
  is_read m = Some 0%Z /\ is_from_me m = Some 0%Z.

(** The number of unread messages of a conversation that are not from
    me: the rows of [message], each counted once for every link of
    the membership table that ties it to the chat. *)
Definition unreadIn (d : Database) (chat_rowid : Z) : nat :=
  length (m ← messages d;
          link ← chat_message_join d;
          if bool_decide (link = (chat_rowid, ROWID m) /\ unreadNotFromMe m)
          then [m] else []).

(** Every row of a conversation, reactions included. *)
Definition conversationRows (d : Database) (chat_id : sqlval) : list row :=
  selectMessages d chat_id (fun _ => true).

(** The [lastMessage] of a conversation, as the code computes it: a
    row of the chat that is not a reaction and has no row outside
    the type codes 2000..3005 after it; none when every row of the
    chat has a type code in 2000..3005. *)
Definition isLastMessageOf (h : Host) (self : MessagesDatabase) (chat_rowid : Z)
    (lastMessage : option Message.t) : Prop :=
  let rows := conversationRows (db self) (SqlInt chat_rowid) in
  match lastMessage with
  | Some m =>
      exists (i : nat) (r : row),
        r ∈ rows /\
        isReactionMessage (associated_message_type r) = false /\
        m = mapRowToMessage h self i r (String_of_Z chat_rowid) /\
        forall r' : row, r' ∈ rows -> lastMessageFilter r' = true -> desc_by row_date r r'
  | None => forall r' : row, r' ∈ rows -> lastMessageFilter r' = false
  end.

(** A row that is not a reaction; the test that fills [messageRows]. *)
Definition nonReaction (r : row) : bool :=
  negb (isReactionMessage (associated_message_type r)).

(** [message] apart from its reactions. *)
Definition without_reactions (m : Message.t) : Message.t := Message.set_reactions m [].

(** An add-reaction code. *)
Definition isAddCode (ty : Z) : bool := (2000 <=? ty)%Z && (ty <=? 2005)%Z.

(** The row has an association id, and the id names [g] once its
    prefix is stripped. *)
Definition targets (r : row) (g : string) : bool :=
  match associated_message_guid r with
  | Some assoc => negb (String.eqb assoc "") && String.eqb (parentGuidOf assoc) g
  | None => false
  end.

(** The reaction that row [r] puts on the message with guid [g]: one
    when [r] is an add-reaction row that targets [g], none otherwise. *)
Definition attachedReaction (self : MessagesDatabase) (g : string) (r : row)
  : option Reaction.t :=
  match associated_message_type r with
  | Some ty =>
      if isAddCode ty && targets r g
      then (fun reactionType => reactionOf self reactionType r) <$> getReactionType ty
      else None
  | None => None
  end.

(** The reactions that the rows [rows] put on the message with guid
    column [guid], in the order of the rows. *)
Definition reactionsOn (self : MessagesDatabase) (rows : list row) (guid : option string)
  : list Reaction.t :=
  match guid with
  | Some g => omap (attachedReaction self g) rows
  | None => []
  end.

(** An identifier that [(.+)] takes whole: not empty, no line
    terminator. *)
Definition plain (g : string) : Prop :=
  bytes_of_string g <> [] /\ dot_run (bytes_of_string g) = bytes_of_string g.

(** What one turn of the loop adds under the key [g]. *)
Definition addedUnder (self : MessagesDatabase) (g : string) (r : row) : option Reaction.t :=
  match associated_message_guid r, associated_message_type r with
  | Some assoc, Some ty =>
      if String.eqb assoc "" || isRemoveReaction ty then None
      else match getReactionType ty with
           | Some reactionType =>
               if String.eqb (parentGuidOf assoc) g
               then Some (reactionOf self reactionType r) else None
           | None => None
           end
  | _, _ => None
  end.

(** *** Notions of the further properties *)

(** The contact name [formatHandleIdentifier] finds for an identifier,
    if the resolver knows one. *)
Definition contactNameOf (self : MessagesDatabase) (identifier : string) : option string :=
  match contactsResolver self with
  | Some r => resolve r identifier
  | None => None
  end.

(** The conversations the two readers hand out. *)
Definition listed (h : Host) (self : MessagesDatabase) (conv : Conversation.t) : Prop :=
  conv ∈ getConversations h self \/
  exists conversationId, getConversation h self conversationId = Some conv.

(** The number a string of decimal digits stands for, read after the
    digits that gave [acc]. *)
Fixpoint uint_value (acc : Z) (d : Decimal.uint) : Z :=
  match d with
  | Decimal.Nil => acc
  | Decimal.D0 l => uint_value (10 * acc + 0) l
  | Decimal.D1 l => uint_value (10 * acc + 1) l
  | Decimal.D2 l => uint_value (10 * acc + 2) l
  | Decimal.D3 l => uint_value (10 * acc + 3) l
  | Decimal.D4 l => uint_value (10 * acc + 4) l
  | Decimal.D5 l => uint_value (10 * acc + 5) l
  | Decimal.D6 l => uint_value (10 * acc + 6) l
  | Decimal.D7 l => uint_value (10 * acc + 7) l
  | Decimal.D8 l => uint_value (10 * acc + 8) l
  | Decimal.D9 l => uint_value (10 * acc + 9) l
  end.

(** [m] with another [timestamp]. *)
Definition stamped (m : Message.t) (t : Z) : Message.t :=
  Message.mk (Message.id m) (Message.conversationId m) (Message.text m) (Message.senderId m)
    (Message.senderName m) t (Message.isFromMe m) (Message.isRead m) (Message.isSent m)
    (Message.isDelivered m) (Message.attachments m) (Message.reactions m)
    (Message.associatedMessageGuid m) (Message.associatedMessageType m)
    (Message.expressiveSendStyleId m).

(** The length fields the typedstream scan reads: one byte below 128,
    or 0x81 and one byte, or 0x82 and two bytes, high byte first. *)
Inductive encodes_length : list nat -> nat -> Prop :=
  | length_short (n : nat) : n < 128 -> encodes_length [n] n
  | length_one_extra (n : nat) : n < 256 -> encodes_length [129; n] n
  | length_two_extra (hi lo : nat) :
      hi < 256 -> lo < 256 -> encodes_length [130; hi; lo] (hi * 256 + lo).

(** Text that the cleaning leaves as it is: printable ASCII that
    neither starts nor ends with a space. *)
Definition printable (s : string) : Prop :=
  Forall (fun c => 32 <= c <= 126) (bytes_of_string s) /\
  (exists c rest, bytes_of_string s = c :: rest /\ c <> 32) /\
  (exists c front, bytes_of_string s = front ++ [c] /\ c <> 32).

(** The phone entry a line of the AppleScript output stands for: the
    key it is filed under and the contact's name. *)
Definition phoneEntry (line : string) : option (string * string) :=
  match split_on 124 line with
  | [name; type; value] =>
      let key := last10 (strip_non_digits value) in
      if negb (String.eqb name "") && negb (String.eqb value "")
         && String.eqb type "phone" && (7 <=? String.length key)
      then Some (key, name) else None
  | _ => None
  end.

(** A string of decimal digits. *)
Definition all_digits (s : string) : Prop :=
  Forall (fun c => is_digit c = true) (bytes_of_string s).

(** An integer that a JavaScript number holds exactly: the ROWIDs
    are read into numbers, and the embedding keeps them as they are
    in the database. *)
Definition safe_integer (z : Z) : Prop := (Z.abs z < 2 ^ 53)%Z.

Definition safe_rowids (d : Database) : Prop :=
  Forall (fun c => safe_integer (chat_ROWID c)) (chats d).


(** What the change handler looks at in a conversation: its id and
    the id of its last message. *)
Definition lastMessageKey (conversation : Conversation.t) : string * option string :=
  (Conversation.id conversation, Message.id <$> Conversation.lastMessage conversation).

(** The map holds the last message of every conversation of the list. *)
Definition up_to_date (lastSeenMessageIds : gmap string string)
    (conversations : list Conversation.t) : Prop :=
  forall conversation m,
    conversation ∈ conversations -> Conversation.lastMessage conversation = Some m ->
    lastSeenMessageIds !! Conversation.id conversation = Some (Message.id m).


(** The database after Messages.app has stored the row [m] in the
    chat [chat_rowid]. *)
Definition withRow (self : MessagesDatabase) (chat_rowid : Z) (m : message)
  : MessagesDatabase :=
  let d := db self in
  mkMessagesDatabase
    (mkDatabase (chats d) (messages d ++ [m]) (handles d) (attachments_tbl d)
                (chat_message_join d ++ [(chat_rowid, ROWID m)]) (chat_handle_join d)
                (message_attachment_join d))
    (contactsResolver self).

(** The map holds the last message of every chat of the database. *)
Definition knows_every_chat (lastSeenMessageIds : gmap string string) (h : Host)
    (self : MessagesDatabase) : Prop :=
  forall c m,
    c ∈ chats (db self) ->
    getLastMessageForChat h self 0 (chat_ROWID c) = Some m ->
    lastSeenMessageIds !! String_of_Z (chat_ROWID c) = Some (Message.id m).

(** The text an AppleScript string literal stands for, read from
    after its opening quote to the end of the given characters: a
    backslash takes the backslash or quote that follows it; a bare
    quote would end the literal there, and no other escape is
    written by [escapeForAppleScript]. *)
Fixpoint literalText (s : list nat) : option (list nat) :=
  match s with
  | [] => Some []
  | 92 :: c :: rest =>
      if (c =? 92) || (c =? 34) then cons c <$> literalText rest else None
  | 92 :: [] => None
  | c :: rest => if c =? 34 then None else cons c <$> literalText rest
  end.

(** How the shell reads a word made of quoted parts. *)
Inductive quoting : Type := Unquoted | SingleQuoted | DoubleQuoted.

(** The argument a POSIX shell makes of a word that consists of
    single-quoted and double-quoted parts only; [None] for a quote
    left open and for what lies outside such words. *)
Fixpoint shellWord (q : quoting) (s : list nat) : option (list nat) :=
  match s with
  | [] => match q with Unquoted => Some [] | _ => None end
  | c :: rest =>
      match q with
      | Unquoted =>
          if c =? 39 then shellWord SingleQuoted rest
          else if c =? 34 then shellWord DoubleQuoted rest
          else None
      | SingleQuoted =>
          if c =? 39 then shellWord Unquoted rest
          else cons c <$> shellWord SingleQuoted rest
      | DoubleQuoted =>
          if c =? 34 then shellWord Unquoted rest
          else if (c =? 92) || (c =? 36) || (c =? 96) then None
          else cons c <$> shellWord DoubleQuoted rest
      end
  end.

(** The reactions of one kind, in the order given. *)
Definition ofType (type : ReactionType) (reactions : list Reaction.t) : list Reaction.t :=
  List.filter (fun r => bool_decide (Reaction.type r = type)) reactions.

(** The entry of a kind in the map; the keys of a [Map] are distinct. *)
Fixpoint entryOf (type : ReactionType) (groups : list (ReactionType * (nat * list string)))
  : option (nat * list string) :=
  match groups with
  | [] => None
  | (type', entry) :: rest => if decide (type' = type) then Some entry else entryOf type rest
  end.

(** Newest first, by the time of the last message. *)
Definition newestFirst (a b : Conversation.t) : Prop := (lastTime b <= lastTime a)%Z.

(** The first element that satisfies [p] replaced by [u], or [u]
    put at the end when there is none. *)
Fixpoint put {A} (p : A -> bool) (u : A) (l : list A) : list A :=
  match l with
  | [] => [u]
  | y :: rest => if p y then u :: rest else y :: put p u rest
  end.

(** *** Notions of the terminal client *)

(** The last row of the two panes. *)
Definition lastPaneRow (layout : LayoutDimensions) : Z :=
  (convPaneTop layout + convPaneHeight layout - 1)%Z.

(** The events [handleKeyWithSequences] makes up. *)
Definition gKey : KeyEvent := mkKey "g" (Some "g"%string) false false false.
Definition ggKey : KeyEvent := mkKey "gg" None false false false.

#[global] Instance KeyEvent_eq_dec : EqDecision KeyEvent.
Proof. solve_decision. Defined.

(** A ['g'] pressed without Ctrl or Alt. *)
Definition plainG (k : KeyEvent) : bool :=
  String.eqb (key k) "g" && negb (ctrl k) && negb (alt k).

(** The key presses a handled event stands for. *)
Definition presses (k : KeyEvent) : list KeyEvent :=
  if bool_decide (k = ggKey) then [gKey; gKey] else [k].

(** The keys of a run, in order. *)
Definition pressed (events : list inputEvent) : list KeyEvent :=
  omap (fun e => match e with
                 | DataReceived data => Some (parseKey data)
                 | TimerFired _ => None
                 end) events.

(** What sets a key of the keyboard apart: a plain ['g'] is [gKey],
    and no key is the made-up ['gg']. *)
Definition fromKeyboard (k : KeyEvent) : Prop :=
  (plainG k = true -> k = gKey) /\ k <> ggKey.

(** The ['g'] that is still held back. *)
Definition heldBack (l : KeyListener) : list KeyEvent :=
  if waitingForG l then [gKey] else [].

(** While a ['g'] is held back exactly one timer is pending, the one
    the module keeps; otherwise none is. *)
Definition timerMatches (l : KeyListener) : Prop :=
  if waitingForG l then
    exists t, gSequenceTimer l = Some t /\ timers l = [t]
  else timers l = [].

(** The selected id is the id of the conversation at the selected
    index. *)
Definition selectionAgrees (state : AppState) : Prop :=
  forall id, selectedConversationId state = Some id ->
    (0 <= selectedConversationIndex state)%Z /\
    exists c, conversations state !! Z.to_nat (selectedConversationIndex state) = Some c /\
              Conversation.id c = id.

(** The words of a text: what lies between its spaces, without the
    empty pieces. *)
Definition wordsOf (text : list nat) : list (list nat) :=
  List.filter (fun w => negb (length w =? 0)) (split_from 32 [] text).

(* ================================================================= *)
(** ** Sample data *)

Module Sample.

(** A host whose archive reader rejects every buffer and whose clock
    stands at 2024-01-01T00:00:00Z. *)
Definition host : Host := mkHost (fun _ => None) (fun _ => 1704067200000%Z).

(** An incoming text message. *)
Definition incoming (rowid : Z) (g body : string) (t : Z) : message :=
  mkMessage rowid (Some g) (Some body) None (Some 1%Z) (Some "iMessage"%string)
            (Some t) None None (Some 0%Z) (Some 0%Z) (Some 0%Z) (Some 1%Z) (Some 0%Z)
            None (Some 0%Z) None.

(** A tapback of kind [ty] on the message [target]. *)
Definition tapback (rowid : Z) (g target : string) (ty t : Z) : message :=
  mkMessage rowid (Some g) None None (Some 1%Z) (Some "iMessage"%string)
            (Some t) None None (Some 0%Z) (Some 0%Z) (Some 0%Z) (Some 1%Z) (Some 0%Z)
            (Some target) (Some ty) None.

Definition alice : handle := mkHandle 1 "+15551234567" (Some "iMessage"%string).

(** One chat (ROWID 1) that holds the given messages. *)
Definition chat_with (ms : list message) : MessagesDatabase :=
  mkMessagesDatabase
    (mkDatabase [mkChat 1 (Some "+15551234567"%string) None None] ms [alice] []
                (map (fun m => (1%Z, ROWID m)) ms) [(1%Z, 1%Z)] [])
    None.

(** Text in a typedstream record: the marker, the four header bytes,
    the ['+'] tag, a one-byte length and the text. *)
Definition typedstream (body : string) : list byte :=
  list_byte_of_string "NSString" ++ [x01; x94; x84; x01; x2b] ++
  match Byte.of_nat (String.length body) with
  | Some n => [n]
  | None => []
  end ++ list_byte_of_string body.


(** A message sent on 2023-03-08, one nanosecond before the Unix
    millisecond 1678307200001. *)
Definition late : row :=
  mkRow (incoming 7 "L" "almost" 700000000000999999) (Some "+15551234567"%string).

(** Dates (nanoseconds since 2001) on which the model of binary64 is
    compared with the hardware. *)
Definition dates : list Z :=
  [1; 999999; 1000000; -5; 700000000000000000; 700000000000999000;
   700000000000999999; 731234567890123456; 9223372036854775807;
   -9223372036854775808]%Z.

(** Message A, and B, a love reaction to A. *)
Definition A : message := incoming 1 "A" "hello" 10000000.
Definition B : message := tapback 2 "B" "p:0/A" 2000 30000000.
Definition folding : MessagesDatabase := chat_with [A; B].

(** Two chats: chat 1 holds A and the later tapback B, chat 2 holds C,
    sent between the two. *)
Definition C : message := incoming 3 "C" "hi" 20000000.
Definition two_chats : MessagesDatabase :=
  mkMessagesDatabase
    (mkDatabase [mkChat 1 None None None; mkChat 2 None None None] [A; B; C] [alice] []
                [(1%Z, 1%Z); (1%Z, 2%Z); (2%Z, 3%Z)] [(1%Z, 1%Z); (2%Z, 1%Z)] [])
    None.

(** Chat 1 with A and, after it, six tapback rows: Alice sets and
    takes back a love, a like and a laugh. *)
Definition crowded : MessagesDatabase :=
  chat_with [A;
             tapback 2 "T1" "p:0/A" 2000 30000000; tapback 3 "T2" "p:0/A" 3000 31000000;
             tapback 4 "T3" "p:0/A" 2001 32000000; tapback 5 "T4" "p:0/A" 3001 33000000;
             tapback 6 "T5" "p:0/A" 2003 34000000; tapback 7 "T6" "p:0/A" 3003 35000000].

(** Chat 1 with A and a message whose date is zero. *)
Definition undated : MessagesDatabase :=
  chat_with [A; incoming 2 "D" "draft" 0].

(** Chat 1 with A and, after it, a row of type 2006 (a tapback with
    a custom emoji), which the classifier does not count as a
    reaction. *)
Definition emoji : MessagesDatabase :=
  chat_with [A; tapback 2 "E" "p:0/A" 2006 30000000].

End Sample.

(** Further cases, for the properties of the later sections. *)
Module Cases.

(** What the Contacts script prints for two people: Alice with a
    phone number and an address, Bob with a short code. *)
Definition contactsOutput : string :=
  "Alice|phone|+1 (555) 123-4567" +:+ String (ascii_of_nat 10) "" +:+
  "Alice|email|Alice@Example.com" +:+ String (ascii_of_nat 10) "" +:+
  "Bob|phone|12345" +:+ String (ascii_of_nat 10) "".

(** A like that Alice puts on A after the server has started. *)
Definition laterTapback : message := Sample.tapback 3 "T" "p:0/A" 2001 40000000.

(** The conversations of [Sample.folding] and of [Sample.two_chats],
    as the server reads them. *)
Definition oneConversation : list Conversation.t :=
  getConversations Sample.host Sample.folding.

Definition twoConversations : list Conversation.t :=
  getConversations Sample.host Sample.two_chats.

(** The text [hi there you] and the word [there], in code units. *)
Definition hiThereYou : list nat := [104; 105; 32; 116; 104; 101; 114; 101; 32; 121; 111; 117].
Definition there : list nat := [116; 104; 101; 114; 101].

End Cases.

(* ================================================================= *)
(** * Properties *)

(* ================================================================= *)
(** ** Rounding to binary64 *)

Module DoubleFacts.
Import Double.
Local Open Scope Q_scope.

Lemma pow2_pos e : 0 < pow2 e.
Proof. unfold pow2. apply Qpower_0_lt. reflexivity. Qed.

Lemma pow2_add a b : pow2 (a + b) == pow2 a * pow2 b.
Proof. unfold pow2. apply Qpower_plus. discriminate. Qed.

Lemma pow2_Z n : (0 <= n)%Z -> pow2 n == inject_Z (2 ^ n).
Proof. intros H. unfold pow2. symmetry. apply (Zpower_Qpower 2 n H). Qed.

Lemma pow2_le a b : (a <= b)%Z -> pow2 a <= pow2 b.
Proof. intros H. unfold pow2. apply Qpower_le_compat_l; [exact H | discriminate]. Qed.

Lemma rne_le q k : q <= inject_Z k -> (rne q <= k)%Z.
Proof.
  intros H. unfold rne.
  pose proof (Qfloor_le q) as Hf.
  assert (Hfk : (Qfloor q <= k)%Z).
  { rewrite <- (Qfloor_Z k). now apply Qfloor_resp_le. }
  assert (Hlt : (1 # 2) <= q - inject_Z (Qfloor q) -> (Qfloor q < k)%Z).
  { intros E. destruct (Z.eq_dec (Qfloor q) k) as [Heq|Hne]; [exfalso | lia].
    rewrite Heq in E. lra. }
  destruct (Qcompare_spec (q - inject_Z (Qfloor q)) (1 # 2)) as [E|E|E].
  - destruct (Z.even (Qfloor q)); [exact Hfk|].
    assert ((Qfloor q < k)%Z) by (apply Hlt; lra). lia.
  - exact Hfk.
  - assert ((Qfloor q < k)%Z) by (apply Hlt; lra). lia.
Qed.

Lemma rne_ge q k : inject_Z k <= q -> (k <= rne q)%Z.
Proof.
  intros H. unfold rne.
  assert (Hfk : (k <= Qfloor q)%Z).
  { rewrite <- (Qfloor_Z k). now apply Qfloor_resp_le. }
  destruct (Qcompare (q - inject_Z (Qfloor q)) (1 # 2)); [destruct (Z.even _)| |]; lia.
Qed.

Lemma Q_num_den a : a * inject_Z (Zpos (Qden a)) == inject_Z (Qnum a).
Proof.
  destruct a as [p q]. unfold Qeq, Qmult, inject_Z. simpl.
  rewrite Pos.mul_1_r. ring.
Qed.

Lemma binade_bounds a :
  0 < a -> pow2 52 * pow2 (binade a) <= a /\ a < pow2 53 * pow2 (binade a).
Proof.
  intros Ha.
  assert (Hp : (0 < Qnum a)%Z).
  { destruct a as [p q]. unfold Qlt in Ha. simpl in Ha. rewrite Z.mul_1_r in Ha. exact Ha. }
  pose proof (Z.log2_spec (Qnum a) Hp) as [Hp1 Hp2].
  pose proof (Z.log2_spec (Zpos (Qden a)) (Pos2Z.is_pos _)) as [Hq1 Hq2].
  pose proof (Z.log2_nonneg (Qnum a)) as Hlp.
  pose proof (Z.log2_nonneg (Zpos (Qden a))) as Hlq.
  pose proof (Q_num_den a) as Hnd.
  set (lp := Z.log2 (Qnum a)) in *. set (lq := Z.log2 (Zpos (Qden a))) in *.
  set (p := Qnum a) in *. set (q := Zpos (Qden a)) in *.
  assert (Hq0 : 0 < inject_Z q) by (unfold q; reflexivity).
  (* 2^(lp - lq - 1) < a < 2^(lp - lq + 1) *)
  assert (Hlow : pow2 (lp - lq - 1) < a).
  { apply (Qmult_lt_r _ _ (pow2 (lq + 1))); [apply pow2_pos|].
    rewrite <- pow2_add. replace (lp - lq - 1 + (lq + 1))%Z with lp by lia.
    rewrite !pow2_Z by lia.
    apply Qle_lt_trans with (inject_Z p); [rewrite <- Zle_Qle; exact Hp1|].
    rewrite <- Hnd. apply Qmult_lt_l; [exact Ha|]. rewrite <- Zlt_Qlt.
    replace (lq + 1)%Z with (Z.succ lq) by lia. exact Hq2. }
  assert (Hupp : a < pow2 (lp - lq + 1)).
  { apply (Qmult_lt_r _ _ (pow2 lq)); [apply pow2_pos|].
    rewrite <- pow2_add. replace (lp - lq + 1 + lq)%Z with (Z.succ lp) by lia.
    rewrite !pow2_Z by lia.
    apply Qle_lt_trans with (inject_Z p); [|rewrite <- Zlt_Qlt; exact Hp2].
    rewrite <- Hnd. apply Qmult_le_l; [exact Ha|]. rewrite <- Zle_Qle. exact Hq1. }
  unfold binade. fold p q lp lq.
  destruct (Qle_bool (pow2 (lp - lq)) a) eqn:Hc.
  - apply Qle_bool_iff in Hc. split.
    + rewrite <- pow2_add. replace (52 + (lp - lq - 52))%Z with (lp - lq)%Z by lia. exact Hc.
    + rewrite <- pow2_add. replace (53 + (lp - lq - 52))%Z with (lp - lq + 1)%Z by lia.
      exact Hupp.
  - assert (Hc' : a < pow2 (lp - lq)).
    { apply Qnot_le_lt. intros H. apply Qle_bool_iff in H. congruence. }
    split.
    + rewrite <- pow2_add. replace (52 + (lp - lq - 53))%Z with (lp - lq - 1)%Z by lia.
      apply Qlt_le_weak. exact Hlow.
    + rewrite <- pow2_add. replace (53 + (lp - lq - 53))%Z with (lp - lq)%Z by lia. exact Hc'.
Qed.

Lemma round_pos_le a k j :
  0 < a -> (Z.abs k < 2 ^ 53)%Z -> a <= inject_Z k * pow2 j ->
  round_pos a <= inject_Z k * pow2 j.
Proof.
  intros Ha Hk Hle. unfold round_pos.
  destruct (binade_bounds a Ha) as [Hlo _].
  set (e := binade a) in *.
  pose proof (pow2_pos e) as He. pose proof (pow2_pos j) as Hj.
  destruct (Z_le_gt_dec e j) as [Hej|Hej].
  - assert (Hc : inject_Z k * pow2 j == inject_Z (k * 2 ^ (j - e)) * pow2 e).
    { rewrite inject_Z_mult, <- pow2_Z by lia. rewrite <- Qmult_assoc, <- pow2_add.
      now replace (j - e + e)%Z with j by lia. }
    rewrite Hc in *. apply Qmult_le_r; [exact He|]. rewrite <- Zle_Qle.
    apply rne_le. apply Qle_shift_div_r; [exact He | exact Hle].
  - exfalso.
    assert (H1 : pow2 53 * pow2 j <= pow2 52 * pow2 e).
    { rewrite <- !pow2_add. apply pow2_le. lia. }
    assert (H2 : inject_Z k * pow2 j < pow2 53 * pow2 j).
    { apply Qmult_lt_r; [exact Hj|]. rewrite pow2_Z by lia. rewrite <- Zlt_Qlt. lia. }
    lra.
Qed.

Lemma round_pos_ge a k j :
  0 < a -> (Z.abs k < 2 ^ 53)%Z -> inject_Z k * pow2 j <= a ->
  inject_Z k * pow2 j <= round_pos a.
Proof.
  intros Ha Hk Hle. unfold round_pos.
  destruct (binade_bounds a Ha) as [Hlo _].
  set (e := binade a) in *.
  pose proof (pow2_pos e) as He. pose proof (pow2_pos j) as Hj.
  destruct (Z_le_gt_dec e j) as [Hej|Hej].
  - assert (Hc : inject_Z k * pow2 j == inject_Z (k * 2 ^ (j - e)) * pow2 e).
    { rewrite inject_Z_mult, <- pow2_Z by lia. rewrite <- Qmult_assoc, <- pow2_add.
      now replace (j - e + e)%Z with j by lia. }
    rewrite Hc in *. apply Qmult_le_r; [exact He|]. rewrite <- Zle_Qle.
    apply rne_ge. apply Qle_shift_div_l; [exact He | exact Hle].
  - assert (H1 : pow2 53 * pow2 j <= pow2 52 * pow2 e).
    { rewrite <- !pow2_add. apply pow2_le. lia. }
    assert (H2 : inject_Z k * pow2 j < pow2 53 * pow2 j).
    { apply Qmult_lt_r; [exact Hj|]. rewrite pow2_Z by lia. rewrite <- Zlt_Qlt. lia. }
    assert (H3 : pow2 52 * pow2 e <= inject_Z (rne (a / pow2 e)) * pow2 e).
    { apply Qmult_le_r; [exact He|]. rewrite pow2_Z by lia. rewrite <- Zle_Qle.
      apply rne_ge. rewrite <- pow2_Z by lia.
      apply Qle_shift_div_l; [exact He | exact Hlo]. }
    lra.
Qed.

(** A double is a number [k * 2^j] with [|k| < 2^53]; rounding never
    crosses one. *)
Lemma to_double_le x k j :
  (Z.abs k < 2 ^ 53)%Z -> x <= inject_Z k * pow2 j -> to_double x <= inject_Z k * pow2 j.
Proof.
  intros Hk Hle. unfold to_double.
  destruct (Qcompare_spec x 0) as [E|E|E].
  - rewrite <- E. exact Hle.
  - assert (H : inject_Z (- k) * pow2 j <= round_pos (- x)).
    { apply round_pos_ge; [lra | lia |]. rewrite inject_Z_opp. lra. }
    rewrite inject_Z_opp in H. lra.
  - apply round_pos_le; assumption.
Qed.

Lemma to_double_ge x k j :
  (Z.abs k < 2 ^ 53)%Z -> inject_Z k * pow2 j <= x -> inject_Z k * pow2 j <= to_double x.
Proof.
  intros Hk Hle. unfold to_double.
  destruct (Qcompare_spec x 0) as [E|E|E].
  - rewrite <- E. exact Hle.
  - assert (H : round_pos (- x) <= inject_Z (- k) * pow2 j).
    { apply round_pos_le; [lra | lia |]. rewrite inject_Z_opp. lra. }
    rewrite inject_Z_opp in H. lra.
  - apply round_pos_ge; assumption.
Qed.

(** Rounding keeps the order. *)
Lemma rne_mono q1 q2 : q1 <= q2 -> (rne q1 <= rne q2)%Z.
Proof.
  intros H. pose proof (Qfloor_resp_le _ _ H) as Hf.
  assert (H1 : (Qfloor q1 <= rne q1 <= Qfloor q1 + 1)%Z).
  { unfold rne. destruct (Qcompare _ _); [destruct (Z.even _)| |]; lia. }
  assert (H2 : (Qfloor q2 <= rne q2 <= Qfloor q2 + 1)%Z).
  { unfold rne. destruct (Qcompare _ _); [destruct (Z.even _)| |]; lia. }
  destruct (Z.eq_dec (Qfloor q1) (Qfloor q2)) as [E|E]; [|lia].
  unfold rne. rewrite <- E.
  destruct (Qcompare_spec (q1 - inject_Z (Qfloor q1)) (1 # 2)) as [E1|E1|E1];
    destruct (Qcompare_spec (q2 - inject_Z (Qfloor q1)) (1 # 2)) as [E2|E2|E2];
    try destruct (Z.even (Qfloor q1)); try lia; exfalso; lra.
Qed.

Lemma binade_mono a b : 0 < a -> a <= b -> (binade a <= binade b)%Z.
Proof.
  intros Ha Hab.
  destruct (binade_bounds a Ha) as [Hlo _].
  destruct (binade_bounds b ltac:(lra)) as [_ Hhi].
  destruct (Z_le_gt_dec (binade a) (binade b)) as [H|H]; [exact H | exfalso].
  assert (Hp : pow2 53 * pow2 (binade b) <= pow2 52 * pow2 (binade a)).
  { rewrite <- !pow2_add. apply pow2_le. lia. }
  lra.
Qed.

Lemma round_pos_mono a b : 0 < a -> a <= b -> round_pos a <= round_pos b.
Proof.
  intros Ha Hab. assert (Hb : 0 < b) by lra.
  pose proof (binade_mono a b Ha Hab) as He.
  destruct (binade_bounds a Ha) as [Hlo1 Hhi1].
  destruct (binade_bounds b Hb) as [Hlo2 Hhi2].
  unfold round_pos. set (e1 := binade a) in *. set (e2 := binade b) in *.
  pose proof (pow2_pos e1) as Hp1. pose proof (pow2_pos e2) as Hp2.
  destruct (Z.eq_dec e1 e2) as [E|E].
  - rewrite <- E. apply Qmult_le_r; [exact Hp1|]. rewrite <- Zle_Qle. apply rne_mono.
    apply Qle_shift_div_l; [exact Hp1|].
    rewrite <- E in *. unfold Qdiv. rewrite <- Qmult_assoc, (Qmult_comm (/ _)).
    rewrite Qmult_inv_r by lra. lra.
  - apply Qle_trans with (pow2 53 * pow2 e1).
    + apply Qmult_le_r; [exact Hp1|]. rewrite (pow2_Z 53) by lia. rewrite <- Zle_Qle.
      apply rne_le. rewrite <- (pow2_Z 53) by lia.
      apply Qle_shift_div_r; [exact Hp1 | lra].
    + apply Qle_trans with (pow2 52 * pow2 e2).
      * rewrite <- !pow2_add. apply pow2_le. lia.
      * apply Qmult_le_r; [exact Hp2|]. rewrite (pow2_Z 52) by lia. rewrite <- Zle_Qle.
        apply rne_ge. rewrite <- (pow2_Z 52) by lia.
        apply Qle_shift_div_l; [exact Hp2 | exact Hlo2].
Qed.

Lemma round_pos_nonneg a : 0 < a -> 0 <= round_pos a.
Proof.
  intros Ha. destruct (binade_bounds a Ha) as [Hlo _].
  unfold round_pos. set (e := binade a) in *. pose proof (pow2_pos e) as He.
  apply Qmult_le_0_compat; [|lra].
  change 0 with (inject_Z 0). rewrite <- Zle_Qle.
  apply Z.le_trans with (2 ^ 52)%Z; [lia|].
  apply rne_ge. rewrite <- (pow2_Z 52) by lia.
  apply Qle_shift_div_l; [exact He | exact Hlo].
Qed.

Lemma to_double_mono x y : x <= y -> to_double x <= to_double y.
Proof.
  intros H. unfold to_double.
  destruct (Qcompare_spec x 0) as [Ex|Ex|Ex]; destruct (Qcompare_spec y 0) as [Ey|Ey|Ey];
    try lra.
  - apply round_pos_nonneg. exact Ey.
  - pose proof (round_pos_nonneg (- x) ltac:(lra)). lra.
  - pose proof (round_pos_mono (- y) (- x) ltac:(lra) ltac:(lra)). lra.
  - pose proof (round_pos_nonneg (- x) ltac:(lra)).
    pose proof (round_pos_nonneg y Ey). lra.
  - now apply round_pos_mono.
Qed.

Lemma int_fence (n : Z) : inject_Z n == inject_Z n * pow2 0.
Proof. change (pow2 0) with 1. ring. Qed.

Lemma of_int64_exact t : (Z.abs t < 2 ^ 53)%Z -> of_int64 t == inject_Z t.
Proof.
  intros H. unfold of_int64. apply Qle_antisym.
  - rewrite (int_fence t) at 2. apply to_double_le; [exact H|]. rewrite <- int_fence. lra.
  - rewrite (int_fence t) at 1. apply to_double_ge; [exact H|]. rewrite <- int_fence. lra.
Qed.

Lemma of_int64_near t :
  (- 2 ^ 63 <= t < 2 ^ 63)%Z ->
  inject_Z t - 2048 <= of_int64 t /\ of_int64 t <= inject_Z t + 2048.
Proof.
  intros H. unfold of_int64.
  pose proof (Z.div_mod t 2048 ltac:(lia)) as Hdm.
  pose proof (Z.mod_pos_bound t 2048 ltac:(lia)) as Hm.
  assert (Hq : (- 2 ^ 52 <= t / 2048 < 2 ^ 52)%Z).
  { split; [apply Z.div_le_lower_bound | apply Z.div_lt_upper_bound]; lia. }
  assert (H11 : pow2 11 == 2048) by reflexivity.
  split.
  - apply Qle_trans with (inject_Z (t / 2048) * pow2 11).
    + rewrite H11. change 2048 with (inject_Z 2048). unfold Qminus.
      rewrite <- inject_Z_opp, <- inject_Z_mult, <- inject_Z_plus, <- Zle_Qle. lia.
    + apply to_double_ge; [lia|]. rewrite H11. change 2048 with (inject_Z 2048).
      rewrite <- inject_Z_mult, <- Zle_Qle. lia.
  - apply Qle_trans with (inject_Z (t / 2048 + 1) * pow2 11).
    + apply to_double_le; [lia|]. rewrite H11. change 2048 with (inject_Z 2048).
      rewrite <- inject_Z_mult, <- Zle_Qle. lia.
    + rewrite H11. change 2048 with (inject_Z 2048).
      rewrite <- inject_Z_mult, <- inject_Z_plus, <- Zle_Qle. lia.
Qed.

Ltac qlit :=
  change (inject_Z 2) with 2; try change (inject_Z (-1)) with (-1);
  try change (inject_Z 3) with 3.

Lemma half_pow2 (a : Z) : inject_Z a * (1 # 2) == inject_Z a * pow2 (-1).
Proof. reflexivity. Qed.

Lemma Qfloor_half (a : Z) : Qfloor (inject_Z a * (1 # 2)) = (a / 2)%Z.
Proof. rewrite Zdiv_Qdiv. reflexivity. Qed.

(** Half-integers of this size are doubles, and so are their sums
    with the epoch offset: they fence the quotient, the sum and the
    floor. *)
Lemma convertedDate_fenced (t a b : Z) :
  (Z.abs a < 2 ^ 52)%Z -> (Z.abs b < 2 ^ 52)%Z ->
  inject_Z a * 500000 <= of_int64 t -> of_int64 t <= inject_Z b * 500000 ->
  ((2 * appleEpoch + a) / 2 <= Double.floor (convertedDate t) <= (2 * appleEpoch + b) / 2)%Z.
Proof.
  intros Ha Hb Hlo Hhi.
  unfold convertedDate, Double.floor, Double.add, Double.div, appleEpoch.
  set (y := of_int64 t) in *. clearbody y.
  set (x1 := to_double (y / 1000000)).
  assert (Hx1 : inject_Z a * (1 # 2) <= x1 /\ x1 <= inject_Z b * (1 # 2)).
  { split; rewrite half_pow2.
    - apply to_double_ge; [lia|]. rewrite <- half_pow2.
      apply Qle_shift_div_l; [reflexivity | lra].
    - apply to_double_le; [lia|]. rewrite <- half_pow2.
      apply Qle_shift_div_r; [reflexivity | lra]. }
  destruct Hx1 as [Hx1 Hx2]. clearbody x1.
  rewrite <- !Qfloor_half. split; apply Qfloor_resp_le; rewrite half_pow2.
  - apply to_double_ge; [lia|]. rewrite <- half_pow2, inject_Z_plus, inject_Z_mult.
    qlit. lra.
  - apply to_double_le; [lia|]. rewrite <- half_pow2, inject_Z_plus, inject_Z_mult.
    qlit. lra.
Qed.

(** [t] as whole milliseconds and a rest. *)
Lemma split_ms (t : Z) :
  inject_Z t == 1000000 * inject_Z (t / 1000000) + inject_Z (t mod 1000000) /\
  0 <= inject_Z (t mod 1000000) /\ inject_Z (t mod 1000000) <= 999999.
Proof.
  pose proof (Z.mod_pos_bound t 1000000 ltac:(lia)) as Hm.
  split; [|split].
  - rewrite (Z.div_mod t 1000000) at 1 by lia. now rewrite inject_Z_plus, inject_Z_mult.
  - change 0 with (inject_Z 0). rewrite <- Zle_Qle. lia.
  - change 999999 with (inject_Z 999999). rewrite <- Zle_Qle. lia.
Qed.

Lemma convertedDate_within_one t :
  (- 2 ^ 63 <= t < 2 ^ 63)%Z ->
  (appleEpoch + t / 1000000 - 1 <= Double.floor (convertedDate t)
     <= appleEpoch + t / 1000000 + 1)%Z.
Proof.
  intros Ht. destruct (of_int64_near t Ht) as [Hy1 Hy2].
  destruct (split_ms t) as (Hsplit & Hr0 & Hr1).
  pose proof (Z.div_mod t 1000000 ltac:(lia)) as Hdm.
  pose proof (Z.mod_pos_bound t 1000000 ltac:(lia)) as Hm.
  set (n := (t / 1000000)%Z) in *.
  pose proof (convertedDate_fenced t (2 * n + -1) (2 * n + 3)) as H.
  replace ((2 * appleEpoch + (2 * n + -1)) / 2)%Z with (appleEpoch + n - 1)%Z in H
    by (apply Z.div_unique with 1%Z; lia).
  replace ((2 * appleEpoch + (2 * n + 3)) / 2)%Z with (appleEpoch + n + 1)%Z in H
    by (apply Z.div_unique with 1%Z; lia).
  apply H; try lia; rewrite inject_Z_plus, inject_Z_mult; qlit; lra.
Qed.

Lemma convertedDate_small t :
  (Z.abs t < 2 ^ 53)%Z ->
  (appleEpoch + t / 1000000 <= Double.floor (convertedDate t)
     <= appleEpoch + t / 1000000 + 1)%Z.
Proof.
  intros Ht. pose proof (of_int64_exact t Ht) as Hy.
  destruct (split_ms t) as (Hsplit & Hr0 & Hr1).
  pose proof (Z.div_mod t 1000000 ltac:(lia)) as Hdm.
  pose proof (Z.mod_pos_bound t 1000000 ltac:(lia)) as Hm.
  set (n := (t / 1000000)%Z) in *.
  pose proof (convertedDate_fenced t (2 * n) (2 * n + 2)) as H.
  replace ((2 * appleEpoch + (2 * n)) / 2)%Z with (appleEpoch + n)%Z in H
    by (apply Z.div_unique with 0%Z; lia).
  replace ((2 * appleEpoch + (2 * n + 2)) / 2)%Z with (appleEpoch + n + 1)%Z in H
    by (apply Z.div_unique with 0%Z; lia).
  apply H; try lia; rewrite ?inject_Z_plus, inject_Z_mult; qlit; lra.
Qed.

Lemma convertedDate_whole t :
  (Z.abs t < 2 ^ 53)%Z -> (t mod 1000000 = 0)%Z ->
  Double.floor (convertedDate t) = (appleEpoch + t / 1000000)%Z.
Proof.
  intros Ht H0. pose proof (of_int64_exact t Ht) as Hy.
  destruct (split_ms t) as (Hsplit & _). rewrite H0 in Hsplit.
  pose proof (Z.div_mod t 1000000 ltac:(lia)) as Hdm.
  set (n := (t / 1000000)%Z) in *.
  pose proof (convertedDate_fenced t (2 * n) (2 * n)) as H.
  replace ((2 * appleEpoch + (2 * n)) / 2)%Z with (appleEpoch + n)%Z in H
    by (apply Z.div_unique with 0%Z; lia).
  enough (appleEpoch + n <= Double.floor (convertedDate t) <= appleEpoch + n)%Z by lia.
  change (inject_Z 0) with 0 in Hsplit.
  apply H; try lia; rewrite inject_Z_mult; qlit; lra.
Qed.

(** A later date gives a later timestamp, or the same. *)
Lemma convertedDate_mono (t1 t2 : Z) :
  (t1 <= t2)%Z -> (Double.floor (convertedDate t1) <= Double.floor (convertedDate t2))%Z.
Proof.
  intros H. unfold Double.floor, convertedDate, Double.add, Double.div, of_int64.
  apply Qfloor_resp_le, to_double_mono.
  apply Qplus_le_r, to_double_mono.
  unfold Qdiv. apply Qmult_le_compat_r; [|discriminate].
  apply to_double_mono. now rewrite <- Zle_Qle.
Qed.

End DoubleFacts.

(* ================================================================= *)
(** ** Reaction classifier *)

Lemma getReactionType_add_codes :
  getReactionType 2000 = Some love /\ getReactionType 2001 = Some like /\
  getReactionType 2002 = Some dislike /\ getReactionType 2003 = Some laugh /\
  getReactionType 2004 = Some emphasis /\ getReactionType 2005 = Some question.
Proof. repeat split; vm_compute; reflexivity. Qed.

Lemma isReactionMessage_ranges (code : Z) :
  isReactionMessage (Some code) = true <->
  (2000 <= code <= 2005 \/ 3000 <= code <= 3005)%Z.
Proof.
  unfold isReactionMessage.
  destruct (Z.eqb_spec code 0) as [->|Hne]; [split; [discriminate | lia]|].
  rewrite orb_true_iff, !andb_true_iff, !Z.leb_le. tauto.
Qed.

(** C4.  Every code in 2000..2005 or 3000..3005 is a reaction; every
    other integer code, and the null code, is not; a remove code has
    the type of the add code 1000 below it; and the types are those
    of the six-entry table. *)
Theorem C4_reaction_classification :
  (forall code : Z,
      (2000 <= code <= 2005 \/ 3000 <= code <= 3005)%Z ->
      isReactionMessage (Some code) = true) /\
  (forall code : Z,
      ~ (2000 <= code <= 2005 \/ 3000 <= code <= 3005)%Z ->
      isReactionMessage (Some code) = false) /\
  isReactionMessage None = false /\
  (forall code : Z,
      (3000 <= code <= 3005)%Z ->
      getReactionType code = getReactionType (code - 1000)) /\
  map_to_list REACTION_TYPE_MAP ≡ₚ
    [(2000%Z, love); (2001%Z, like); (2002%Z, dislike);
     (2003%Z, laugh); (2004%Z, emphasis); (2005%Z, question)] /\
  (forall code : Z,
      (2000 <= code <= 2005)%Z ->
      getReactionType code = REACTION_TYPE_MAP !! code).
Proof.
  split; [|split; [|split; [|split; [|split]]]].
  - intros code H. now apply isReactionMessage_ranges.
  - intros code H. destruct (isReactionMessage (Some code)) eqn:E; [|reflexivity].
    apply isReactionMessage_ranges in E. contradiction.
  - reflexivity.
  - intros code H.
    assert (Hc : code = 3000%Z \/ code = 3001%Z \/ code = 3002%Z \/
                 code = 3003%Z \/ code = 3004%Z \/ code = 3005%Z) by lia.
    destruct Hc as [->|[->|[->|[->|[->| ->]]]]]; vm_compute; reflexivity.
  - unfold REACTION_TYPE_MAP. apply map_to_list_to_map.
    apply (bool_decide_unpack _). vm_compute. exact I.
  - intros code H. unfold getReactionType.
    destruct (Z.leb_spec 3000 code); [lia | reflexivity].
Qed.

(** C4 at two codes: 3003 is a reaction of type [laugh], 2006 is not
    a reaction. *)
Lemma C4_reaction_classification_witness :
  isReactionMessage (Some 3003%Z) = true /\
  isReactionMessage (Some 2006%Z) = false /\
  getReactionType 3003 = Some laugh.
Proof.
  destruct C4_reaction_classification as (Hin & Hout & _ & Hnorm & _ & _).
  split; [apply Hin; lia | split; [apply Hout; lia |]].
  rewrite Hnorm by lia. reflexivity.
Defined.

(* ================================================================= *)
(** ** Binary text decoder *)

Lemma starts_with_app (needle rest : list nat) : starts_with needle (needle ++ rest) = true.
Proof.
  induction needle as [|n needle IH]; simpl; [reflexivity|].
  now rewrite Nat.eqb_refl.
Qed.

Lemma starts_with_inv (needle hay : list nat) :
  starts_with needle hay = true -> begins_with needle hay.
Proof.
  revert hay. induction needle as [|n needle IH]; intros hay H.
  - now exists hay.
  - destruct hay as [|x hay]; simpl in H; [discriminate|].
    apply andb_true_iff in H as [Hx Hrest]. apply Nat.eqb_eq in Hx as ->.
    destruct (IH _ Hrest) as [rest ->]. now exists rest.
Qed.

Lemma indexOf_from_Some (i j : nat) (needle hay : list nat) :
  indexOf_from i needle hay = Some j -> contains needle hay.
Proof.
  revert i. induction hay as [|x hay IH]; intros i; simpl.
  - destruct (starts_with needle []) eqn:E; [|discriminate].
    intros _. destruct (starts_with_inv _ _ E) as [rest ->]. now exists [], rest.
  - destruct (starts_with needle (x :: hay)) eqn:E.
    + intros _. destruct (starts_with_inv _ _ E) as [rest ->]. now exists [], rest.
    + intros H. destruct (IH _ H) as (pre & post & ->). now exists (x :: pre), post.
Qed.

Lemma indexOf_from_None (i : nat) (needle hay : list nat) :
  indexOf_from i needle hay = None -> ~ contains needle hay.
Proof.
  revert i. induction hay as [|x hay IH]; intros i; simpl.
  - destruct (starts_with needle []) eqn:E; [discriminate|].
    intros _ (pre & post & H). destruct pre; [|discriminate].
    simpl in H. rewrite H, starts_with_app in E. discriminate.
  - destruct (starts_with needle (x :: hay)) eqn:E; [discriminate|].
    intros H (pre & post & Heq). destruct pre as [|y pre]; simpl in Heq.
    + rewrite Heq, starts_with_app in E. discriminate.
    + injection Heq as -> ->. apply (IH _ H). now exists pre, post.
Qed.

Lemma to_nat_inj (a b : byte) : Byte.to_nat a = Byte.to_nat b -> a = b.
Proof.
  intros H. pose proof (Byte.of_to_nat a) as Ha.
  rewrite H, Byte.of_to_nat in Ha. congruence.
Qed.

Lemma map_to_nat_inj (l k : list byte) : map Byte.to_nat l = map Byte.to_nat k -> l = k.
Proof.
  revert k. induction l as [|a l IH]; intros [|b k] H; try discriminate; [reflexivity|].
  injection H as Hab Hlk. f_equal; [now apply to_nat_inj | now apply IH].
Qed.

(** Bytes and their numeric view contain the same tokens. *)
Lemma contains_of_nat (token body : list byte) :
  contains (map Byte.to_nat token) (map Byte.to_nat body) -> contains token body.
Proof.
  intros (pre & post & H).
  apply map_eq_app in H as (pre' & rest & -> & _ & H).
  apply map_eq_app in H as (token' & post' & -> & Ht & _).
  apply map_to_nat_inj in Ht as ->. now exists pre', post'.
Qed.

Lemma begins_with_of_nat (header body : list byte) :
  begins_with (map Byte.to_nat header) (map Byte.to_nat body) -> begins_with header body.
Proof.
  intros (rest & H).
  apply map_eq_app in H as (header' & rest' & -> & Hh & _).
  apply map_to_nat_inj in Hh as ->. now exists rest'.
Qed.

Lemma isBplist_magic (body : list byte) :
  isBplist (map Byte.to_nat body) = true -> begins_with bplistMagic body.
Proof.
  intros H. apply begins_with_of_nat.
  destruct (map Byte.to_nat body) as [|b0 [|b1 [|b2 [|b3 [|b4 [|b5 rest]]]]]];
    try discriminate H.
  unfold isBplist, at_is in H. simpl in H.
  repeat (apply andb_true_iff in H as [H ?]).
  repeat match goal with E : (_ =? _) = true |- _ => apply Nat.eqb_eq in E; subst end.
  now exists rest.
Qed.

Lemma no_marker_no_text (body : list byte) :
  ~ contains markerToken body -> scanTypedstream (map Byte.to_nat body) = JNull.
Proof.
  intros Hno. unfold scanTypedstream.
  destruct (indexOf nsStringMarker (map Byte.to_nat body)) eqn:E; [|reflexivity].
  exfalso. apply Hno, contains_of_nat. exact (indexOf_from_Some _ _ _ _ E).
Qed.

(** C7.  The decoder returns null for the null buffer, for every
    buffer shorter than 8 bytes, and for every buffer that neither
    begins with the magic header [bplist] nor contains the marker
    [NSString]. *)
Theorem C7_plain_buffer_decodes_to_null (h : Host) :
  extractTextFromAttributedBody h None = JNull /\
  (forall body : list byte,
      length body < 8 -> extractTextFromAttributedBody h (Some body) = JNull) /\
  (forall body : list byte,
      ~ begins_with bplistMagic body -> ~ contains markerToken body ->
      extractTextFromAttributedBody h (Some body) = JNull).
Proof.
  split; [reflexivity | split].
  - intros body Hlen. unfold extractTextFromAttributedBody.
    rewrite length_map. now destruct (Nat.ltb_spec (length body) 8); [|lia].
  - intros body Hmagic Hmarker. unfold extractTextFromAttributedBody.
    destruct (length (map Byte.to_nat body) <? 8); [reflexivity|].
    destruct (isBplist (map Byte.to_nat body)) eqn:E.
    + exfalso. now apply Hmagic, isBplist_magic.
    + now apply no_marker_no_text.
Qed.

(** C7 on a plain buffer: ten bytes of text with neither the
    header nor the marker. *)
Lemma C7_plain_buffer_decodes_to_null_witness :
  extractTextFromAttributedBody Sample.host (Some (list_byte_of_string "plain text")) = JNull.
Proof.
  apply (C7_plain_buffer_decodes_to_null Sample.host).
  - intros [rest H]. discriminate H.
  - intros H. apply (indexOf_from_None 0 nsStringMarker
                       (map Byte.to_nat (list_byte_of_string "plain text"))).
    + vm_compute. reflexivity.
    + destruct H as (pre & post & H). exists (map Byte.to_nat pre), (map Byte.to_nat post).
      rewrite H, !map_app. reflexivity.
Defined.


Lemma scanTypedstream_length_field (buf : list nat) :
  scanTypedstream buf =
  match lengthFieldOffset buf with
  | None => JNull
  | Some offset =>
      if offset <? length buf then
        let (textLength, offset) := readLength buf offset in
        if (0 <? textLength) && (offset + textLength <=? length buf) then
          let cleaned :=
            trim (rev (strip_controls_rev
                         (rev (utf8_decode (subarray offset (offset + textLength) buf))))) in
          if (0 <? length cleaned) && negb (only_controls cleaned)
          then JStr (string_of_bytes cleaned) else JNull
        else JNull
      else JNull
  end.
Proof.
  unfold scanTypedstream, lengthFieldOffset.
  destruct (indexOf nsStringMarker buf); reflexivity.
Qed.



Lemma extract_falls_through (h : Host) (body : list byte) :
  isBplist (map Byte.to_nat body) = false \/
  tryArchive h body = Throw \/ tryArchive h body = Normal ->
  extractTextFromAttributedBody h (Some body) =
  if length body <? 8 then JNull else scanTypedstream (map Byte.to_nat body).
Proof.
  intros H. unfold extractTextFromAttributedBody. rewrite length_map.
  destruct (length body <? 8); [reflexivity|].
  destruct H as [-> | [H | H]]; [reflexivity | |];
    destruct (isBplist _); rewrite ?H; reflexivity.
Qed.

Lemma magic_isBplist (body : list byte) :
  begins_with bplistMagic body -> isBplist (map Byte.to_nat body) = true.
Proof. intros [rest ->]. reflexivity. Qed.

(** When the archive reader succeeds and the first object holds a
    truthy value under [NSString], that value is the result, of
    whatever type it is. *)
Lemma extract_returns_archive_value (h : Host) (body : list byte) (v : jsval)
    (props : list (string * jsval)) (rest : list jsval) :
  8 <= length body -> begins_with bplistMagic body ->
  parseBuffer h body = Some (JObj (("NSString"%string, v) :: props) :: rest) ->
  truthy v = true ->
  extractTextFromAttributedBody h (Some body) = v.
Proof.
  intros Hlen Hmagic Hparse Hv. unfold extractTextFromAttributedBody.
  rewrite length_map. destruct (Nat.ltb_spec (length body) 8); [lia|].
  rewrite (magic_isBplist body Hmagic). unfold tryArchive. rewrite Hparse.
  unfold return_if_prop. simpl. now rewrite Hv.
Qed.




(* ================================================================= *)
(** ** The row mapper *)

(** The model of binary64 and the hardware agree on the sample dates. *)
Lemma convertedDate_matches_hardware :
  Forall (fun t => option_map Double.floor (Double.of_float (convertedDate_hw t))
                   = Some (Double.floor (convertedDate t)))
         Sample.dates.
Proof. repeat constructor. Qed.

Lemma timestampOf_date (h : Host) (i : nat) (t : Z) :
  t <> 0%Z -> timestampOf h i (Some t) = Double.floor (convertedDate t).
Proof.
  intros Ht. unfold timestampOf, truthy_int.
  now destruct (Z.eqb_spec t 0).
Qed.

Lemma timestampOf_clock (h : Host) (i : nat) (date : option Z) :
  date = None \/ date = Some 0%Z -> timestampOf h i date = now h i.
Proof.
  intros [-> | ->]; unfold timestampOf; simpl; apply Qfloor_Z.
Qed.

(** C3, as the code has it.  The timestamp of a row dated [t] (a
    non-zero 64-bit integer) is [Math.floor] of the double
    [978307200000 + t / 1000000].  It is within one of
    [978307200000 + floor (t / 1000000)]; it is not below it when
    [|t| < 2^53], and equals it when moreover [t] is a whole number of
    milliseconds.  A row with no date, or date zero, gets the reading
    of the clock. *)
Theorem C3_timestamp_conversion (h : Host) (self : MessagesDatabase) (i : nat)
    (row : row) (conversationId : string) :
  let m := mapRowToMessage h self i row conversationId in
  (forall t : Z,
      date row = Some t -> t <> 0%Z -> (- 2 ^ 63 <= t < 2 ^ 63)%Z ->
      Message.timestamp m = Double.floor (convertedDate t) /\
      (978307200000 + t / 1000000 - 1 <= Message.timestamp m
         <= 978307200000 + t / 1000000 + 1)%Z /\
      ((Z.abs t < 2 ^ 53)%Z -> (978307200000 + t / 1000000 <= Message.timestamp m)%Z) /\
      ((Z.abs t < 2 ^ 53)%Z -> (t mod 1000000 = 0)%Z ->
       Message.timestamp m = (978307200000 + t / 1000000)%Z)) /\
  (date row = None \/ date row = Some 0%Z -> Message.timestamp m = now h i).
Proof.
  simpl. split.
  - intros t Hdate Hnz Hrange. rewrite Hdate, (timestampOf_date h i t Hnz).
    split; [reflexivity | split; [|split]].
    + exact (DoubleFacts.convertedDate_within_one t Hrange).
    + intros Hsmall. exact (proj1 (DoubleFacts.convertedDate_small t Hsmall)).
    + intros Hsmall Hwhole. exact (DoubleFacts.convertedDate_whole t Hsmall Hwhole).
  - intros H. now apply timestampOf_clock.
Qed.

(** C3 on message A of the sample, sent ten
    milliseconds after the reference epoch. *)
Lemma C3_timestamp_conversion_witness :
  Message.timestamp (mapRowToMessage Sample.host Sample.folding 0 (mkRow Sample.A None) "1")
  = 978307200010%Z.
Proof.
  destruct (C3_timestamp_conversion Sample.host Sample.folding 0 (mkRow Sample.A None) "1")
    as [Hdated _].
  destruct (Hdated 10000000%Z) as (_ & _ & _ & Hwhole);
    [reflexivity | discriminate | lia |].
  apply Hwhole; [lia | reflexivity].
Defined.

(** C3 as the specification words it fails: the row [Sample.late] is
    dated 700000000000999999, for which the formula gives
    1678307200000; the sum rounds up to the next millisecond. *)
Lemma C3_counterexample :
  date Sample.late = Some 700000000000999999%Z /\
  (978307200000 + 700000000000999999 / 1000000 = 1678307200000)%Z /\
  Message.timestamp (mapRowToMessage Sample.host Sample.folding 0 Sample.late "1")
  = 1678307200001%Z.
Proof. repeat split. Qed.

Lemma js_or_present (a : jsval) (s : string) :
  js_or a (JStr s) <> JNull /\ js_or a (JStr s) <> JUndefined.
Proof.
  unfold js_or. destruct (truthy a) eqn:E; [|split; discriminate].
  destruct a; try discriminate E; split; discriminate.
Qed.

Lemma mapRowToMessage_text (h : Host) (self : MessagesDatabase) (i : nat) (row : row)
    (conversationId : string) :
  text_present (mapRowToMessage h self i row conversationId).
Proof. apply js_or_present. Qed.

Lemma getMessages_text (h : Host) (self : MessagesDatabase) (conversationId : string)
    (limit : Z) (before : option Z) :
  Forall text_present (result_messages (getMessages h self conversationId limit before)).
Proof.
  apply Forall_forall. intros m Hm. unfold getMessages in Hm. simpl in Hm.
  apply elem_of_reverse, elem_of_lookup_imap in Hm as (i & row & -> & _).
  apply mapRowToMessage_text.
Qed.

Lemma getLastMessageForChat_text (h : Host) (self : MessagesDatabase) (i : nat)
    (chatId : Z) (m : Message.t) :
  getLastMessageForChat h self i chatId = Some m -> text_present m.
Proof.
  unfold getLastMessageForChat. destruct (lastMessageQuery _ _); [discriminate|].
  intros [= <-]. apply mapRowToMessage_text.
Qed.

(** C10.  The [text] of every message the assembler produces is
    neither null nor undefined; it is the empty string when the text
    column is empty and the decoder recovers nothing. *)
Theorem C10_text_is_never_null (h : Host) (self : MessagesDatabase) :
  (forall (i : nat) (row : row) (conversationId : string),
      text_present (mapRowToMessage h self i row conversationId) /\
      (truthy_text (text row) = false ->
       truthy (extractTextFromAttributedBody h (attributedBody row)) = false ->
       Message.text (mapRowToMessage h self i row conversationId) = JStr "")) /\
  (forall (conversationId : string) (limit : Z) (before : option Z),
      Forall text_present
             (result_messages (getMessages h self conversationId limit before))) /\
  Forall (fun conv => forall m, Conversation.lastMessage conv = Some m -> text_present m)
         (getConversations h self) /\
  (forall (conversationId : string) (conv : Conversation.t) (m : Message.t),
      getConversation h self conversationId = Some conv ->
      Conversation.lastMessage conv = Some m -> text_present m).
Proof.
  split; [|split; [|split]].
  - intros i row conversationId. split; [apply mapRowToMessage_text|].
    intros Hcol Hdec. simpl. unfold js_or.
    destruct (text row) as [s|] eqn:Ht; simpl in *.
    + rewrite Hcol. simpl.
      destruct (bool_decide (is_Some (attributedBody row))); simpl.
      * now rewrite Hdec.
      * now rewrite Hcol.
    + destruct (bool_decide (is_Some (attributedBody row))) eqn:Hb; simpl.
      * now rewrite Hdec.
      * reflexivity.
  - intros. apply getMessages_text.
  - apply Forall_forall. intros conv Hconv m Hm.
    apply elem_of_lookup_imap in Hconv as (i & r & -> & _).
    exact (getLastMessageForChat_text _ _ _ _ _ Hm).
  - intros conversationId conv m Hconv Hm. unfold getConversation in Hconv.
    destruct (conversationQuery _ _); [discriminate|].
    injection Hconv as <-. exact (getLastMessageForChat_text _ _ _ _ _ Hm).
Qed.

(** C10 on a row with no text column and no attributed body. *)
Lemma C10_text_is_never_null_witness :
  Message.text (mapRowToMessage Sample.host Sample.folding 0 (mkRow Sample.B None) "1")
  = JStr "".
Proof.
  apply (C10_text_is_never_null Sample.host Sample.folding); reflexivity.
Defined.

(* ================================================================= *)
(** ** Conversations *)

Lemma rowid_eq_text_spec (rowid : Z) (s : string) :
  rowid_eq_text rowid s = true <-> integer_of_text s = Some rowid.
Proof.
  unfold rowid_eq_text. destruct (integer_of_text s) as [z|].
  - rewrite Z.eqb_eq. split; congruence.
  - split; discriminate.
Qed.




(** *** Ordering and the joins *)

Lemma sql_leb_total (a b : option Z) : sql_leb a b = true \/ sql_leb b a = true.
Proof. destruct a, b; simpl; auto. rewrite !Z.leb_le. lia. Qed.

Lemma sql_leb_trans (a b c : option Z) :
  sql_leb a b = true -> sql_leb b c = true -> sql_leb a c = true.
Proof.
  destruct a, b, c; simpl; auto; try discriminate.
  rewrite !Z.leb_le. lia.
Qed.

#[global] Instance desc_by_trans {A} (key : A -> option Z) : Transitive (desc_by key).
Proof. intros a b c Hab Hbc. exact (sql_leb_trans _ _ _ Hbc Hab). Qed.

#[global] Instance desc_by_total {A} (key : A -> option Z) : Total (desc_by key).
Proof. intros a b. destruct (sql_leb_total (key a) (key b)); [right | left]; assumption. Qed.

#[global] Instance desc_by_refl {A} (key : A -> option Z) : Reflexive (desc_by key).
Proof. intros a. destruct (sql_leb_total (key a) (key a)); assumption. Qed.

Lemma order_by_desc_sorted {A} (key : A -> option Z) (rows : list A) :
  StronglySorted (desc_by key) (order_by_desc key rows).
Proof. apply StronglySorted_merge_sort; apply _. Qed.

Lemma order_by_desc_perm {A} (key : A -> option Z) (rows : list A) :
  order_by_desc key rows ≡ₚ rows.
Proof. apply merge_sort_Permutation. Qed.

(** The first row of a sorted result comes before every row. *)
Lemma order_by_desc_head {A} (key : A -> option Z) (rows : list A) (r : A) (rest : list A) :
  order_by_desc key rows = r :: rest ->
  r ∈ rows /\ forall r', r' ∈ rows -> desc_by key r r'.
Proof.
  intros E. pose proof (order_by_desc_sorted key rows) as Hs.
  pose proof (order_by_desc_perm key rows) as Hp. rewrite E in Hs, Hp.
  split; [rewrite <- Hp; left|].
  intros r' Hr'. rewrite <- Hp in Hr'. apply StronglySorted_inv in Hs as [_ Hall].
  apply elem_of_cons in Hr' as [-> | Hin]; [reflexivity|].
  rewrite Forall_forall in Hall. now apply Hall.
Qed.

Lemma sql_limit_1_head {A} (rows : list A) (r : A) (rest : list A) :
  sql_limit 1 rows = r :: rest -> exists rest', rows = r :: rest'.
Proof.
  unfold sql_limit. simpl. destruct rows as [|x rows]; [discriminate|].
  intros [= -> _]. now exists rows.
Qed.

Lemma elem_of_selectMessages (d : Database) (p : sqlval) (where_ : message -> bool)
    (r : row) :
  r ∈ selectMessages d p where_ <->
  row_message r ∈ messages d /\
  sender_identifier r ∈ left_join_handle d r /\
  (exists chat_rowid, (chat_rowid, ROWID r) ∈ chat_message_join d /\
                      int_eq_param chat_rowid p = true) /\
  where_ r = true.
Proof.
  unfold selectMessages. rewrite list_elem_of_bind. split.
  - intros (m & Hr & Hm). apply list_elem_of_bind in Hr as (sender & Hr & Hsender).
    apply list_elem_of_bind in Hr as ([c mid] & Hr & Hcmj). simpl in Hr.
    destruct ((mid =? ROWID m)%Z && int_eq_param c p && where_ m) eqn:E;
      [|now apply elem_of_nil in Hr].
    apply list_elem_of_singleton in Hr as ->. simpl.
    apply andb_true_iff in E as [E Hw]. apply andb_true_iff in E as [Hid Hp].
    apply Z.eqb_eq in Hid as ->. repeat split; try assumption. now exists c.
  - intros (Hm & Hsender & (c & Hcmj & Hp) & Hw). destruct r as [m sender]. simpl in *.
    exists m. split; [|assumption].
    apply list_elem_of_bind. exists sender. split; [|assumption].
    apply list_elem_of_bind. exists (c, ROWID m). split; [|assumption]. simpl.
    rewrite Z.eqb_refl, Hp, Hw. now left.
Qed.




Lemma length_bind_app {A B} (p q : A -> list B) (l : list A) :
  length (l ≫= fun x => p x ++ q x) = length (l ≫= p) + length (l ≫= q).
Proof.
  induction l as [|a l IH]; [reflexivity|].
  rewrite !bind_cons, !length_app, IH. lia.
Qed.

Lemma length_bind_swap {A B C} (f : A -> B -> list C) (l1 : list A) (l2 : list B) :
  length (x ← l1; y ← l2; f x y) = length (y ← l2; x ← l1; f x y).
Proof.
  induction l1 as [|a l1 IH].
  - simpl. induction l2 as [|b l2 IH2]; [reflexivity|]. now rewrite bind_cons.
  - rewrite bind_cons, length_app, IH.
    rewrite <- length_bind_app. f_equal.
Qed.

Lemma filter_bind {A B} (p : B -> bool) (f : A -> list B) (l : list A) :
  List.filter p (l ≫= f) = l ≫= fun x => List.filter p (f x).
Proof.
  induction l as [|a l IH]; [reflexivity|].
  now rewrite !bind_cons, List.filter_app, IH.
Qed.

Lemma bind_ext {A B} (f g : A -> list B) (l : list A) :
  (forall x, f x = g x) -> l ≫= f = l ≫= g.
Proof. intros H. induction l as [|a l IH]; [reflexivity|]. now rewrite !bind_cons, H, IH. Qed.

Lemma unread_spec (m : message) : unread m = true <-> unreadNotFromMe m.
Proof.
  unfold unread, unreadNotFromMe, is_zero. rewrite andb_true_iff.
  destruct (is_read m) as [r|], (is_from_me m) as [f|];
    rewrite ?Z.eqb_eq; split; intros [H1 H2]; try discriminate; split; congruence.
Qed.

(** On a row whose two flags are not NULL, unread and not from me is
    what the flags of its [Message] say. *)
Lemma unreadNotFromMe_flags (h : Host) (self : MessagesDatabase) (i : nat) (r : row)
    (conversationId : string) :
  is_read r <> None -> is_from_me r <> None ->
  unreadNotFromMe r <->
  Message.isRead (mapRowToMessage h self i r conversationId) = false /\
  Message.isFromMe (mapRowToMessage h self i r conversationId) = false.
Proof.
  unfold unreadNotFromMe. simpl. unfold truthy_int.
  destruct (is_read r) as [a|], (is_from_me r) as [b|]; try contradiction.
  intros _ _. rewrite !negb_false_iff, !Z.eqb_eq. split; intros [H1 H2]; split; congruence.
Qed.

(** The count of the [unread_count] subquery is [unreadIn]. *)
Lemma unread_count_spec (d : Database) (c : chat) :
  unread_count (select_chat d c) = Z.of_nat (unreadIn d (chat_ROWID c)).
Proof.
  simpl. f_equal. unfold joinedMessages, unreadIn.
  rewrite filter_bind.
  rewrite (bind_ext _ (fun cmj : Z * Z =>
                         m ← messages d;
                         if bool_decide (cmj = (chat_ROWID c, ROWID m) /\ unreadNotFromMe m)
                         then [m] else [])).
  - apply (length_bind_swap
             (fun (cmj : Z * Z) m =>
                if bool_decide (cmj = (chat_ROWID c, ROWID m) /\ unreadNotFromMe m)
                then [m] else [])).
  - intros [cid mid]. rewrite filter_bind. apply bind_ext. intros m. simpl.
    destruct (Z.eqb_spec mid (ROWID m)) as [->|Hm]; simpl.
    + destruct (Z.eqb_spec cid (chat_ROWID c)) as [->|Hc]; simpl.
      * destruct (unread m) eqn:Hu.
        -- rewrite bool_decide_eq_true_2; [reflexivity|]. split; [reflexivity|].
           now apply unread_spec.
        -- rewrite bool_decide_eq_false_2; [reflexivity|]. intros [_ H].
           apply unread_spec in H. congruence.
      * rewrite bool_decide_eq_false_2; [reflexivity|]. intros [[= H] _]. contradiction.
    + rewrite bool_decide_eq_false_2; [reflexivity|]. intros [[= _ H] _]. contradiction.
Qed.

Lemma elem_of_conversationsQuery (d : Database) (r : chat_row) :
  r ∈ conversationsQuery d <->
  exists c, c ∈ chats d /\ r = select_chat d c /\ is_Some (last_message_date r).
Proof.
  unfold conversationsQuery.
  rewrite order_by_desc_perm, list_elem_of_In, filter_In, in_map_iff.
  rewrite bool_decide_eq_true. split.
  - intros [(c & <- & Hc) Hsome]. exists c. now rewrite list_elem_of_In.
  - intros (c & Hc & -> & Hsome). split; [|assumption]. exists c.
    now rewrite <- list_elem_of_In.
Qed.

Lemma elem_of_getConversations (h : Host) (self : MessagesDatabase) (conv : Conversation.t) :
  conv ∈ getConversations h self ->
  exists i c,
    c ∈ chats (db self) /\ conv = conversationOf h self i (select_chat (db self) c).
Proof.
  intros H. apply elem_of_lookup_imap in H as (i & r & -> & Hr).
  apply list_elem_of_lookup_2, elem_of_conversationsQuery in Hr as (c & Hc & -> & _).
  now exists i, c.
Qed.

Lemma getConversation_Some (h : Host) (self : MessagesDatabase) (conversationId : string)
    (conv : Conversation.t) :
  getConversation h self conversationId = Some conv ->
  exists c, c ∈ chats (db self) /\ integer_of_text conversationId = Some (chat_ROWID c) /\
            conv = conversationOf h self 0 (select_chat (db self) c).
Proof.
  unfold getConversation, conversationQuery.
  destruct (List.filter _ (chats (db self))) as [|c rest] eqn:E; [discriminate|].
  intros [= <-].
  assert (Hin : In c (List.filter (fun c => rowid_eq_text (chat_ROWID c) conversationId)
                                  (chats (db self)))) by (rewrite E; now left).
  apply filter_In in Hin as [Hc Hhit]. exists c.
  split; [now apply list_elem_of_In | split; [now apply rowid_eq_text_spec | reflexivity]].
Qed.

(** C6.  The [unreadCount] of every conversation that
    [getConversations] or [getConversation] returns is the number of
    messages of its chat that are unread and not from me. *)
Theorem C6_unread_count (h : Host) (self : MessagesDatabase) :
  Forall (fun conv =>
            exists c, conversation_of_chat (db self) conv c /\
                      Conversation.unreadCount conv
                      = Z.of_nat (unreadIn (db self) (chat_ROWID c)))
         (getConversations h self) /\
  (forall (conversationId : string) (conv : Conversation.t),
      getConversation h self conversationId = Some conv ->
      exists c, conversation_of_chat (db self) conv c /\
                integer_of_text conversationId = Some (chat_ROWID c) /\
                Conversation.unreadCount conv
                = Z.of_nat (unreadIn (db self) (chat_ROWID c))).
Proof.
  split.
  - apply Forall_forall. intros conv Hconv.
    apply elem_of_getConversations in Hconv as (i & c & Hc & ->).
    exists c. split; [now split|]. apply unread_count_spec.
  - intros conversationId conv Hconv.
    apply getConversation_Some in Hconv as (c & Hc & Hid & ->).
    exists c. split; [now split | split; [assumption | apply unread_count_spec]].
Qed.

(** C6 on the sample: A and the tapback B are both unread rows
    from Alice, so the count of chat 1 is 2. *)
Lemma C6_unread_count_witness :
  exists conv, getConversation Sample.host Sample.folding "1" = Some conv /\
               Conversation.unreadCount conv = 2%Z.
Proof.
  destruct (getConversation Sample.host Sample.folding "1") as [conv|] eqn:E;
    [|discriminate E].
  exists conv. split; [reflexivity|].
  destruct (proj2 (C6_unread_count Sample.host Sample.folding) "1" conv E)
    as (c & _ & Hid & ->).
  injection Hid as <-. reflexivity.
Defined.

Lemma lastMessageFilter_not_reaction (m : message) :
  lastMessageFilter m = true -> isReactionMessage (associated_message_type m) = false.
Proof.
  unfold lastMessageFilter, isReactionMessage.
  destruct (associated_message_type m) as [t|]; [|reflexivity].
  rewrite orb_true_iff, !Z.ltb_lt. intros H.
  destruct (t =? 0)%Z; [reflexivity|].
  apply orb_false_iff. split; apply andb_false_iff; rewrite !Z.leb_gt; lia.
Qed.

Lemma elem_of_selectMessages_where (d : Database) (p : sqlval) (where_ : message -> bool)
    (r : row) :
  r ∈ selectMessages d p where_ <-> r ∈ conversationRows d p /\ where_ r = true.
Proof. unfold conversationRows. rewrite !elem_of_selectMessages. tauto. Qed.

Lemma getLastMessageForChat_spec (h : Host) (self : MessagesDatabase) (i : nat) (chatId : Z) :
  isLastMessageOf h self chatId (getLastMessageForChat h self i chatId).
Proof.
  unfold getLastMessageForChat, isLastMessageOf, lastMessageQuery.
  destruct (sql_limit 1 _) as [|r rest] eqn:E.
  - intros r' Hr'. destruct (lastMessageFilter r') eqn:Hf; [exfalso | reflexivity].
    assert (Hin : r' ∈ selectMessages (db self) (SqlInt chatId) lastMessageFilter)
      by now apply elem_of_selectMessages_where.
    rewrite <- (order_by_desc_perm row_date) in Hin. unfold sql_limit in E. simpl in E.
    destruct (order_by_desc _ _); [now apply elem_of_nil in Hin | discriminate E].
  - apply sql_limit_1_head in E as [rest' E].
    apply order_by_desc_head in E as [Hr Hfirst].
    apply elem_of_selectMessages_where in Hr as [Hr Hf].
    exists i, r. split; [assumption | split; [now apply lastMessageFilter_not_reaction|]].
    split; [reflexivity|]. intros r' Hr' Hf'. apply Hfirst.
    now apply elem_of_selectMessages_where.
Qed.





(** A row whose type code lies between the two reaction ranges is a
    message for [getMessages] and is never a last message: the filter
    of [getLastMessageForChat] drops the codes 2006..2999 too. *)
Lemma band_row_is_message_but_not_last :
  map Message.id (result_messages (getMessages Sample.host Sample.emoji "1" 100 None))
  = ["A"%string; "E"%string] /\
  Message.id <$> getLastMessageForChat Sample.host Sample.emoji 0 1 = Some "A"%string.
Proof. split; vm_compute; reflexivity. Qed.


(* ================================================================= *)
(** ** Messages of a conversation *)

(** *** The reactions map *)

Lemma omap_cons {A B} (f : A -> option B) (x : A) (l : list A) :
  omap f (x :: l) = match f x with Some y => y :: omap f l | None => omap f l end.
Proof. reflexivity. Qed.

Lemma isAddCode_spec (ty : Z) :
  isAddCode ty = true <->
  isReactionMessage (Some ty) = true /\ isRemoveReaction ty = false.
Proof.
  unfold isAddCode, isRemoveReaction. rewrite isReactionMessage_ranges.
  rewrite andb_true_iff, andb_false_iff, !Z.leb_le, !Z.leb_gt. lia.
Qed.

Lemma REACTION_TYPE_MAP_keys (code : Z) (rt : ReactionType) :
  REACTION_TYPE_MAP !! code = Some rt -> (2000 <= code <= 2005)%Z.
Proof.
  intros H. apply elem_of_list_to_map_2 in H.
  repeat (apply elem_of_cons in H as [[= -> _] | H]; [lia|]).
  now apply elem_of_nil in H.
Qed.

Lemma getReactionType_Some (ty : Z) (rt : ReactionType) :
  getReactionType ty = Some rt -> isReactionMessage (Some ty) = true.
Proof.
  intros H. apply isReactionMessage_ranges. unfold getReactionType in H.
  destruct (Z.leb_spec 3000 ty); apply REACTION_TYPE_MAP_keys in H; lia.
Qed.

Section ReactionsMap.

Variable self : MessagesDatabase.

Lemma addReaction_lookup (m : gmap string (list Reaction.t)) (r : row) (g : string) :
  default [] (addReaction self m r !! g)
  = default [] (m !! g) ++ option_list (addedUnder self g r).
Proof.
  unfold addReaction, addedUnder.
  destruct (associated_message_guid r) as [assoc|]; [|now rewrite app_nil_r].
  destruct (associated_message_type r) as [ty|]; [|now rewrite app_nil_r].
  destruct (String.eqb assoc "" || isRemoveReaction ty); [now rewrite app_nil_r|].
  destruct (getReactionType ty) as [rt|]; [|now rewrite app_nil_r].
  destruct (String.eqb_spec (parentGuidOf assoc) g) as [->|Hne].
  - now rewrite lookup_insert_eq.
  - rewrite lookup_insert_ne by assumption. now rewrite app_nil_r.
Qed.

(** Under each key the loop appends, row after row. *)
Lemma fold_addReaction_lookup (rows : list row) (m : gmap string (list Reaction.t))
    (g : string) :
  default [] (fold_left (addReaction self) rows m !! g)
  = default [] (m !! g) ++ omap (addedUnder self g) rows.
Proof.
  revert m. induction rows as [|r rows IH]; intros m.
  - simpl. now rewrite app_nil_r.
  - cbn [fold_left]. rewrite IH, addReaction_lookup, <- app_assoc, omap_cons. f_equal.
    now destruct (addedUnder self g r).
Qed.

(** The loop adds what [attachedReaction] describes. *)
Lemma addedUnder_spec (g : string) (r : row) :
  addedUnder self g r
  = if isReactionMessage (associated_message_type r)
    then attachedReaction self g r else None.
Proof.
  unfold addedUnder, attachedReaction, targets.
  destruct (associated_message_type r) as [ty|] eqn:Ety.
  - destruct (associated_message_guid r) as [assoc|].
    + destruct (isAddCode ty) eqn:Hadd.
      * apply isAddCode_spec in Hadd as [-> ->]. rewrite orb_false_r. simpl.
        destruct (String.eqb assoc ""); simpl; [reflexivity|].
        destruct (getReactionType ty); simpl; [|now destruct (String.eqb _ _)].
        now destruct (String.eqb _ _).
      * cbn [andb]. destruct (isReactionMessage (Some ty)) eqn:Hre.
        -- destruct (isRemoveReaction ty) eqn:Hrm; [now rewrite orb_true_r|].
           exfalso. assert (isAddCode ty = true) by now apply isAddCode_spec. congruence.
        -- destruct (String.eqb assoc "" || isRemoveReaction ty); [reflexivity|].
           destruct (getReactionType ty) as [rt|] eqn:Ert; [|reflexivity].
           apply getReactionType_Some in Ert. congruence.
    + rewrite andb_false_r. now destruct (isReactionMessage (Some ty)).
  - now destruct (associated_message_guid r).
Qed.

Lemma attachedReaction_reaction_row (g : string) (r : row) :
  isReactionMessage (associated_message_type r) = false -> attachedReaction self g r = None.
Proof.
  unfold attachedReaction. destruct (associated_message_type r) as [ty|]; [|reflexivity].
  intros H. destruct (isAddCode ty) eqn:Hadd; [|reflexivity].
  apply isAddCode_spec in Hadd as [Hre _]. congruence.
Qed.

Lemma omap_filter_reactions (g : string) (rows : list row) :
  omap (addedUnder self g)
       (List.filter (fun row : row => isReactionMessage (associated_message_type row)) rows)
  = omap (attachedReaction self g) rows.
Proof.
  induction rows as [|r rows IH]; [reflexivity|]. cbn [List.filter].
  destruct (isReactionMessage (associated_message_type r)) eqn:E.
  - now rewrite !omap_cons, addedUnder_spec, E, IH.
  - now rewrite omap_cons, (attachedReaction_reaction_row g r E), IH.
Qed.

(** The reactions the code attaches to a row are those of the fetched
    rows that target its guid. *)
Lemma reactionsFor_spec (rows : list row) (guid : option string) :
  reactionsFor
    (fold_left (addReaction self)
               (List.filter (fun row : row => isReactionMessage (associated_message_type row))
                            rows) ∅)
    guid
  = reactionsOn self rows guid.
Proof.
  unfold reactionsFor, reactionsOn. destruct guid as [g|]; [|reflexivity].
  now rewrite fold_addReaction_lookup, lookup_empty, omap_filter_reactions.
Qed.

End ReactionsMap.

(** *** Stripping the prefix of an association id *)

Lemma bytes_of_string_app (s1 s2 : string) :
  bytes_of_string (s1 +:+ s2) = bytes_of_string s1 ++ bytes_of_string s2.
Proof.
  unfold bytes_of_string. induction s1 as [|c s1 IH]; [reflexivity|].
  simpl. now rewrite IH.
Qed.

Lemma string_of_bytes_of_string (s : string) : string_of_bytes (bytes_of_string s) = s.
Proof.
  unfold string_of_bytes, bytes_of_string. induction s as [|c s IH]; [reflexivity|].
  simpl. now rewrite ascii_nat_embedding, IH.
Qed.

Lemma capture_plain (s : list nat) :
  s <> [] -> dot_run s = s -> after_prefix s = None -> capture_from 0 s = Some s.
Proof.
  intros Hne Hrun Hpre. destruct s as [|c s]; [contradiction|].
  cbn [capture_from]. unfold capture_here. now rewrite Hpre, Hrun.
Qed.

Lemma capture_prefixed (s g : list nat) :
  g <> [] -> dot_run g = g -> after_prefix s = Some g -> capture_from 0 s = Some g.
Proof.
  intros Hne Hrun Hpre. destruct s as [|c s]; [discriminate Hpre|].
  cbn [capture_from]. unfold capture_here. rewrite Hpre, Hrun.
  now destruct g.
Qed.

Lemma drop_digits_app (ds rest : list nat) :
  forallb is_digit ds = true -> drop_digits (ds ++ 47 :: rest) = 47 :: rest.
Proof.
  induction ds as [|d ds IH]; simpl; [reflexivity|].
  intros H. apply andb_true_iff in H as [-> Hds]. now apply IH.
Qed.

(** ["bp:" + g] names [g]. *)
Lemma parentGuidOf_bp (g : string) : plain g -> parentGuidOf ("bp:" +:+ g) = g.
Proof.
  intros [Hne Hrun]. unfold parentGuidOf. rewrite bytes_of_string_app.
  rewrite (capture_prefixed _ (bytes_of_string g)); try assumption.
  - apply string_of_bytes_of_string.
  - reflexivity.
Qed.

(** ["p:" + N + "/" + g] names [g], for a decimal number [N]. *)
Lemma parentGuidOf_numbered (num g : string) :
  num <> ""%string -> forallb is_digit (bytes_of_string num) = true -> plain g ->
  parentGuidOf ("p:" +:+ num +:+ "/" +:+ g) = g.
Proof.
  intros Hnum Hdigits [Hne Hrun]. unfold parentGuidOf.
  rewrite !bytes_of_string_app.
  rewrite (capture_prefixed _ (bytes_of_string g)); try assumption.
  - apply string_of_bytes_of_string.
  - destruct num as [|c num]; [contradiction|].
    change (bytes_of_string (String c num))
      with (nat_of_ascii c :: bytes_of_string num) in *.
    simpl in Hdigits. apply andb_true_iff in Hdigits as [Hc Hrest].
    change (bytes_of_string "p:") with [112; 58].
    change (bytes_of_string "/") with [47].
    cbn [app after_prefix]. rewrite Hc. now rewrite drop_digits_app.
Qed.

(** An id with no prefix names itself. *)
Lemma parentGuidOf_bare (g : string) :
  plain g -> after_prefix (bytes_of_string g) = None -> parentGuidOf g = g.
Proof.
  intros [Hne Hrun] Hpre. unfold parentGuidOf.
  rewrite capture_plain by assumption. apply string_of_bytes_of_string.
Qed.

(** *** The page *)

Lemma getMessages_messages (h : Host) (self : MessagesDatabase) (conversationId : string)
    (limit : Z) (before : option Z) :
  let fetched := messagesQuery (db self) conversationId limit before in
  result_messages (getMessages h self conversationId limit before)
  = reverse (imap (fun i (r : row) =>
                     Message.set_reactions (mapRowToMessage h self i r conversationId)
                                           (reactionsOn self fetched (guid r)))
                  (slice0 limit (List.filter nonReaction fetched))).
Proof.
  intros fetched. unfold getMessages. cbn [result_messages]. f_equal.
  apply imap_ext. intros i r _. cbn beta zeta. f_equal. apply reactionsFor_spec.
Qed.

Lemma getMessages_hasMore (h : Host) (self : MessagesDatabase) (conversationId : string)
    (limit : Z) (before : option Z) :
  hasMore (getMessages h self conversationId limit before)
  = (limit <? Z.of_nat (length (List.filter nonReaction
                                  (messagesQuery (db self) conversationId limit before))))%Z.
Proof. reflexivity. Qed.

Lemma messagesQuery_no_cursor (d : Database) (conversationId : string) (limit : Z) :
  messagesQuery d conversationId limit None
  = sql_limit ((limit + 1) * 3)
              (order_by_desc row_date (conversationRows d (SqlText conversationId))).
Proof. reflexivity. Qed.

Lemma elem_of_slice0 {A} (limit : Z) (l : list A) (x : A) : x ∈ slice0 limit l -> x ∈ l.
Proof.
  unfold slice0. destruct (limit <? 0)%Z; intros H;
    exact (subseteq_take _ _ _ H).
Qed.

Lemma sql_limit_all {A} (n : Z) (l : list A) :
  (Z.of_nat (length l) <= n)%Z -> sql_limit n l = l.
Proof.
  intros H. unfold sql_limit. destruct (Z.ltb_spec n 0); [reflexivity|].
  apply take_ge. lia.
Qed.

Lemma filter_sql_limit_length {A} (p : A -> bool) (n : Z) (l : list A) :
  length (List.filter p (sql_limit n l)) <= length (List.filter p l).
Proof.
  unfold sql_limit. destruct (n <? 0)%Z; [reflexivity|].
  rewrite <- (take_drop (Z.to_nat n) l) at 2.
  rewrite List.filter_app, length_app. lia.
Qed.

Lemma slice0_all {A} (l : list A) : slice0 (Z.of_nat (length l)) l = l.
Proof.
  unfold slice0. destruct (Z.ltb_spec (Z.of_nat (length l)) 0); [lia|].
  apply take_ge. lia.
Qed.

Lemma slice0_take {A} (limit : Z) (l : list A) :
  (0 <= limit)%Z -> slice0 limit l = take (Z.to_nat limit) l.
Proof. intros H. unfold slice0. now destruct (Z.ltb_spec limit 0); [lia|]. Qed.

Lemma StronglySorted_filter {A} (R : relation A) (p : A -> bool) (l : list A) :
  StronglySorted R l -> StronglySorted R (List.filter p l).
Proof.
  induction 1 as [|a l Hs IH Hall]; simpl; [constructor|].
  destruct (p a); [|assumption]. constructor; [assumption|].
  rewrite Forall_forall in *. intros x Hx.
  apply list_elem_of_In, filter_In in Hx as [Hx _]. apply Hall. now apply list_elem_of_In.
Qed.

Lemma StronglySorted_reverse {A} (R : relation A) (l : list A) :
  StronglySorted R l -> StronglySorted (flip R) (reverse l).
Proof.
  induction 1 as [|a l Hs IH Hall]; [constructor|].
  rewrite reverse_cons. apply StronglySorted_app_2; [|assumption|repeat constructor].
  intros x1 x2 Hx1 Hx2. apply list_elem_of_singleton in Hx2 as ->.
  rewrite elem_of_reverse in Hx1. rewrite Forall_forall in Hall. unfold flip. now apply Hall.
Qed.

Lemma Permutation_filter {A} (p : A -> bool) (l l' : list A) :
  l ≡ₚ l' -> List.filter p l ≡ₚ List.filter p l'.
Proof.
  induction 1 as [|x l l' _ IH|x y l|l l' l'' _ IH1 _ IH2]; simpl.
  - reflexivity.
  - destruct (p x); [now constructor | assumption].
  - destruct (p x), (p y); try reflexivity. constructor.
  - now transitivity (List.filter p l').
Qed.

Lemma without_reactions_page (h : Host) (self : MessagesDatabase) (conversationId : string)
    (reactions : row -> list Reaction.t) (page : list row) :
  without_reactions <$>
    reverse (imap (fun i (r : row) =>
                     Message.set_reactions (mapRowToMessage h self i r conversationId)
                                           (reactions r)) page)
  = reverse (imap (fun i r => mapRowToMessage h self i r conversationId) page).
Proof.
  rewrite fmap_reverse, fmap_imap. f_equal.
Qed.

(** The timestamps of rows that have a date follow the dates. *)
Lemma timestamps_of_dated_rows (h : Host) (self : MessagesDatabase) (conversationId : string)
    (rows : list row) :
  Forall (fun r : row => truthy_int (date r) = true) rows ->
  Message.timestamp <$> imap (fun i r => mapRowToMessage h self i r conversationId) rows
  = (fun r : row => Double.floor (convertedDate (int_or_zero (date r)))) <$> rows.
Proof.
  intros Hdated. rewrite fmap_imap, <- imap_const. apply imap_ext.
  intros i r Hr. apply list_elem_of_lookup_2 in Hr.
  rewrite Forall_forall in Hdated. specialize (Hdated r Hr).
  cbn. unfold timestampOf. now rewrite Hdated.
Qed.

Lemma dated_rows_sorted (rows : list row) :
  StronglySorted (desc_by row_date) rows ->
  Forall (fun r : row => truthy_int (date r) = true) rows ->
  StronglySorted (flip Z.le)
    ((fun r : row => Double.floor (convertedDate (int_or_zero (date r)))) <$> rows).
Proof.
  induction 1 as [|a l Hs IH Hall]; intros Hdated; [constructor|].
  apply Forall_cons in Hdated as [Ha Hl]. cbn [fmap list_fmap]. constructor; [now apply IH|].
  apply Forall_fmap, Forall_forall. intros b Hb. cbn. unfold flip.
  rewrite Forall_forall in Hall, Hl. specialize (Hall b Hb). specialize (Hl b Hb).
  unfold desc_by, row_date in Hall. apply DoubleFacts.convertedDate_mono.
  destruct (date a) as [ta|]; [|discriminate]. destruct (date b) as [tb|]; [|discriminate].
  cbn in *. now apply Z.leb_le.
Qed.

(** C1, as the code has it.  Let a conversation hold [N] non-reaction
    messages.  With [limit = N], [hasMore] is false, and all [N] are
    returned when the conversation has at most [3 * (N + 1)] rows,
    reaction rows included.  With [limit = N - 1] (for [N >= 1]),
    when it has at most [3 * N] rows, [hasMore] is true and the [N -
    1] newest are returned.  The page is the newest-first list
    reversed: it is in ascending order of the date column, rows
    without a date first, and its timestamps are in ascending order
    when each of its rows has a date other than zero. *)
Theorem C1_pagination_boundary (h : Host) (self : MessagesDatabase)
    (conversationId : string) :
  let all := conversationRows (db self) (SqlText conversationId) in
  let newestFirst := List.filter nonReaction (order_by_desc row_date all) in
  let N := Z.of_nat (length newestFirst) in
  let page limit :=
    without_reactions <$> result_messages (getMessages h self conversationId limit None) in
  let messagesOf rows :=
    reverse (imap (fun i r => mapRowToMessage h self i r conversationId) rows) in
  (newestFirst ≡ₚ List.filter nonReaction all /\
   StronglySorted (desc_by row_date) newestFirst /\
   (forall k, StronglySorted (flip (desc_by row_date)) (reverse (take k newestFirst))) /\
   (forall k, Forall (fun r : row => truthy_int (date r) = true) (take k newestFirst) ->
              StronglySorted Z.le (Message.timestamp <$> messagesOf (take k newestFirst)))) /\
  hasMore (getMessages h self conversationId N None) = false /\
  ((Z.of_nat (length all) <= 3 * (N + 1))%Z -> page N = messagesOf newestFirst) /\
  ((1 <= N)%Z -> (Z.of_nat (length all) <= 3 * N)%Z ->
   hasMore (getMessages h self conversationId (N - 1) None) = true /\
   page (N - 1)%Z = messagesOf (take (Z.to_nat (N - 1)) newestFirst)).
Proof.
  intros all newestFirst N page messagesOf.
  assert (Hsorted : StronglySorted (desc_by row_date) newestFirst)
    by apply StronglySorted_filter, order_by_desc_sorted.
  assert (Hlen : length (order_by_desc row_date all) = length all)
    by now rewrite order_by_desc_perm.
  assert (Htake : forall k, StronglySorted (desc_by row_date) (take k newestFirst)).
  { intros k. rewrite <- (take_drop k newestFirst) in Hsorted.
    exact (StronglySorted_app_1_l _ _ _ Hsorted). }
  split; [split; [|split; [|split]]|split; [|split]].
  - apply Permutation_filter, order_by_desc_perm.
  - exact Hsorted.
  - intros k. apply StronglySorted_reverse, Htake.
  - intros k Hdated. unfold messagesOf.
    rewrite fmap_reverse, timestamps_of_dated_rows by assumption.
    apply (StronglySorted_reverse (flip Z.le)), dated_rows_sorted; [apply Htake | assumption].
  - rewrite getMessages_hasMore, messagesQuery_no_cursor. apply Z.ltb_ge.
    apply inj_le, filter_sql_limit_length.
  - intros Hwindow. unfold page, messagesOf.
    rewrite getMessages_messages, without_reactions_page, messagesQuery_no_cursor.
    fold all. rewrite sql_limit_all by (rewrite Hlen; lia).
    fold newestFirst. unfold N. now rewrite slice0_all.
  - intros HN Hwindow.
    assert (Hfetch : messagesQuery (db self) conversationId (N - 1) None
                     = order_by_desc row_date all).
    { rewrite messagesQuery_no_cursor. fold all. apply sql_limit_all. rewrite Hlen. lia. }
    split.
    + rewrite getMessages_hasMore, Hfetch. apply Z.ltb_lt. fold newestFirst N. lia.
    + unfold page, messagesOf.
      rewrite getMessages_messages, without_reactions_page, Hfetch.
      fold newestFirst. now rewrite slice0_take by lia.
Qed.

(** C1 on [Sample.folding]: one message A and one
    tapback, so N = 1 and the window of six rows holds both. *)
Lemma C1_pagination_boundary_witness :
  let result := getMessages Sample.host Sample.folding "1" 1 None in
  hasMore result = false /\
  without_reactions <$> result_messages result
  = [mapRowToMessage Sample.host Sample.folding 0
       (mkRow Sample.A (Some "+15551234567"%string)) "1"].
Proof.
  destruct (C1_pagination_boundary Sample.host Sample.folding "1")
    as (_ & Hmore & Hall & _).
  split; [exact Hmore | apply Hall; vm_compute; discriminate].
Defined.

(** C1 as the specification words it fails: [Sample.crowded] holds
    one message, A, and six tapback rows that are all newer; with
    [limit = 1] the six rows fetched are the tapbacks, and no message
    is returned.  [Sample.undated] holds A and a message dated zero:
    both are returned, the undated one first, stamped by the clock
    with a time after that of A. *)
Lemma C1_counterexample :
  length (List.filter nonReaction (conversationRows (db Sample.crowded) (SqlText "1"))) = 1 /\
  getMessages Sample.host Sample.crowded "1" 1 None = mkResult [] false /\
  Message.timestamp <$> result_messages (getMessages Sample.host Sample.undated "1" 2 None)
  = [1704067200000; 978307200010]%Z.
Proof. repeat split; vm_compute; reflexivity. Qed.

Lemma attachedReaction_Some (self : MessagesDatabase) (g : string) (r : row)
    (reaction : Reaction.t) :
  attachedReaction self g r = Some reaction <->
  exists ty reactionType assoc,
    associated_message_type r = Some ty /\ (2000 <= ty <= 2005)%Z /\
    REACTION_TYPE_MAP !! ty = Some reactionType /\
    associated_message_guid r = Some assoc /\ assoc <> ""%string /\
    parentGuidOf assoc = g /\
    reaction = reactionOf self reactionType r.
Proof.
  unfold attachedReaction, targets, isAddCode. split.
  - destruct (associated_message_type r) as [ty|]; [|discriminate].
    destruct ((2000 <=? ty)%Z && (ty <=? 2005)%Z) eqn:Hadd; [|discriminate].
    apply andb_true_iff in Hadd as [H1 H2]. apply Z.leb_le in H1, H2.
    destruct (associated_message_guid r) as [assoc|]; [|discriminate]. cbn [andb].
    destruct (String.eqb_spec assoc "") as [->|Hne]; [discriminate|]. cbn [negb andb].
    destruct (String.eqb_spec (parentGuidOf assoc) g) as [Hg|]; [|discriminate].
    destruct (getReactionType ty) as [rt|] eqn:Hrt; [|discriminate].
    intros [= <-]. exists ty, rt, assoc. repeat split; try assumption; try lia.
    unfold getReactionType in Hrt. now destruct (Z.leb_spec 3000 ty); [lia|].
  - intros (ty & rt & assoc & -> & Hty & Hrt & -> & Hne & <- & ->).
    destruct (Z.leb_spec 2000 ty); [|lia]. destruct (Z.leb_spec ty 2005); [|lia].
    cbn [andb]. destruct (String.eqb_spec assoc ""); [contradiction|]. cbn [negb andb].
    rewrite String.eqb_refl. unfold getReactionType.
    destruct (Z.leb_spec 3000 ty); [lia|]. now rewrite Hrt.
Qed.

Lemma attachedReaction_remove (self : MessagesDatabase) (g : string) (r : row) (ty : Z) :
  associated_message_type r = Some ty -> isRemoveReaction ty = true ->
  attachedReaction self g r = None.
Proof.
  intros Hty Hrm. unfold attachedReaction. rewrite Hty.
  destruct (isAddCode ty) eqn:Hadd; [|reflexivity].
  apply isAddCode_spec in Hadd as [_ Hno]. congruence.
Qed.

(** C2, as the code has it.  The messages [getMessages] returns come
    from rows that are not reactions, and the [lastMessage] of a
    conversation is no reaction row either.  The reactions of a
    returned message are those of the add-reaction rows among the rows
    the query fetched (the [(limit + 1) * 3] newest rows of the
    conversation, dated before the cursor when there is one) whose
    association id, not empty, names the guid of the message once a
    ["p:N/"] or ["bp:"] prefix is stripped; each has the type the
    table gives its code.  A remove-reaction row is attached to no
    message. *)
Theorem C2_reactions_fold_into_targets (h : Host) (self : MessagesDatabase) :
  (forall (conversationId : string) (limit : Z) (before : option Z),
      let fetched := messagesQuery (db self) conversationId limit before in
      let page := slice0 limit (List.filter nonReaction fetched) in
      Forall (fun r : row =>
                r ∈ fetched /\ isReactionMessage (associated_message_type r) = false) page /\
      result_messages (getMessages h self conversationId limit before)
      = reverse (imap (fun i (r : row) =>
                         Message.set_reactions
                           (mapRowToMessage h self i r conversationId)
                           (reactionsOn self fetched (guid r)))
                      page)) /\
  (forall (g : string) (r : row) (reaction : Reaction.t),
      attachedReaction self g r = Some reaction <->
      exists ty reactionType assoc,
        associated_message_type r = Some ty /\ (2000 <= ty <= 2005)%Z /\
        REACTION_TYPE_MAP !! ty = Some reactionType /\
        associated_message_guid r = Some assoc /\ assoc <> ""%string /\
        parentGuidOf assoc = g /\
        reaction = reactionOf self reactionType r) /\
  (forall (g : string) (r : row) (ty : Z),
      associated_message_type r = Some ty -> isRemoveReaction ty = true ->
      attachedReaction self g r = None) /\
  (forall g : string,
      plain g ->
      parentGuidOf ("bp:" +:+ g) = g /\
      (forall num : string,
          num <> ""%string -> forallb is_digit (bytes_of_string num) = true ->
          parentGuidOf ("p:" +:+ num +:+ "/" +:+ g) = g) /\
      (after_prefix (bytes_of_string g) = None -> parentGuidOf g = g)) /\
  Forall (fun conv =>
            exists c, conversation_of_chat (db self) conv c /\
                      isLastMessageOf h self (chat_ROWID c) (Conversation.lastMessage conv))
         (getConversations h self) /\
  (forall (conversationId : string) (conv : Conversation.t),
      getConversation h self conversationId = Some conv ->
      exists c, conversation_of_chat (db self) conv c /\
                isLastMessageOf h self (chat_ROWID c) (Conversation.lastMessage conv)).
Proof.
  split; [|split; [|split; [|split; [|split]]]].
  - intros conversationId limit before fetched page. split.
    + apply Forall_forall. intros r Hr. apply elem_of_slice0 in Hr.
      apply list_elem_of_In, filter_In in Hr as [Hr Hnon]. split.
      * now apply list_elem_of_In.
      * now apply negb_true_iff in Hnon.
    + apply getMessages_messages.
  - apply attachedReaction_Some.
  - apply attachedReaction_remove.
  - intros g Hg. split; [now apply parentGuidOf_bp | split].
    + intros num Hnum Hdigits. now apply parentGuidOf_numbered.
    + now apply parentGuidOf_bare.
  - apply Forall_forall. intros conv Hconv.
    apply elem_of_getConversations in Hconv as (i & c & Hc & ->).
    exists c. split; [now split | apply getLastMessageForChat_spec].
  - intros conversationId conv Hconv.
    apply getConversation_Some in Hconv as (c & Hc & _ & ->).
    exists c. split; [now split | apply getLastMessageForChat_spec].
Qed.

(** C2 on [Sample.folding]: querying the messages
    returns A alone, with the love reaction of B on it. *)
Lemma C2_reactions_fold_into_targets_witness :
  map (fun m => (Message.id m, map Reaction.type (Message.reactions m)))
      (result_messages (getMessages Sample.host Sample.folding "1" 100 None))
  = [("A"%string, [love])].
Proof.
  rewrite (proj2 (proj1 (C2_reactions_fold_into_targets Sample.host Sample.folding)
                        "1"%string 100%Z None)).
  reflexivity.
Defined.

(** C2 as the specification words it fails: B is a love reaction
    whose association id ["p:0/A"] names A, and B is a row of
    conversation 1; a page asked for with a cursor between A and B
    returns A with no reaction. *)
Lemma C2_counterexample :
  mkRow Sample.B (Some "+15551234567"%string)
    ∈ conversationRows (db Sample.folding) (SqlText "1") /\
  associated_message_type Sample.B = Some 2000%Z /\
  getReactionType 2000 = Some love /\
  associated_message_guid Sample.B = Some "p:0/A"%string /\
  parentGuidOf "p:0/A" = "A"%string /\
  map (fun m => (Message.id m, map Reaction.type (Message.reactions m)))
      (result_messages
         (getMessages Sample.host Sample.folding "1" 100 (Some 20000000%Z)))
  = [("A"%string, [])].
Proof.
  split; [|repeat split; vm_compute; reflexivity].
  vm_compute. right. left.
Qed.

(* ================================================================= *)
(** * Further properties of the database layer *)

(* ================================================================= *)
(** ** Display names *)

Lemma length_bytes_of_string (s : string) : length (bytes_of_string s) = String.length s.
Proof.
  unfold bytes_of_string. rewrite length_map.
  induction s as [|c s IH]; simpl; [reflexivity | now rewrite IH].
Qed.

Lemma bytes_of_string_substring (n m : nat) (s : string) :
  bytes_of_string (substring n m s) = take m (drop n (bytes_of_string s)).
Proof.
  unfold bytes_of_string. revert n m.
  induction s as [|c s IH]; intros [|n] [|m]; simpl; try reflexivity.
  - now rewrite (IH 0 m).
  - now rewrite (IH n 0).
  - now rewrite (IH n (S m)).
Qed.

Lemma bytes_of_string_of_bytes (l : list nat) :
  Forall (fun c => c < 256) l -> bytes_of_string (string_of_bytes l) = l.
Proof.
  unfold bytes_of_string, string_of_bytes. rewrite list_ascii_of_string_of_list_ascii.
  induction 1 as [|c l Hc _ IH]; simpl; [reflexivity|].
  now rewrite nat_ascii_embedding, IH.
Qed.

Lemma is_digit_byte (c : nat) : is_digit c = true -> c < 256.
Proof. unfold is_digit. rewrite andb_true_iff, !Nat.leb_le. lia. Qed.

Lemma bytes_strip_non_digits (s : string) :
  bytes_of_string (strip_non_digits s) = List.filter is_digit (bytes_of_string s).
Proof.
  unfold strip_non_digits. apply bytes_of_string_of_bytes.
  rewrite Forall_forall. intros c Hc%list_elem_of_In%filter_In. now apply is_digit_byte.
Qed.

Lemma filter_all {A} (p : A -> bool) (l : list A) :
  Forall (fun x => p x = true) l -> List.filter p l = l.
Proof. induction 1 as [|x l Hx _ IH]; simpl; [reflexivity|]. now rewrite Hx, IH. Qed.

Lemma Forall_filter_true {A} (p : A -> bool) (l : list A) :
  Forall (fun x => p x = true) (List.filter p l).
Proof. rewrite Forall_forall. now intros x Hx%list_elem_of_In%filter_In. Qed.

Lemma strip_non_digits_idem (s : string) :
  strip_non_digits (strip_non_digits s) = strip_non_digits s.
Proof.
  unfold strip_non_digits at 1. rewrite bytes_strip_non_digits.
  now rewrite filter_all by apply Forall_filter_true.
Qed.

Lemma string_eq_bytes (s t : string) : bytes_of_string s = bytes_of_string t -> s = t.
Proof.
  intros H. rewrite <- (string_of_bytes_of_string s), <- (string_of_bytes_of_string t).
  now rewrite H.
Qed.

Lemma includes_at_bytes (s : string) :
  includes_at s = true <-> 64 ∈ bytes_of_string s.
Proof.
  unfold includes_at. rewrite existsb_exists. split.
  - intros (c & Hc & ->%Nat.eqb_eq). now apply list_elem_of_In.
  - intros H. exists 64. split; [now apply list_elem_of_In | reflexivity].
Qed.

(** The two display forms of a phone number. *)
Lemma bytes_national (c : string) :
  bytes_of_string ("(" +:+ slice 0 3 c +:+ ") " +:+ slice 3 6 c +:+ "-" +:+ slice_from 6 c)
  = [40] ++ take 3 (bytes_of_string c) ++ [41; 32]
    ++ take 3 (drop 3 (bytes_of_string c)) ++ [45] ++ drop 6 (bytes_of_string c).
Proof.
  unfold slice, slice_from.
  rewrite !bytes_of_string_app, !bytes_of_string_substring.
  rewrite <- length_bytes_of_string.
  rewrite (take_ge (drop 6 _)) by (rewrite length_drop; lia).
  reflexivity.
Qed.

Lemma bytes_international (c : string) :
  bytes_of_string ("+1 (" +:+ slice 1 4 c +:+ ") " +:+ slice 4 7 c +:+ "-" +:+ slice_from 7 c)
  = [43; 49; 32; 40] ++ take 3 (drop 1 (bytes_of_string c)) ++ [41; 32]
    ++ take 3 (drop 4 (bytes_of_string c)) ++ [45] ++ drop 7 (bytes_of_string c).
Proof.
  unfold slice, slice_from.
  rewrite !bytes_of_string_app, !bytes_of_string_substring.
  rewrite <- length_bytes_of_string.
  rewrite (take_ge (drop 7 _)) by (rewrite length_drop; lia).
  reflexivity.
Qed.

Lemma filter_digits_sub (l : list nat) (k : list nat) :
  Forall (fun x => is_digit x = true) l -> k ⊆ l -> List.filter is_digit k = k.
Proof.
  intros Hl Hk. apply filter_all. rewrite Forall_forall in *. intros x Hx. apply Hl, Hk, Hx.
Qed.

Lemma digits_of_strip (s : string) :
  Forall (fun x => is_digit x = true) (bytes_of_string (strip_non_digits s)).
Proof. rewrite bytes_strip_non_digits. apply Forall_filter_true. Qed.

Lemma strip_digit_string (c : string) :
  Forall (fun x => is_digit x = true) (bytes_of_string c) -> strip_non_digits c = c.
Proof.
  intros H. apply string_eq_bytes. rewrite bytes_strip_non_digits. now apply filter_all.
Qed.

Lemma strip_national (c : string) :
  Forall (fun x => is_digit x = true) (bytes_of_string c) ->
  strip_non_digits
    ("(" +:+ slice 0 3 c +:+ ") " +:+ slice 3 6 c +:+ "-" +:+ slice_from 6 c) = c.
Proof.
  intros H. apply string_eq_bytes. rewrite bytes_strip_non_digits, bytes_national.
  set (cb := bytes_of_string c) in *.
  rewrite !List.filter_app. cbn [List.filter is_digit Nat.leb andb app].
  rewrite (filter_digits_sub cb (take 3 cb)), (filter_digits_sub cb (take 3 (drop 3 cb))),
    (filter_digits_sub cb (drop 6 cb)); try assumption.
  - replace (drop 6 cb) with (drop 3 (drop 3 cb)) by now rewrite drop_drop.
    now rewrite (take_drop 3 (drop 3 cb)), take_drop.
  - apply subseteq_drop.
  - etransitivity; [apply subseteq_take | apply subseteq_drop].
  - apply subseteq_take.
Qed.

Lemma strip_international (c : string) :
  Forall (fun x => is_digit x = true) (bytes_of_string c) ->
  String.eqb (slice 0 1 c) "1" = true ->
  strip_non_digits
    ("+1 (" +:+ slice 1 4 c +:+ ") " +:+ slice 4 7 c +:+ "-" +:+ slice_from 7 c) = c.
Proof.
  intros H Hone. apply String.eqb_eq in Hone.
  apply (f_equal bytes_of_string) in Hone. unfold slice in Hone.
  rewrite bytes_of_string_substring in Hone. cbn [drop Nat.sub] in Hone.
  change (bytes_of_string "1") with [49] in Hone.
  apply string_eq_bytes. rewrite bytes_strip_non_digits, bytes_international.
  set (cb := bytes_of_string c) in *.
  rewrite !List.filter_app. cbn [List.filter is_digit Nat.leb andb app].
  rewrite (filter_digits_sub cb (take 3 (drop 1 cb))),
    (filter_digits_sub cb (take 3 (drop 4 cb))), (filter_digits_sub cb (drop 7 cb));
    try assumption.
  - replace (drop 7 cb) with (drop 3 (drop 4 cb)) by now rewrite drop_drop.
    rewrite (take_drop 3 (drop 4 cb)).
    replace (drop 4 cb) with (drop 3 (drop 1 cb)) by now rewrite drop_drop.
    rewrite (take_drop 3 (drop 1 cb)).
    change (49 :: drop 1 cb) with ([49] ++ drop 1 cb). rewrite <- Hone. apply take_drop.
  - apply subseteq_drop.
  - etransitivity; [apply subseteq_take | apply subseteq_drop].
  - etransitivity; [apply subseteq_take | apply subseteq_drop].
Qed.

(** What [formatHandleIdentifier] returns when no contact name is
    found. *)
Lemma formatHandleIdentifier_unresolved (self : MessagesDatabase) (identifier : string) :
  contactNameOf self identifier = None ->
  formatHandleIdentifier self identifier =
  if String.eqb identifier "" then "Unknown"
  else if includes_at identifier then identifier
  else
    let cleaned := strip_non_digits identifier in
    if String.length cleaned =? 10 then
      "(" +:+ slice 0 3 cleaned +:+ ") " +:+ slice 3 6 cleaned +:+ "-" +:+ slice_from 6 cleaned
    else if (String.length cleaned =? 11) && String.eqb (slice 0 1 cleaned) "1" then
      "+1 (" +:+ slice 1 4 cleaned +:+ ") " +:+ slice 4 7 cleaned +:+ "-"
      +:+ slice_from 7 cleaned
    else identifier.
Proof.
  unfold contactNameOf, formatHandleIdentifier. intros ->. reflexivity.
Qed.

(** X1.  When no contact name is found for an identifier,
    [formatHandleIdentifier] only adds punctuation: the digits of the
    result are the digits of the identifier, in the same order. *)
Theorem formatHandleIdentifier_keeps_digits (self : MessagesDatabase) (identifier : string) :
  contactNameOf self identifier = None ->
  strip_non_digits (formatHandleIdentifier self identifier) = strip_non_digits identifier.
Proof.
  intros Hnone. rewrite (formatHandleIdentifier_unresolved _ _ Hnone).
  destruct (String.eqb_spec identifier "") as [->|_]; [reflexivity|].
  destruct (includes_at identifier); [reflexivity|]. cbn zeta.
  pose proof (digits_of_strip identifier) as Hd.
  destruct (String.length _ =? 10).
  - rewrite strip_national by assumption. reflexivity.
  - destruct (String.length _ =? 11); cbn [andb]; [|reflexivity].
    destruct (String.eqb (slice 0 1 _) "1") eqn:E; [|reflexivity].
    now rewrite strip_international.
Qed.

(** X1 on a number written with spaces, in a database without
    contacts. *)
Lemma formatHandleIdentifier_keeps_digits_witness :
  strip_non_digits (formatHandleIdentifier Sample.folding "+1 555 123 4567") = "15551234567".
Proof.
  rewrite (formatHandleIdentifier_keeps_digits Sample.folding "+1 555 123 4567");
    reflexivity.
Defined.

Lemma not_at_digits (l : list nat) :
  Forall (fun x => is_digit x = true) l -> 64 ∉ l.
Proof. rewrite Forall_forall. intros H Hin. pose proof (H _ Hin). discriminate. Qed.

Lemma includes_at_national (c : string) :
  Forall (fun x => is_digit x = true) (bytes_of_string c) ->
  includes_at
    ("(" +:+ slice 0 3 c +:+ ") " +:+ slice 3 6 c +:+ "-" +:+ slice_from 6 c) = false.
Proof.
  intros H. apply not_true_is_false. rewrite includes_at_bytes, bytes_national.
  pose proof (not_at_digits _ H) as Hno.
  rewrite !elem_of_app, !list_elem_of_singleton, !elem_of_cons, elem_of_nil.
  intros [?|[Hin|[[?|[?|[]]]|[Hin|[?|Hin]]]]]; try discriminate; apply Hno.
  - now apply (subseteq_take 3).
  - now apply (subseteq_drop 3), (subseteq_take 3).
  - now apply (subseteq_drop 6).
Qed.

Lemma includes_at_international (c : string) :
  Forall (fun x => is_digit x = true) (bytes_of_string c) ->
  includes_at
    ("+1 (" +:+ slice 1 4 c +:+ ") " +:+ slice 4 7 c +:+ "-" +:+ slice_from 7 c) = false.
Proof.
  intros H. apply not_true_is_false. rewrite includes_at_bytes, bytes_international.
  pose proof (not_at_digits _ H) as Hno.
  rewrite !elem_of_app, !elem_of_cons, !elem_of_nil.
  intros [[?|[?|[?|[?|[]]]]]|[Hin|[[?|[?|[]]]|[Hin|[[?|[]]|Hin]]]]]; try discriminate;
    apply Hno.
  - now apply (subseteq_drop 1), (subseteq_take 3).
  - now apply (subseteq_drop 4), (subseteq_take 3).
  - now apply (subseteq_drop 7).
Qed.

Lemma append_nonempty (a b : string) : String.eqb a "" = false -> String.eqb (a +:+ b) "" = false.
Proof. destruct a; [discriminate | reflexivity]. Qed.

(** A phone identifier is looked up by the last ten of its digits
    alone. *)
Lemma resolvePhone_digits (r : ContactsResolver) (a b : string) :
  strip_non_digits a = strip_non_digits b -> resolvePhone r a = resolvePhone r b.
Proof. unfold resolvePhone. now intros ->. Qed.

Lemma contactNameOf_phone (self : MessagesDatabase) (a b : string) :
  String.eqb a "" = false -> String.eqb b "" = false ->
  includes_at a = false -> includes_at b = false ->
  strip_non_digits a = strip_non_digits b ->
  contactNameOf self a = contactNameOf self b.
Proof.
  intros Ha Hb Hata Hatb Hd. unfold contactNameOf, resolve.
  destruct (contactsResolver self) as [r|]; [|reflexivity].
  rewrite Ha, Hb, Hata, Hatb. now apply resolvePhone_digits.
Qed.

(** X2.  Formatting is idempotent: when no contact name is found
    for a non-empty identifier, formatting the formatted identifier
    again gives the same string. *)
Theorem formatHandleIdentifier_idempotent (self : MessagesDatabase) (identifier : string) :
  identifier <> "" ->
  contactNameOf self identifier = None ->
  formatHandleIdentifier self (formatHandleIdentifier self identifier)
  = formatHandleIdentifier self identifier.
Proof.
  intros Hne Hnone.
  assert (Hne' : String.eqb identifier "" = false) by now apply String.eqb_neq.
  pose proof (formatHandleIdentifier_unresolved _ _ Hnone) as Hf.
  rewrite Hne' in Hf.
  destruct (includes_at identifier) eqn:Hat; [now rewrite !Hf|].
  cbn zeta in Hf. pose proof (digits_of_strip identifier) as Hd.
  set (c := strip_non_digits identifier) in *.
  assert (Hshape :
    formatHandleIdentifier self identifier = identifier \/
    String.eqb (formatHandleIdentifier self identifier) "" = false /\
    includes_at (formatHandleIdentifier self identifier) = false /\
    strip_non_digits (formatHandleIdentifier self identifier) = c).
  { destruct (String.length c =? 10).
    - right. rewrite Hf. split; [reflexivity|].
      split; [now apply includes_at_national | now apply strip_national].
    - destruct ((String.length c =? 11) && String.eqb (slice 0 1 c) "1") eqn:E.
      + right. rewrite Hf. split; [reflexivity|].
        split; [now apply includes_at_international|].
        apply strip_international; [assumption|]. now apply andb_true_iff in E as [_ E].
      + now left. }
  destruct Hshape as [Hid | (Hne2 & Hat2 & Hdig)]; [now rewrite Hid|].
  assert (Hnone2 : contactNameOf self (formatHandleIdentifier self identifier) = None).
  { rewrite <- Hnone. now apply contactNameOf_phone. }
  rewrite (formatHandleIdentifier_unresolved _ _ Hnone2).
  rewrite Hne2, Hat2. cbn zeta. rewrite Hdig.
  destruct (String.length c =? 10); [now rewrite Hf|].
  destruct ((String.length c =? 11) && String.eqb (slice 0 1 c) "1"); [now rewrite Hf|].
  reflexivity.
Qed.

(** X2 on a ten-digit number written with dashes. *)
Lemma formatHandleIdentifier_idempotent_witness :
  formatHandleIdentifier Sample.folding (formatHandleIdentifier Sample.folding "555-123-4567")
  = "(555) 123-4567".
Proof.
  rewrite (formatHandleIdentifier_idempotent Sample.folding "555-123-4567");
    [reflexivity | discriminate | reflexivity].
Defined.



(** *** Names are never empty *)

Lemma cache_get_nonempty (cache : gmap string string) (key name : string) :
  cache_get cache key = Some name -> String.eqb name "" = false.
Proof.
  unfold cache_get. destruct (cache !! key) as [n|]; [|discriminate].
  destruct (String.eqb n "") eqn:E; [discriminate|]. now intros [= <-].
Qed.

Lemma resolve_nonempty (r : ContactsResolver) (identifier name : string) :
  resolve r identifier = Some name -> String.eqb name "" = false.
Proof.
  unfold resolve, resolveEmail, resolvePhone.
  destruct (String.eqb identifier ""); [discriminate|].
  destruct (includes_at identifier), (cacheBuilt r); cbn [negb]; try discriminate;
    apply cache_get_nonempty.
Qed.

Lemma formatHandleIdentifier_nonempty (self : MessagesDatabase) (identifier : string) :
  String.eqb (formatHandleIdentifier self identifier) "" = false.
Proof.
  destruct (contactNameOf self identifier) as [name|] eqn:E.
  - unfold formatHandleIdentifier. destruct (String.eqb identifier ""); [reflexivity|].
    unfold contactNameOf in E. rewrite E.
    destruct (contactsResolver self) as [r|]; [|discriminate].
    now apply resolve_nonempty in E.
  - rewrite (formatHandleIdentifier_unresolved _ _ E).
    destruct (String.eqb identifier "") eqn:Hne; [reflexivity|].
    destruct (includes_at identifier); [exact Hne|]. cbn zeta.
    destruct (String.length _ =? 10); [reflexivity|].
    destruct (_ && _); [reflexivity | exact Hne].
Qed.

Lemma String_of_Z_nonempty (z : Z) : String.eqb (String_of_Z z) "" = false.
Proof.
  unfold String_of_Z. destruct (Z.to_int z) as [d|d]; [|reflexivity].
  now destruct d.
Qed.

Lemma generateDisplayName_nonempty (participants : list Contact.t) :
  Forall (fun p => String.eqb (Contact.displayName p) "" = false) participants ->
  String.eqb (generateDisplayName participants) "" = false.
Proof.
  intros H. destruct participants as [|p [|q [|r rest]]]; cbn [generateDisplayName].
  - reflexivity.
  - now inversion H.
  - cbn. apply append_nonempty. now inversion H.
  - apply append_nonempty. now inversion H.
Qed.

Lemma getChatParticipants_nonempty (self : MessagesDatabase) (chatId : Z) :
  Forall (fun p => String.eqb (Contact.displayName p) "" = false)
         (getChatParticipants self chatId).
Proof.
  unfold getChatParticipants. rewrite Forall_forall. intros p Hp.
  apply list_elem_of_In, in_map_iff in Hp as (hd & <- & _). cbn.
  apply formatHandleIdentifier_nonempty.
Qed.

Lemma text_or_nonempty (o : option string) (dflt : string) :
  String.eqb dflt "" = false -> String.eqb (text_or o dflt) "" = false.
Proof.
  intros H. destruct o as [s|]; cbn; [|exact H].
  destruct (String.eqb s "") eqn:E; [exact H | exact E].
Qed.

Lemma mapRowToMessage_sender (h : Host) (self : MessagesDatabase) (i : nat) (r : row)
    (conversationId : string) :
  let m := mapRowToMessage h self i r conversationId in
  String.eqb (Message.senderName m) "" = false /\ String.eqb (Message.senderId m) "" = false.
Proof.
  cbn. destruct (truthy_int (is_from_me r)); [now split|]. split.
  - apply formatHandleIdentifier_nonempty.
  - unfold handle_or_unknown. destruct (truthy_int (handle_id r)); [|reflexivity].
    apply String_of_Z_nonempty.
Qed.

Lemma conversationOf_names (h : Host) (self : MessagesDatabase) (i : nat) (r : chat_row) :
  let conv := conversationOf h self i r in
  String.eqb (Conversation.displayName conv) "" = false /\
  Forall (fun p => String.eqb (Contact.displayName p) "" = false)
         (Conversation.participants conv) /\
  forall m, Conversation.lastMessage conv = Some m ->
            String.eqb (Message.senderName m) "" = false /\
            String.eqb (Message.senderId m) "" = false.
Proof.
  cbn. split; [|split].
  - apply text_or_nonempty, generateDisplayName_nonempty, getChatParticipants_nonempty.
  - apply getChatParticipants_nonempty.
  - intros m. unfold getLastMessageForChat.
    destruct (lastMessageQuery _ _) as [|row _]; [discriminate|]. intros [= <-].
    apply mapRowToMessage_sender.
Qed.

Lemma listed_conversationOf (h : Host) (self : MessagesDatabase) (conv : Conversation.t) :
  listed h self conv ->
  exists i c, c ∈ chats (db self) /\ conv = conversationOf h self i (select_chat (db self) c).
Proof.
  intros [H | [cid H]].
  - now apply elem_of_getConversations.
  - apply getConversation_Some in H as (c & Hc & _ & ->). now exists 0, c.
Qed.

(** X3.  Every conversation that [getConversations] or
    [getConversation] returns has a non-empty display name, each of
    its participants has a non-empty display name, and its last
    message, if it has one, has a non-empty sender name and sender
    id. *)
Theorem names_are_never_empty (h : Host) (self : MessagesDatabase) (conv : Conversation.t) :
  listed h self conv ->
  String.eqb (Conversation.displayName conv) "" = false /\
  Forall (fun p => String.eqb (Contact.displayName p) "" = false)
         (Conversation.participants conv) /\
  forall m, Conversation.lastMessage conv = Some m ->
            String.eqb (Message.senderName m) "" = false /\
            String.eqb (Message.senderId m) "" = false.
Proof.
  intros (i & c & _ & ->)%listed_conversationOf. apply conversationOf_names.
Qed.

(** X3 on conversation 1 of [Sample.folding]. *)
Lemma names_are_never_empty_witness :
  exists conv,
    getConversation Sample.host Sample.folding "1" = Some conv /\
    String.eqb (Conversation.displayName conv) "" = false.
Proof.
  destruct (getConversation Sample.host Sample.folding "1") as [conv|] eqn:E;
    [|discriminate E].
  exists conv. split; [reflexivity|].
  apply (names_are_never_empty Sample.host Sample.folding conv). right. now exists "1"%string.
Defined.


(** X4.  A message that is not from me and whose sender is the
    handle of a participant carries that participant's display name
    as its sender name (the handle being non-empty). *)
Theorem sender_names_match_participants (h : Host) (self : MessagesDatabase) (i : nat)
    (chatId : Z) (conversationId : string) (r : row) (p : Contact.t) :
  p ∈ getChatParticipants self chatId ->
  Contact.handleIdentifier p <> "" ->
  truthy_int (is_from_me r) = false ->
  sender_identifier r = Some (Contact.handleIdentifier p) ->
  Message.senderName (mapRowToMessage h self i r conversationId) = Contact.displayName p.
Proof.
  intros Hp Hne Hme Hsender. unfold getChatParticipants in Hp.
  apply list_elem_of_In, in_map_iff in Hp as (hd & <- & _).
  cbn in *. rewrite Hme, Hsender. cbn [text_or].
  now destruct (String.eqb_spec (handle_ident hd) "").
Qed.

(** X4 on message A and Alice, the participant of chat 1. *)
Lemma sender_names_match_participants_witness :
  Message.senderName
    (mapRowToMessage Sample.host Sample.folding 0
       (mkRow Sample.A (Some "+15551234567"%string)) "1")
  = "+1 (555) 123-4567"%string.
Proof.
  rewrite (sender_names_match_participants Sample.host Sample.folding 0 1 "1"
             (mkRow Sample.A (Some "+15551234567"%string))
             (Contact.mk "1" "+1 (555) 123-4567" "+15551234567" None None false)).
  - reflexivity.
  - vm_compute. left.
  - discriminate.
  - reflexivity.
  - reflexivity.
Defined.


(* ================================================================= *)
(** ** Conversation ids *)

Lemma digits_value_uint (acc : Z) (d : Decimal.uint) :
  digits_value acc (bytes_of_string (NilEmpty.string_of_uint d)) = uint_value acc d.
Proof.
  revert acc. induction d; intros acc; cbn [NilEmpty.string_of_uint uint_value];
    [reflexivity | ..];
    (change (bytes_of_string (String ?c ?s)) with (nat_of_ascii c :: bytes_of_string s);
     cbn [digits_value nat_of_ascii]; apply IHd).
Qed.

Lemma uint_value_acc (a : positive) (d : Decimal.uint) :
  uint_value (Zpos a) d = Zpos (Pos.of_uint_acc d a).
Proof.
  revert a. induction d; intros a; cbn [uint_value Pos.of_uint_acc]; [reflexivity | ..];
    rewrite <- IHd; f_equal; lia.
Qed.

Lemma uint_value_0 (d : Decimal.uint) : uint_value 0 d = Z.of_N (Pos.of_uint d).
Proof.
  induction d; cbn [uint_value Pos.of_uint]; [reflexivity | exact IHd | ..];
    exact (uint_value_acc _ d).
Qed.

Lemma uint_value_to_uint (p : positive) : uint_value 0 (Pos.to_uint p) = Zpos p.
Proof. now rewrite uint_value_0, DecimalPos.Unsigned.of_to. Qed.

Lemma to_uint_not_Nil (p : positive) : Pos.to_uint p <> Decimal.Nil.
Proof.
  intros H. pose proof (DecimalPos.Unsigned.of_to p) as E. rewrite H in E. discriminate.
Qed.

Lemma uint_all_digits (d : Decimal.uint) :
  Forall (fun c => is_digit c = true) (bytes_of_string (NilEmpty.string_of_uint d)).
Proof.
  induction d; cbn [NilEmpty.string_of_uint]; [constructor | ..];
    (change (bytes_of_string (String ?c ?s)) with (nat_of_ascii c :: bytes_of_string s);
     constructor; [reflexivity | exact IHd]).
Qed.

Lemma span_digits_all (ds : list nat) :
  Forall (fun c => is_digit c = true) ds -> span_digits ds = (ds, []).
Proof.
  induction 1 as [|c ds Hc _ IH]; [reflexivity|].
  cbn [span_digits]. now rewrite Hc, IH.
Qed.

(** A text of digits, with or without a minus sign before them, is
    read as the literal it is. *)
Lemma read_numeral_digits (minus : bool) (c : nat) (ds : list nat) :
  Forall (fun c => is_digit c = true) (c :: ds) ->
  read_numeral (if minus then 45 :: c :: ds else c :: ds)
  = Some (mkNumeral minus (c :: ds) None None).
Proof.
  intros Hds. pose proof (span_digits_all _ Hds) as Hspan.
  apply Forall_cons in Hds as [Hc _].
  unfold is_digit in Hc. apply andb_true_iff in Hc as [Hlo%Nat.leb_le Hhi%Nat.leb_le].
  assert (Hs : is_space c = false).
  { unfold is_space. destruct (Nat.eqb_spec c 32); [lia|].
    destruct (Nat.leb_spec c 13); [lia|]. now rewrite andb_false_r. }
  assert (Hsign : read_sign (c :: ds) = (false, c :: ds)).
  { unfold read_sign. destruct (Nat.eqb_spec c 45); [lia|].
    now destruct (Nat.eqb_spec c 43); [lia|]. }
  unfold read_numeral.
  assert (Hstart : read_sign (skip_spaces (if minus then 45 :: c :: ds else c :: ds))
                   = (minus, c :: ds)).
  { destruct minus; [reflexivity|]. cbn [skip_spaces]. now rewrite Hs. }
  rewrite Hstart, Hspan. reflexivity.
Qed.

Lemma uint_bytes_cons (d : Decimal.uint) :
  d <> Decimal.Nil ->
  exists c ds, bytes_of_string (NilEmpty.string_of_uint d) = c :: ds.
Proof. destruct d; [contradiction | ..]; intros _; eexists _, _; reflexivity. Qed.

Lemma numeric_of_text_uint (minus : bool) (d : Decimal.uint) :
  d <> Decimal.Nil ->
  let z := (if minus then - uint_value 0 d else uint_value 0 d)%Z in
  (- 2 ^ 63 <= z < 2 ^ 63)%Z ->
  numeric_of_text (if minus then String "-" (NilEmpty.string_of_uint d)
                   else NilEmpty.string_of_uint d)
  = Some (NumInt z).
Proof.
  intros Hd z Hz. unfold numeric_of_text.
  assert (Hbytes : bytes_of_string (if minus then String "-" (NilEmpty.string_of_uint d)
                                    else NilEmpty.string_of_uint d)
                   = if minus then 45 :: bytes_of_string (NilEmpty.string_of_uint d)
                     else bytes_of_string (NilEmpty.string_of_uint d))
    by now destruct minus.
  rewrite Hbytes. pose proof (uint_all_digits d) as Hall.
  destruct (uint_bytes_cons d Hd) as (c & ds & E). rewrite E in Hall |- *.
  rewrite (read_numeral_digits minus c ds Hall).
  cbn [fraction exponent negative whole]. rewrite <- E, digits_value_uint. fold z.
  destruct (Z.leb_spec (- 2 ^ 63) z); [|lia].
  now destruct (Z.ltb_spec z (2 ^ 63)); [|lia].
Qed.

(** The id the API hands out for a ROWID is read back as that ROWID. *)
Lemma integer_of_text_String_of_Z (z : Z) :
  (- 2 ^ 63 <= z < 2 ^ 63)%Z -> integer_of_text (String_of_Z z) = Some z.
Proof.
  intros Hz. unfold integer_of_text, String_of_Z.
  destruct z as [|p|p]; cbn [Z.to_int NilZero.string_of_int].
  - reflexivity.
  - pose proof (to_uint_not_Nil p) as Hn.
    replace (NilZero.string_of_uint (Pos.to_uint p))
      with (NilEmpty.string_of_uint (Pos.to_uint p)) by now destruct (Pos.to_uint p).
    rewrite (numeric_of_text_uint false _ Hn); now rewrite uint_value_to_uint.
  - pose proof (to_uint_not_Nil p) as Hn.
    replace (NilZero.string_of_uint (Pos.to_uint p))
      with (NilEmpty.string_of_uint (Pos.to_uint p)) by now destruct (Pos.to_uint p).
    rewrite (numeric_of_text_uint true _ Hn); now rewrite uint_value_to_uint.
Qed.

Lemma safe_integer_int64 (z : Z) : safe_integer z -> (- 2 ^ 63 <= z < 2 ^ 63)%Z.
Proof. unfold safe_integer. lia. Qed.

Lemma String_of_Z_inj (a b : Z) : String_of_Z a = String_of_Z b -> a = b.
Proof.
  unfold String_of_Z. intros H.
  assert (Hn : forall z, Z.to_int z <> Decimal.Pos Decimal.Nil /\
                         Z.to_int z <> Decimal.Neg Decimal.Nil).
  { intros [|p|p]; split; try discriminate; cbn [Z.to_int]; intros [= E];
      now apply (to_uint_not_Nil p). }
  apply (f_equal NilZero.int_of_string) in H.
  rewrite !NilZero.isi in H by apply Hn.
  injection H as H. apply (f_equal Z.of_int) in H. now rewrite !DecimalZ.of_to in H.
Qed.

(** *** Conversation ids *)

Lemma getConversations_ids (h : Host) (self : MessagesDatabase) :
  Conversation.id <$> getConversations h self
  = (fun r => String_of_Z (chat_id r)) <$> conversationsQuery (db self).
Proof.
  unfold getConversations. rewrite fmap_imap. unfold compose; cbn.
  generalize (conversationsQuery (db self)). intros l.
  induction l as [|r l IH] using rev_ind; [reflexivity|].
  rewrite imap_app, fmap_app, IH. reflexivity.
Qed.

Lemma map_filter_comm {A B} (f : A -> B) (p : B -> bool) (l : list A) :
  List.filter p (map f l) = map f (List.filter (fun x => p (f x)) l).
Proof.
  induction l as [|x l IH]; simpl; [reflexivity|]. destruct (p (f x)); simpl; now rewrite IH.
Qed.

Lemma NoDup_fmap_filter {A B} (f : A -> B) (p : A -> bool) (l : list A) :
  NoDup (f <$> l) -> NoDup (f <$> List.filter p l).
Proof.
  induction l as [|x l IH]; simpl; [constructor|].
  rewrite !NoDup_cons. intros [Hx Hl]. destruct (p x); [|now apply IH].
  cbn. rewrite NoDup_cons. split; [|now apply IH].
  intros (y & Hy & Hin)%list_elem_of_fmap. apply Hx, list_elem_of_fmap. exists y.
  split; [assumption|]. now apply list_elem_of_In, filter_In in Hin as [Hin%list_elem_of_In _].
Qed.

Lemma conversationsQuery_rowids (d : Database) :
  NoDup (chat_ROWID <$> chats d) -> NoDup (chat_id <$> conversationsQuery d).
Proof.
  intros H. unfold conversationsQuery.
  rewrite (order_by_desc_perm last_message_date).
  rewrite map_filter_comm.
  change (chat_id <$> map (select_chat d) ?l) with (chat_id <$> (select_chat d <$> l)).
  rewrite <- list_fmap_compose. now apply (NoDup_fmap_filter chat_ROWID).
Qed.

(** X5.  When the chats have distinct ROWIDs, all of them
    integers that a JavaScript number holds exactly (below 2^53), the
    conversations that [getConversations] returns have distinct
    ids. *)
Theorem conversation_ids_are_distinct (h : Host) (self : MessagesDatabase) :
  safe_rowids (db self) ->
  NoDup (chat_ROWID <$> chats (db self)) ->
  NoDup (Conversation.id <$> getConversations h self).
Proof.
  intros _ H. rewrite getConversations_ids.
  rewrite (list_fmap_compose chat_id String_of_Z).
  apply NoDup_fmap_2; [|now apply conversationsQuery_rowids].
  intros a b. apply String_of_Z_inj.
Qed.

(** X5 on the two chats of [Sample.two_chats]. *)
Lemma conversation_ids_are_distinct_witness :
  NoDup (Conversation.id <$> getConversations Sample.host Sample.two_chats).
Proof.
  apply (conversation_ids_are_distinct Sample.host Sample.two_chats).
  - repeat constructor; vm_compute; reflexivity.
  - apply (bool_decide_unpack _). vm_compute. exact I.
Defined.

Lemma filter_rowid_singleton (l : list chat) (c : chat) :
  NoDup (chat_ROWID <$> l) -> c ∈ l ->
  List.filter (fun c' => (chat_ROWID c' =? chat_ROWID c)%Z) l = [c].
Proof.
  induction l as [|x l IH]; [now intros _ ?%elem_of_nil|].
  cbn. rewrite NoDup_cons. intros [Hx Hl] Hin.
  assert (Hnone : forall k, chat_ROWID c ∉ chat_ROWID <$> k ->
            List.filter (fun c' => (chat_ROWID c' =? chat_ROWID c)%Z) k = []).
  { induction k as [|y k IHk]; [reflexivity|]. cbn. rewrite not_elem_of_cons.
    intros [Hy Hk]. destruct (Z.eqb_spec (chat_ROWID y) (chat_ROWID c)); [congruence|].
    now apply IHk. }
  apply elem_of_cons in Hin as [-> | Hin].
  - rewrite Z.eqb_refl. f_equal. now apply Hnone.
  - destruct (Z.eqb_spec (chat_ROWID x) (chat_ROWID c)) as [E|_]; [|now apply IH].
    exfalso. apply Hx. rewrite E. now apply list_elem_of_fmap_2.
Qed.

Lemma conversationQuery_listed (d : Database) (c : chat) :
  safe_integer (chat_ROWID c) ->
  NoDup (chat_ROWID <$> chats d) -> c ∈ chats d ->
  conversationQuery d (String_of_Z (chat_ROWID c)) = [select_chat d c].
Proof.
  intros Hsafe Hnd Hc. unfold conversationQuery.
  rewrite (filter_ext _ (fun c' => (chat_ROWID c' =? chat_ROWID c)%Z)).
  - now rewrite filter_rowid_singleton.
  - intros c'. unfold rowid_eq_text.
    now rewrite integer_of_text_String_of_Z by now apply safe_integer_int64.
Qed.

(** The number of the conversion matters to a message only through
    the clock: a dated row gives the same message whenever it is
    converted, a row without a date one that differs by the reading
    of the clock. *)
Lemma mapRowToMessage_clock (h : Host) (self : MessagesDatabase) (i j : nat) (r : row)
    (conversationId : string) :
  let m := mapRowToMessage h self i r conversationId in
  let m' := mapRowToMessage h self j r conversationId in
  m' = m \/ (Message.timestamp m = now h i /\ m' = stamped m (now h j)).
Proof.
  cbn zeta. destruct (truthy_int (date r)) eqn:Hdate.
  - left. unfold mapRowToMessage, timestampOf. now rewrite Hdate.
  - right.
    assert (Hnone : date r = None \/ date r = Some 0%Z).
    { destruct (date r) as [t|]; [right | now left]. unfold truthy_int in Hdate.
      apply negb_false_iff, Z.eqb_eq in Hdate. now rewrite Hdate. }
    unfold mapRowToMessage, stamped.
    cbn [Message.id Message.conversationId Message.text Message.senderId Message.senderName
         Message.timestamp Message.isFromMe Message.isRead Message.isSent
         Message.isDelivered Message.attachments Message.reactions
         Message.associatedMessageGuid Message.associatedMessageType
         Message.expressiveSendStyleId].
    now rewrite !(timestampOf_clock _ _ _ Hnone).
Qed.

(** X6.  When the chats have distinct ROWIDs, all of them below
    2^53, [getConversation] called with the id of a conversation that
    [getConversations] lists finds it: the result has the same id,
    display name, participants, unread count and group flag.  Its
    last message is the same; only when the timestamp of the listed
    one is a reading of the clock (its row has no date) does the
    message found differ, by carrying the reading taken for it. *)
Theorem listed_conversation_is_found (h : Host) (self : MessagesDatabase)
    (conv : Conversation.t) :
  safe_rowids (db self) ->
  NoDup (chat_ROWID <$> chats (db self)) ->
  conv ∈ getConversations h self ->
  exists found,
    getConversation h self (Conversation.id conv) = Some found /\
    Conversation.id found = Conversation.id conv /\
    Conversation.displayName found = Conversation.displayName conv /\
    Conversation.participants found = Conversation.participants conv /\
    Conversation.unreadCount found = Conversation.unreadCount conv /\
    Conversation.isGroup found = Conversation.isGroup conv /\
    match Conversation.lastMessage conv, Conversation.lastMessage found with
    | Some m, Some m' =>
        m' = m \/
        ((exists i, Message.timestamp m = now h i) /\ m' = stamped m (now h 0))
    | None, None => True
    | _, _ => False
    end.
Proof.
  intros Hsafe Hnd (i & c & Hc & ->)%elem_of_getConversations.
  exists (conversationOf h self 0 (select_chat (db self) c)).
  unfold getConversation. cbn [Conversation.id conversationOf select_chat chat_id].
  rewrite conversationQuery_listed;
    [|exact (proj1 (Forall_forall _ _) Hsafe c Hc) | assumption | assumption].
  repeat (split; [reflexivity|]).
  cbn. unfold getLastMessageForChat.
  destruct (lastMessageQuery (db self) (chat_ROWID c)) as [|r rest]; [exact I|].
  destruct (mapRowToMessage_clock h self i 0 r (String_of_Z (chat_ROWID c))) as [E | [Ht E]].
  - now left.
  - right. split; [now exists i | exact E].
Qed.

(** X6 on conversation 2 of [Sample.two_chats]. *)
Lemma listed_conversation_is_found_witness :
  exists found,
    getConversation Sample.host Sample.two_chats "2" = Some found /\
    Conversation.unreadCount found = 1%Z.
Proof.
  set (conv := conversationOf Sample.host Sample.two_chats 1
                 (select_chat (db Sample.two_chats) (mkChat 2 None None None))).
  destruct (listed_conversation_is_found Sample.host Sample.two_chats conv)
    as (found & Hfound & _ & _ & _ & Hunread & _).
  - repeat constructor; vm_compute; reflexivity.
  - apply (bool_decide_unpack _). vm_compute. exact I.
  - vm_compute. right. left.
  - exists found. split; [exact Hfound | rewrite Hunread; reflexivity].
Defined.


(* ================================================================= *)
(** ** Pages of messages *)

(** *** The size of a page *)

Lemma length_getMessages (h : Host) (self : MessagesDatabase) (conversationId : string)
    (limit : Z) (before : option Z) :
  length (result_messages (getMessages h self conversationId limit before))
  = length (slice0 limit (List.filter nonReaction
                            (messagesQuery (db self) conversationId limit before))).
Proof.
  rewrite getMessages_messages. cbn zeta. now rewrite length_reverse, length_imap.
Qed.

(** X7.  For a limit that is not negative, [getMessages] returns
    at most [limit] messages; when [hasMore] is true it returns
    exactly [limit], and when [hasMore] is false it returns every
    fetched row that is not a reaction. *)
Theorem page_size_and_hasMore (h : Host) (self : MessagesDatabase) (conversationId : string)
    (limit : Z) (before : option Z) :
  (0 <= limit)%Z ->
  let page := getMessages h self conversationId limit before in
  (Z.of_nat (length (result_messages page)) <= limit)%Z /\
  (hasMore page = true -> Z.of_nat (length (result_messages page)) = limit) /\
  (hasMore page = false ->
   length (result_messages page)
   = length (List.filter nonReaction (messagesQuery (db self) conversationId limit before))).
Proof.
  intros Hl page. subst page. rewrite length_getMessages, getMessages_hasMore.
  rewrite slice0_take by assumption. rewrite length_take.
  set (n := length (List.filter nonReaction _)).
  rewrite Z.ltb_lt, Z.ltb_ge. lia.
Qed.

(** X7 on [Sample.emoji] with [limit = 1]. *)
Lemma page_size_and_hasMore_witness :
  let page := getMessages Sample.host Sample.emoji "1" 1 None in
  (Z.of_nat (length (result_messages page)) <= 1)%Z /\
  (hasMore page = true -> Z.of_nat (length (result_messages page)) = 1%Z) /\
  (hasMore page = false ->
   length (result_messages page)
   = length (List.filter nonReaction (messagesQuery (db Sample.emoji) "1" 1 None))).
Proof.
  apply (page_size_and_hasMore Sample.host Sample.emoji "1" 1 None). lia.
Defined.



(** *** The cursor *)

Lemma elem_of_sql_limit {A} (n : Z) (l : list A) (x : A) : x ∈ sql_limit n l -> x ∈ l.
Proof.
  unfold sql_limit. destruct (n <? 0)%Z; [trivial|]. apply subseteq_take.
Qed.

Lemma elem_of_getMessages (h : Host) (self : MessagesDatabase) (conversationId : string)
    (limit : Z) (before : option Z) (m : Message.t) :
  m ∈ result_messages (getMessages h self conversationId limit before) ->
  exists (i : nat) (r : row),
    r ∈ messagesQuery (db self) conversationId limit before /\
    nonReaction r = true /\
    without_reactions m = mapRowToMessage h self i r conversationId.
Proof.
  rewrite getMessages_messages. cbn zeta. rewrite elem_of_reverse.
  intros (i & r & -> & Hr)%elem_of_lookup_imap.
  apply list_elem_of_lookup_2, elem_of_slice0, list_elem_of_In, filter_In in Hr as [Hr Hnr].
  exists i, r. split; [now apply list_elem_of_In | split; [assumption | reflexivity]].
Qed.

(** X9.  With a cursor other than 0, every message of the page
    comes from a row of the conversation that is not a reaction and
    whose date is not NULL and strictly below the cursor. *)
Theorem cursor_bounds_the_page (h : Host) (self : MessagesDatabase) (conversationId : string)
    (limit cursor : Z) (m : Message.t) :
  cursor <> 0%Z ->
  m ∈ result_messages (getMessages h self conversationId limit (Some cursor)) ->
  exists (i : nat) (r : row) (t : Z),
    r ∈ conversationRows (db self) (SqlText conversationId) /\
    date r = Some t /\ (t < cursor)%Z /\
    nonReaction r = true /\
    without_reactions m = mapRowToMessage h self i r conversationId.
Proof.
  intros Hc (i & r & Hr & Hnr & Hm)%elem_of_getMessages.
  unfold messagesQuery in Hr. apply elem_of_sql_limit in Hr.
  rewrite (order_by_desc_perm row_date) in Hr.
  assert (Htruthy : truthy_int (Some cursor) = true).
  { cbn. now apply negb_true_iff, Z.eqb_neq. }
  rewrite Htruthy in Hr. cbn [int_or_zero] in Hr.
  apply elem_of_selectMessages_where in Hr as [Hrows Hbefore].
  unfold date_before in Hbefore. destruct (date r) as [t|] eqn:Hd; [|discriminate].
  exists i, r, t. repeat split; try assumption. now apply Z.ltb_lt.
Qed.

(** X9 on [Sample.folding] with the cursor between A and the
    tapback B: the page holds A. *)
Lemma cursor_bounds_the_page_witness :
  exists (i : nat) (r : row) (t : Z),
    r ∈ conversationRows (db Sample.folding) (SqlText "1") /\
    date r = Some t /\ (t < 20000000)%Z /\
    nonReaction r = true /\
    mapRowToMessage Sample.host Sample.folding 0
      (mkRow Sample.A (Some "+15551234567"%string)) "1"
    = mapRowToMessage Sample.host Sample.folding i r "1".
Proof.
  apply (cursor_bounds_the_page Sample.host Sample.folding "1" 100 20000000
           (mapRowToMessage Sample.host Sample.folding 0
              (mkRow Sample.A (Some "+15551234567"%string)) "1")).
  - discriminate.
  - vm_compute. left.
Defined.

(** X10.  Every message of a page carries the conversation id that
    [getMessages] was called with; the last message of a conversation
    carries the id of that conversation, and never any reactions. *)
Theorem messages_name_their_conversation (h : Host) (self : MessagesDatabase) :
  (forall conversationId limit before m,
      m ∈ result_messages (getMessages h self conversationId limit before) ->
      Message.conversationId m = conversationId) /\
  (forall conv m,
      listed h self conv -> Conversation.lastMessage conv = Some m ->
      Message.conversationId m = Conversation.id conv /\ Message.reactions m = []).
Proof.
  split.
  - intros cid limit before m (i & r & _ & _ & Hm)%elem_of_getMessages.
    apply (f_equal Message.conversationId) in Hm. exact Hm.
  - intros conv m (i & c & _ & ->)%listed_conversationOf. cbn.
    unfold getLastMessageForChat. destruct (lastMessageQuery _ _); [discriminate|].
    now intros [= <-].
Qed.


(* ================================================================= *)
(** ** Reading a typedstream record *)

Lemma whitespace_len_ascii (c : nat) (rest : list nat) :
  33 <= c <= 126 -> whitespace_len (c :: rest) = 0.
Proof.
  intros H. do 127 (destruct c as [|c]; [try lia; reflexivity|]). lia.
Qed.

Lemma whitespace_len_rev_tail (rest : list nat) :
  match rest with
  | 128 :: 226 :: _ => 0
  | _ => 0
  end = 0.
Proof.
  destruct rest as [|a rest]; [reflexivity|].
  do 129 (destruct a as [|a]; [try reflexivity|]); [|reflexivity].
  destruct rest as [|b rest]; [reflexivity|].
  do 227 (destruct b as [|b]; [reflexivity|]). reflexivity.
Qed.

Lemma whitespace_len_rev_ascii (c : nat) (rest : list nat) :
  33 <= c <= 126 -> whitespace_len_rev (c :: rest) = 0.
Proof.
  intros H. do 33 (destruct c as [|c]; [lia|]).
  do 94 (destruct c as [|c]; [lazy; exact (whitespace_len_rev_tail rest)|]). lia.
Qed.

Lemma strip_controls_rev_ascii (c : nat) (rest : list nat) :
  32 <= c <= 126 -> strip_controls_rev (c :: rest) = c :: rest.
Proof.
  intros H. cbn [strip_controls_rev].
  destruct (Nat.leb_spec c 31); [lia|].
  destruct (Nat.leb_spec 128 c); [lia|]. cbn [andb].
  destruct rest as [|a rest]; [reflexivity|].
  do 195 (destruct a as [|a]; [reflexivity|]). reflexivity.
Qed.

Lemma trim_printable (c d : nat) (middle : list nat) :
  33 <= c <= 126 -> 33 <= d <= 126 ->
  trim (c :: middle ++ [d]) = c :: middle ++ [d] /\ trim [c] = [c].
Proof.
  intros Hc Hd. unfold trim. split.
  - cbn [trim_with]. rewrite whitespace_len_ascii by assumption.
    change (c :: middle ++ [d]) with ((c :: middle) ++ [d]). rewrite rev_unit.
    cbn [trim_with]. rewrite whitespace_len_rev_ascii by assumption.
    now rewrite <- rev_unit, rev_involutive.
  - cbn [trim_with]. rewrite whitespace_len_ascii by assumption. cbn [rev app trim_with].
    now rewrite whitespace_len_rev_ascii.
Qed.

Lemma utf8_fold_ascii (bytes out : list nat) :
  Forall (fun c => c <= 127) bytes ->
  fold_left utf8_step bytes (utf8_idle, out) = (utf8_idle, rev bytes ++ out).
Proof.
  intros H. revert out. induction H as [|c bytes Hc _ IH]; intros out; [reflexivity|].
  cbn [fold_left utf8_step utf8_idle needed Nat.eqb]. unfold utf8_lead.
  destruct (Nat.leb_spec c 127); [|lia].
  rewrite IH. cbn [rev]. now rewrite <- app_assoc.
Qed.

Lemma utf8_decode_ascii (bytes : list nat) :
  Forall (fun c => c <= 127) bytes -> utf8_decode bytes = bytes.
Proof.
  intros H. unfold utf8_decode. rewrite utf8_fold_ascii by assumption.
  cbn. now rewrite app_nil_r, rev_involutive.
Qed.

(** *** Finding the marker *)

Lemma starts_with_true (needle hay : list nat) :
  starts_with needle hay = true <-> begins_with needle hay.
Proof.
  split; [apply starts_with_inv|]. intros [rest ->]. apply starts_with_app.
Qed.

Lemma marker_not_inside (front rest : list nat) :
  front <> [] -> ~ contains nsStringMarker front ->
  starts_with nsStringMarker (front ++ nsStringMarker ++ rest) = false.
Proof.
  intros Hne Hno. apply not_true_is_false. intros H.
  destruct front as [|p1 [|p2 [|p3 [|p4 [|p5 [|p6 [|p7 [|p8 tail]]]]]]]];
    [contradiction | ..]; cbn in H;
    repeat (apply andb_true_iff in H as [? H]);
    try discriminate;
    repeat match goal with E : (_ =? _) = true |- _ => apply Nat.eqb_eq in E end;
    try discriminate.
  subst. apply Hno. now exists [], tail.
Qed.

Lemma indexOf_from_here (i : nat) (needle rest : list nat) :
  indexOf_from i needle (needle ++ rest) = Some i.
Proof.
  pose proof (starts_with_app needle rest) as H.
  destruct (needle ++ rest); simpl; now rewrite H.
Qed.

Lemma indexOf_marker (i : nat) (front rest : list nat) :
  ~ contains nsStringMarker front ->
  indexOf_from i nsStringMarker (front ++ nsStringMarker ++ rest) = Some (i + length front).
Proof.
  revert i. induction front as [|x front IH]; intros i Hno.
  - cbn [app length]. rewrite Nat.add_0_r. apply indexOf_from_here.
  - pose proof (marker_not_inside (x :: front) rest) as Hout.
    cbn [app indexOf_from length]. cbn [app] in Hout. rewrite Hout; [|discriminate|assumption].
    rewrite IH; [f_equal; lia|].
    intros (a & b & ->). apply Hno. now exists (x :: a), b.
Qed.



(** *** Reading the record *)

Lemma lor_shiftl_8 (hi lo : nat) : lo < 256 -> Nat.lor (Nat.shiftl hi 8) lo = hi * 256 + lo.
Proof.
  intros Hlo. rewrite Nat.shiftl_mul_pow2. change (2 ^ 8) with 256.
  assert (Hland : Nat.land (hi * 256) lo = 0).
  { apply Nat.bits_inj. intros m. rewrite Nat.land_spec, Nat.bits_0.
    destruct (Nat.lt_ge_cases m 8) as [Hm|Hm].
    - change 256 with (2 ^ 8). now rewrite Nat.mul_pow2_bits_low.
    - destruct (Nat.eq_dec lo 0) as [->|Hnz]; [now rewrite Nat.bits_0, andb_false_r|].
      rewrite (Nat.bits_above_log2 lo m), andb_false_r; [reflexivity|].
      apply Nat.log2_lt_pow2; [lia|].
      apply Nat.lt_le_trans with (2 ^ 8); [exact Hlo|]. now apply Nat.pow_le_mono_r. }
  now rewrite <- Nat.lxor_lor, <- Nat.add_nocarry_lxor.
Qed.

Lemma at0_skip (a b : list nat) (i : nat) : at0 (a ++ b) (length a + i) = at0 b i.
Proof. unfold at0. apply app_nth2_plus. Qed.

Lemma at_is_skip (a b : list nat) (i v : nat) :
  at_is (a ++ b) (length a + i) v = at_is b i v.
Proof.
  unfold at_is, at_. rewrite nth_error_app2 by lia.
  now replace (length a + i - length a) with i by lia.
Qed.

Lemma subarray_skip (a b : list nat) (i j : nat) :
  subarray (length a + i) (length a + j) (a ++ b) = subarray i j b.
Proof.
  unfold subarray. replace (length a + j - (length a + i)) with (j - i) by lia.
  f_equal. rewrite skipn_app, skipn_all2 by lia.
  now replace (length a + i - length a) with i by lia.
Qed.

Lemma readLength_skip (a b : list nat) (i : nat) :
  readLength (a ++ b) (length a + i)
  = (fst (readLength b i), length a + snd (readLength b i)).
Proof.
  unfold readLength. rewrite at0_skip, length_app.
  replace (length a + i + 1) with (length a + (i + 1)) by lia.
  replace (length a + (i + 1) + 1) with (length a + (i + 1 + 1)) by lia.
  replace (length a + (i + 1) + 2) with (length a + (i + 1 + 2)) by lia.
  rewrite !at0_skip, !at_is_skip.
  replace (length a + (i + 1) <? length a + length b) with (i + 1 <? length b)
    by (destruct (Nat.ltb_spec (i + 1) (length b)), (Nat.ltb_spec (length a + (i + 1))
          (length a + length b)); lia).
  replace (length a + (i + 1 + 1) <? length a + length b) with (i + 1 + 1 <? length b)
    by (destruct (Nat.ltb_spec (i + 1 + 1) (length b)),
          (Nat.ltb_spec (length a + (i + 1 + 1)) (length a + length b)); lia).
  replace (length a + (i + 1 + 2) <? length a + length b) with (i + 1 + 2 <? length b)
    by (destruct (Nat.ltb_spec (i + 1 + 2) (length b)),
          (Nat.ltb_spec (length a + (i + 1 + 2)) (length a + length b)); lia).
  repeat match goal with |- context [if ?c then _ else _] => destruct c end;
    cbn [fst snd]; f_equal; lia.
Qed.

Lemma readLength_record (lf tb post : list nat) (n c : nat) (rest : list nat) :
  encodes_length lf n -> tb = c :: rest -> c <> 0 ->
  readLength (lf ++ tb ++ post) 0 = (n, length lf).
Proof.
  intros Henc -> Hc. destruct Henc as [n Hn | n Hn | hi lo Hhi Hlo]; unfold readLength.
  - cbn [app at0 nth]. destruct (Nat.leb_spec 128 n); [lia | reflexivity].
  - cbn [app at0 nth Nat.leb Nat.sub Nat.eqb Nat.add length Nat.ltb andb].
    unfold at_is, at_. cbn [nth_error].
    now destruct (Nat.eqb_spec c 0).
  - cbn [app at0 nth Nat.leb Nat.sub Nat.eqb Nat.add length Nat.ltb andb].
    unfold at_is, at_. cbn [nth_error].
    destruct (Nat.eqb_spec c 0); [contradiction|]. now rewrite lor_shiftl_8.
Qed.

(** *** The record is read back *)

Lemma printable_bytes (s : string) :
  printable s ->
  exists c rest,
    bytes_of_string s = c :: rest /\ 33 <= c <= 126 /\
    Forall (fun c => c <= 127) (bytes_of_string s) /\
    trim (rev (strip_controls_rev (rev (bytes_of_string s)))) = bytes_of_string s.
Proof.
  intros (Hall & (c & rest & Hb & Hc) & (d & front & He & Hd)).
  assert (Hc' : 33 <= c <= 126).
  { rewrite Hb in Hall. apply Forall_cons in Hall as [? _]. lia. }
  assert (Hd' : 33 <= d <= 126).
  { rewrite He in Hall. apply Forall_app in Hall as [_ Hall].
    apply Forall_cons in Hall as [? _]. lia. }
  exists c, rest. split; [assumption|]. split; [assumption|]. split.
  - eapply Forall_impl; [exact Hall|]. cbn. lia.
  - rewrite He at 1. rewrite rev_unit, strip_controls_rev_ascii by lia.
    rewrite <- rev_unit, rev_involutive, <- He.
    destruct front as [|x front].
    + rewrite He. cbn [app] in *. replace d with c by congruence.
      now apply (trim_printable c c []).
    + rewrite He. cbn [app]. cbn [app] in He. replace x with c by congruence.
      now apply trim_printable.
Qed.

Lemma scan_record (front header lf post : list nat) (text : string) :
  ~ contains nsStringMarker front ->
  length header = 4 ->
  encodes_length lf (String.length text) ->
  printable text ->
  scanTypedstream
    (front ++ nsStringMarker ++ header ++ [43] ++ lf ++ bytes_of_string text ++ post)
  = JStr text.
Proof.
  intros Hno Hh Henc Hp.
  destruct (printable_bytes _ Hp) as (c & rest & Hb & Hc & Hascii & Hclean).
  set (tb := bytes_of_string text) in *.
  set (buf := front ++ _).
  assert (Hbuf : buf = (front ++ nsStringMarker ++ header ++ [43]) ++ lf ++ tb ++ post).
  { unfold buf. now rewrite <- !app_assoc. }
  set (G := front ++ nsStringMarker ++ header ++ [43]) in *.
  assert (HG : length G = length front + length nsStringMarker + 4 + 1).
  { unfold G. rewrite !length_app, Hh. cbn [length]. lia. }
  assert (Hoff : lengthFieldOffset buf = Some (length G)).
  { unfold lengthFieldOffset, indexOf. unfold buf at 1.
    rewrite indexOf_marker by assumption. cbn [Nat.add].
    assert (E : buf = (front ++ nsStringMarker ++ header) ++ 43 :: lf ++ tb ++ post).
    { unfold buf. now rewrite <- !app_assoc. }
    assert (Hlen : length front + length nsStringMarker + 4
                   = length (front ++ nsStringMarker ++ header) + 0).
    { rewrite !length_app, Hh. lia. }
    rewrite Hlen. rewrite E at 2. rewrite at_is_skip.
    rewrite E, length_app. cbn [at_is at_ nth_error Nat.eqb length].
    match goal with |- context [?a <? ?b] => destruct (Nat.ltb_spec a b) as [Hlt|Hge] end;
      cbn [andb]; [f_equal; rewrite HG, !length_app, Hh; lia|].
    exfalso. rewrite !length_app in Hge. cbn [length] in Hge. lia. }
  rewrite scanTypedstream_length_field, Hoff.
  assert (Hlenbuf : length buf = length G + (length lf + (length tb + length post))).
  { rewrite Hbuf, !length_app. reflexivity. }
  assert (Hlf : 0 < length lf) by (destruct Henc; cbn; lia).
  destruct (Nat.ltb_spec (length G) (length buf)); [|lia].
  rewrite Hbuf at 1. rewrite <- (Nat.add_0_r (length G)) at 1.
  rewrite readLength_skip, (readLength_record lf tb post _ c rest Henc Hb) by lia.
  cbn [fst snd].
  assert (Htl : String.length text = length tb) by (symmetry; apply length_bytes_of_string).
  assert (Hpos : 0 < length tb) by (rewrite Hb; cbn; lia).
  rewrite Htl.
  destruct (Nat.ltb_spec 0 (length tb)); [|lia].
  destruct (Nat.leb_spec (length G + length lf + length tb) (length buf)); [|lia].
  cbn [andb].
  assert (Hsub : subarray (length G + length lf) (length G + length lf + length tb) buf = tb).
  { rewrite Hbuf, app_assoc, <- length_app.
    rewrite <- (Nat.add_0_r (length (G ++ lf))) at 1.
    rewrite subarray_skip. unfold subarray. rewrite Nat.sub_0_r. cbn [skipn drop].
    apply take_app_length. }
  rewrite Hsub, utf8_decode_ascii, Hclean by assumption.
  destruct (Nat.ltb_spec 0 (length tb)); [|lia].
  assert (Hctl : only_controls tb = false).
  { rewrite Hb. cbn. destruct (Nat.leb_spec c 31); [lia | reflexivity]. }
  rewrite Hctl. cbn. f_equal. apply string_of_bytes_of_string.
Qed.

Lemma to_nat_list_byte_of_string (s : string) :
  map Byte.to_nat (list_byte_of_string s) = bytes_of_string s.
Proof.
  unfold bytes_of_string, list_byte_of_string. rewrite map_map. apply map_ext. intros a.
  pose proof (byte_of_ascii_via_nat a) as H. symmetry in H.
  now apply Byte.to_of_nat in H.
Qed.

(** X11.  The decoder reads back the text of a typedstream record.
    Let a buffer hold, after bytes in which the marker does not
    occur, the marker [NSString], four header bytes, the tag ['+'],
    a length field in one of the three forms the decoder knows and
    then that many bytes of printable ASCII text that neither starts
    nor ends with a space.  If the buffer does not begin with the
    archive magic, or the archive reader rejects it, the decoder
    returns the text. *)
Theorem typedstream_text_is_recovered (h : Host)
    (front header lengthField post : list byte) (text : string) :
  let body :=
    front ++ markerToken ++ header ++ [x2b] ++ lengthField
    ++ list_byte_of_string text ++ post in
  ~ begins_with bplistMagic body \/ parseBuffer h body = None ->
  ~ contains markerToken front ->
  length header = 4 ->
  encodes_length (map Byte.to_nat lengthField) (String.length text) ->
  printable text ->
  extractTextFromAttributedBody h (Some body) = JStr text.
Proof.
  intros body Harchive Hno Hh Henc Hp.
  assert (Hlen : 8 <= length body).
  { unfold body. rewrite !length_app. change (length markerToken) with 8. lia. }
  rewrite extract_falls_through.
  - destruct (Nat.ltb_spec (length body) 8); [lia|].
    unfold body. rewrite !map_app, to_nat_list_byte_of_string.
    apply scan_record; try assumption.
    + intros Hc. apply Hno. now apply contains_of_nat.
    + now rewrite length_map.
  - destruct Harchive as [Hmagic | Hparse].
    + left. apply not_true_is_false. intros H. now apply Hmagic, isBplist_magic.
    + right. left. unfold tryArchive. now rewrite Hparse.
Qed.

(** X11 on the record of ["hello"]. *)
Lemma typedstream_text_is_recovered_witness :
  extractTextFromAttributedBody Sample.host (Some (Sample.typedstream "hello")) = JStr "hello".
Proof.
  apply (typedstream_text_is_recovered Sample.host [] [x01; x94; x84; x01] [x05] [] "hello").
  - right. reflexivity.
  - intros (a & b & H). destruct a; discriminate H.
  - reflexivity.
  - apply (length_short 5). lia.
  - split; [|split].
    + repeat constructor.
    + exists 104, [101; 108; 108; 111]. split; [reflexivity | discriminate].
    + exists 111, [104; 101; 108; 108]. split; [reflexivity | discriminate].
Defined.


(* ================================================================= *)
(** ** The contacts cache *)

Lemma length_last10 (s : string) : String.length (last10 s) <= 10.
Proof.
  unfold last10, slice_from. rewrite <- !length_bytes_of_string, bytes_of_string_substring.
  rewrite length_take, length_drop. lia.
Qed.

Lemma digits_last10 (s : string) : all_digits s -> all_digits (last10 s).
Proof.
  unfold all_digits, last10, slice_from. rewrite bytes_of_string_substring, !Forall_forall.
  intros H c Hc. apply H. eapply subseteq_drop, subseteq_take, Hc.
Qed.

Lemma cacheContact_phone (r : ContactsResolver) (line : string) :
  phoneCache (cacheContact r line)
  = match phoneEntry line with
    | Some (key, name) => <[key := name]> (phoneCache r)
    | None => phoneCache r
    end.
Proof.
  unfold cacheContact, phoneEntry.
  destruct (split_on 124 line) as [|name [|type [|value [|? ?]]]]; try reflexivity.
  destruct (String.eqb name ""), (String.eqb value ""); cbn [orb negb andb]; try reflexivity.
  destruct (String.eqb type "phone"); cbn [andb].
  - now destruct (7 <=? _).
  - now destruct (String.eqb type "email").
Qed.

Lemma cacheContact_email_kept (r : ContactsResolver) (line key : string) :
  is_Some (emailCache r !! key) -> is_Some (emailCache (cacheContact r line) !! key).
Proof.
  intros H. unfold cacheContact.
  destruct (split_on 124 line) as [|name [|type [|value [|? ?]]]]; try assumption.
  destruct (_ || _); [assumption|].
  destruct (String.eqb type "phone"); [now destruct (7 <=? _)|].
  destruct (String.eqb type "email"); [|assumption]. cbn.
  destruct (decide (toLowerCase value = key)) as [->|Hne].
  - rewrite lookup_insert_eq. eauto.
  - now rewrite lookup_insert_ne.
Qed.

Lemma phoneEntry_shape (line key name : string) :
  phoneEntry line = Some (key, name) ->
  7 <= String.length key <= 10 /\ all_digits key /\ String.eqb name "" = false.
Proof.
  unfold phoneEntry.
  destruct (split_on 124 line) as [|n [|type [|value [|? ?]]]]; try discriminate.
  destruct (String.eqb n "") eqn:En; [discriminate|].
  destruct (String.eqb value ""); [discriminate|].
  destruct (String.eqb type "phone"); [|discriminate]. cbn [negb andb].
  destruct (Nat.leb_spec 7 (String.length (last10 (strip_non_digits value)))); [|discriminate].
  intros [= <- <-]. split; [split; [assumption | apply length_last10]|].
  split; [apply digits_last10, digits_of_strip | assumption].
Qed.

Lemma fold_cacheContact_phone (lines : list string) (r : ContactsResolver) (key : string) :
  phoneCache (fold_left cacheContact lines r) !! key
  = match last (List.filter (fun e => String.eqb e.1 key) (omap phoneEntry lines)) with
    | Some e => Some e.2
    | None => phoneCache r !! key
    end.
Proof.
  induction lines as [|line lines IH] using rev_ind; [reflexivity|].
  rewrite fold_left_app. cbn [fold_left]. rewrite cacheContact_phone, omap_app, List.filter_app.
  rewrite omap_cons. change (omap phoneEntry []) with (@nil (string * string)).
  destruct (phoneEntry line) as [[k name]|]; cbn [List.filter fst].
  - destruct (String.eqb_spec k key) as [->|Hne].
    + now rewrite last_snoc, lookup_insert_eq.
    + rewrite app_nil_r, lookup_insert_ne by assumption. exact IH.
  - rewrite app_nil_r. exact IH.
Qed.

Lemma fold_cacheContact_email_kept (lines : list string) (r : ContactsResolver) (key : string) :
  is_Some (emailCache r !! key) ->
  is_Some (emailCache (fold_left cacheContact lines r) !! key).
Proof.
  revert r. induction lines as [|line lines IH]; intros r H; [exact H|].
  cbn [fold_left]. now apply IH, cacheContact_email_kept.
Qed.

Lemma last_filter_elem {A} (p : A -> bool) (l : list A) (x : A) :
  last (List.filter p l) = Some x -> x ∈ l.
Proof.
  intros H. apply last_Some in H as [l' H].
  assert (Hin : In x (List.filter p l)) by (rewrite H; apply in_or_app; right; now left).
  now apply filter_In in Hin as [Hin%list_elem_of_In _].
Qed.

Lemma buildCache_phone_origin (r : ContactsResolver) (stdout : option string)
    (key name : string) :
  phoneCache (buildCache r stdout) !! key = Some name ->
  phoneCache r !! key = Some name \/
  (7 <= String.length key <= 10 /\ all_digits key /\ String.eqb name "" = false).
Proof.
  destruct stdout as [out|]; [|now left]. cbn [buildCache phoneCache].
  rewrite fold_cacheContact_phone.
  destruct (last _) as [[k n]|] eqn:E; [|now left].
  cbn. intros [= ->]. right.
  pose proof E as Hin%last_filter_elem.
  apply list_elem_of_omap in Hin as (line & _ & Hline).
  apply last_Some in E as [l' E].
  assert (Hk : In (k, name) (List.filter (fun e => String.eqb e.1 key)
                               (omap phoneEntry (contactLines out))))
    by (rewrite E; apply in_or_app; right; now left).
  apply filter_In in Hk as [_ Hk]. apply String.eqb_eq in Hk. cbn in Hk. subst k.
  exact (phoneEntry_shape _ _ _ Hline).
Qed.

(** X12.  [buildCache] only adds to the caches: a phone or e-mail
    key that was present stays present, and a phone entry that is
    new is filed under a key of seven to ten digits and holds a
    non-empty name. *)
Theorem buildCache_only_adds (r : ContactsResolver) (stdout : option string) :
  (forall key, is_Some (phoneCache r !! key) ->
               is_Some (phoneCache (buildCache r stdout) !! key)) /\
  (forall key, is_Some (emailCache r !! key) ->
               is_Some (emailCache (buildCache r stdout) !! key)) /\
  (forall key name,
      phoneCache (buildCache r stdout) !! key = Some name ->
      phoneCache r !! key = Some name \/
      (7 <= String.length key <= 10 /\ all_digits key /\ String.eqb name "" = false)).
Proof.
  split; [|split].
  - destruct stdout as [out|]; [|trivial]. cbn [buildCache phoneCache].
    intros key H. rewrite fold_cacheContact_phone. destruct (last _); [eauto | exact H].
  - destruct stdout as [out|]; [|trivial]. cbn [buildCache emailCache].
    intros key H. now apply fold_cacheContact_email_kept.
  - apply buildCache_phone_origin.
Qed.

(** X13.  After [buildCache], a number resolves to the name of the
    last line of the script's output that files a phone under the
    last ten digits of that number, and to what the cache held
    before when no line does. *)
Theorem later_lines_win (r : ContactsResolver) (out number : string) :
  resolvePhone (buildCache r (Some out)) number =
  let key := last10 (strip_non_digits number) in
  match last (List.filter (fun e => String.eqb e.1 key)
                          (omap phoneEntry (contactLines out))) with
  | Some e => Some e.2
  | None => cache_get (phoneCache r) key
  end.
Proof.
  unfold resolvePhone. cbn [buildCache cacheBuilt phoneCache negb]. cbn zeta.
  unfold cache_get. rewrite fold_cacheContact_phone.
  destruct (last _) as [[k n]|] eqn:E; [|reflexivity]. cbn.
  apply last_filter_elem, list_elem_of_omap in E as (line & _ & Hline).
  apply phoneEntry_shape in Hline as (_ & _ & ->). reflexivity.
Qed.

(** X14.  A number with fewer than seven digits is never resolved
    by a cache built from a new resolver, whatever the script
    printed. *)
Theorem short_numbers_stay_unresolved (stdout : option string) (number : string) :
  String.length (strip_non_digits number) < 7 ->
  resolvePhone (buildCache newResolver stdout) number = None.
Proof.
  intros Hshort. unfold resolvePhone.
  destruct (cacheBuilt (buildCache newResolver stdout)); [|reflexivity]. cbn [negb].
  unfold cache_get.
  destruct (phoneCache _ !! _) as [name|] eqn:E; [|reflexivity].
  apply buildCache_phone_origin in E as [E | ((Hlen & _) & _)]; [discriminate|].
  exfalso. unfold last10, slice_from in Hlen.
  rewrite <- !length_bytes_of_string, bytes_of_string_substring in Hlen.
  rewrite length_take, length_drop in Hlen.
  rewrite <- length_bytes_of_string in Hshort. lia.
Qed.

(** X14 on Bob's short code, which the script's output lists. *)
Lemma short_numbers_stay_unresolved_witness :
  resolvePhone (buildCache newResolver (Some Cases.contactsOutput)) "12345" = None.
Proof.
  apply (short_numbers_stay_unresolved (Some Cases.contactsOutput) "12345"). vm_compute. lia.
Defined.


(* ================================================================= *)
(** ** Change notifications *)

Lemma rememberLastMessage_seen (seen : gmap string string) (c : Conversation.t)
    (k : string) :
  k <> Conversation.id c -> rememberLastMessage seen c !! k = seen !! k.
Proof.
  intros Hk. unfold rememberLastMessage.
  destruct (Conversation.lastMessage c) as [m|]; [|reflexivity].
  now rewrite lookup_insert_ne.
Qed.

Lemma rememberLastMessage_own (seen : gmap string string) (c : Conversation.t)
    (m : Message.t) :
  Conversation.lastMessage c = Some m ->
  rememberLastMessage seen c !! Conversation.id c = Some (Message.id m).
Proof. intros Hm. unfold rememberLastMessage. rewrite Hm. apply lookup_insert_eq. Qed.

Lemma bind_ext_in {A B} (f g : A -> list B) (l : list A) :
  (forall x, x ∈ l -> f x = g x) -> l ≫= f = l ≫= g.
Proof.
  induction l as [|a l IH]; intros H; [reflexivity|].
  rewrite !bind_cons, (H a), IH; [reflexivity | | left].
  intros x Hx. apply H. now right.
Qed.

(** The start-up loop leaves the map up to date. *)
Lemma fold_rememberLastMessage (l : list Conversation.t) (seen : gmap string string) :
  NoDup (Conversation.id <$> l) ->
  let out := fold_left rememberLastMessage l seen in
  (forall k, k ∉ Conversation.id <$> l -> out !! k = seen !! k) /\
  up_to_date out l.
Proof.
  revert seen. induction l as [|c l IH]; intros seen Hnd.
  - cbn. split; [reflexivity|]. intros c m Hin. now apply elem_of_nil in Hin.
  - cbn [fmap list_fmap] in Hnd. apply NoDup_cons in Hnd as [Hc Hl].
    cbn [fold_left]. destruct (IH (rememberLastMessage seen c) Hl) as (Hkeep & Hsync).
    cbn zeta. split.
    + intros k Hk. cbn [fmap list_fmap] in Hk. apply not_elem_of_cons in Hk as [Hk1 Hk2].
      rewrite Hkeep by assumption. now apply rememberLastMessage_seen.
    + intros c' m Hin Hm. apply elem_of_cons in Hin as [-> | Hin].
      * rewrite Hkeep by assumption. now apply rememberLastMessage_own.
      * now apply Hsync.
Qed.





Lemma noteConversations_up_to_date (seen : gmap string string)
    (sent : list WebSocketMessage) (l : list Conversation.t) :
  up_to_date seen l -> noteConversations (seen, sent) l = (seen, sent, false).
Proof.
  induction l as [|c l IH]; intros Hup; [reflexivity|].
  cbn [noteConversations].
  assert (Hc : noteConversation (seen, sent) c = (seen, sent, false)).
  { unfold noteConversation. destruct (Conversation.lastMessage c) as [m|] eqn:Hm; [|reflexivity].
    rewrite bool_decide_eq_false_2; [reflexivity|].
    intros Hne. apply Hne, Hup; [left | assumption]. }
  rewrite Hc. apply IH. intros c' m Hin. apply Hup. now right.
Qed.

Lemma onChange_up_to_date (seen : gmap string string) (l : list Conversation.t) :
  up_to_date seen l -> onChange seen (Some l) = (seen, []).
Proof. intros Hup. cbn [onChange]. now rewrite noteConversations_up_to_date. Qed.


Lemma up_to_date_keys (seen : gmap string string) (l1 l2 : list Conversation.t) :
  lastMessageKey <$> l1 = lastMessageKey <$> l2 -> up_to_date seen l1 -> up_to_date seen l2.
Proof.
  intros Hkeys Hup c2 m2 Hin Hm2.
  assert (Hk : lastMessageKey c2 ∈ lastMessageKey <$> l1).
  { rewrite Hkeys. now apply list_elem_of_fmap_2. }
  apply list_elem_of_fmap in Hk as (c1 & Hk & Hin1).
  unfold lastMessageKey in Hk. rewrite Hm2 in Hk. injection Hk as Hid Hlast.
  destruct (Conversation.lastMessage c1) as [m1|] eqn:Hm1; [|discriminate].
  injection Hlast as Hlast. rewrite Hid, Hlast. now apply Hup.
Qed.





Lemma lastMessageKey_conversationOf (h : Host) (self : MessagesDatabase) (i : nat)
    (r : chat_row) :
  lastMessageKey (conversationOf h self i r)
  = (String_of_Z (chat_id r),
     (fun row : row => text_or (guid row) (String_of_Z (ROWID row)))
       <$> head (lastMessageQuery (db self) (chat_id r))).
Proof.
  unfold lastMessageKey, conversationOf. cbn [Conversation.id Conversation.lastMessage].
  unfold getLastMessageForChat.
  destruct (lastMessageQuery (db self) (chat_id r)); reflexivity.
Qed.

Lemma getConversations_keys (h1 h2 : Host) (self : MessagesDatabase) :
  lastMessageKey <$> getConversations h1 self = lastMessageKey <$> getConversations h2 self.
Proof.
  unfold getConversations. rewrite !fmap_imap.
  apply imap_ext. intros i r _. cbn. now rewrite !lastMessageKey_conversationOf.
Qed.

(** X17.  After start-up, a change event that finds the database
    as it was at start-up broadcasts nothing, whatever the clock
    reads (the chats having distinct ROWIDs). *)
Theorem unchanged_database_is_silent (h1 h2 : Host) (self : MessagesDatabase) :
  NoDup (chat_ROWID <$> chats (db self)) ->
  let seen := initLastSeen (Some (getConversations h1 self)) in
  onChange seen (Some (getConversations h2 self)) = (seen, []).
Proof.
  intros Hnd seen. apply onChange_up_to_date.
  apply (up_to_date_keys _ (getConversations h1 self)); [apply getConversations_keys|].
  subst seen. cbn [initLastSeen].
  assert (Hids : NoDup (Conversation.id <$> getConversations h1 self)).
  { rewrite getConversations_ids, (list_fmap_compose chat_id String_of_Z).
    apply NoDup_fmap_2; [|now apply conversationsQuery_rowids].
    intros a b. apply String_of_Z_inj. }
  now apply fold_rememberLastMessage.
Qed.

(** X17 on [Sample.two_chats]. *)
Lemma unchanged_database_is_silent_witness :
  let seen := initLastSeen (Some (getConversations Sample.host Sample.two_chats)) in
  onChange seen (Some (getConversations Sample.host Sample.two_chats)) = (seen, []).
Proof.
  apply (unchanged_database_is_silent Sample.host Sample.host Sample.two_chats).
  apply (bool_decide_unpack _). vm_compute. exact I.
Defined.


Lemma bind_nil_fun {A B} (l : list A) : l ≫= (fun _ => @nil B) = [].
Proof. induction l as [|x l IH]; [reflexivity|]. now rewrite bind_cons, IH. Qed.

Lemma selectMessages_withRow (self : MessagesDatabase) (chat_rowid : Z) (m : message)
    (p : sqlval) (where_ : message -> bool) :
  where_ m = false ->
  ROWID m ∉ ROWID <$> messages (db self) ->
  selectMessages (db (withRow self chat_rowid m)) p where_ = selectMessages (db self) p where_.
Proof.
  intros Hw Hfresh. unfold selectMessages, withRow.
  cbn [db messages chat_message_join].
  rewrite bind_app. cbn [mbind list_bind]. rewrite app_nil_r.
  assert (Hnew : forall sender : option string,
            ((chat_message_join (db self) ++ [(chat_rowid, ROWID m)]) ≫= fun cmj =>
               if (cmj.2 =? ROWID m)%Z && int_eq_param cmj.1 p && where_ m
               then [mkRow m sender] else []) = []).
  { intros sender. rewrite Hw. erewrite bind_ext; [apply bind_nil_fun|].
    intros cmj. now rewrite andb_false_r. }
  rewrite (bind_ext _ (fun _ => []) _ Hnew), bind_nil_fun, app_nil_r.
  apply bind_ext_in. intros m0 Hm0.
  apply bind_ext. intros sender. rewrite bind_app. cbn [mbind list_bind snd fst].
  destruct (Z.eqb_spec (ROWID m) (ROWID m0)) as [E|_].
  - exfalso. apply Hfresh. rewrite E. now apply list_elem_of_fmap_2.
  - cbn [andb]. now rewrite !app_nil_r.
Qed.

Lemma lastMessageFilter_band (m : message) (ty : Z) :
  associated_message_type m = Some ty -> (2000 <= ty <= 3005)%Z ->
  lastMessageFilter m = false.
Proof.
  intros Hty Hband. unfold lastMessageFilter. rewrite Hty.
  apply orb_false_iff. split; [apply Z.ltb_ge | apply Z.ltb_ge]; lia.
Qed.

(** X18.  When the map holds the last message of every chat and a
    row with a type code from 2000 to 3005 and a new ROWID is added
    to a chat, the change event broadcasts nothing: a tapback is
    not announced to the clients. *)
Theorem tapbacks_are_not_announced (h h' : Host) (self : MessagesDatabase)
    (lastSeenMessageIds : gmap string string) (chat_rowid : Z) (m : message) (ty : Z) :
  knows_every_chat lastSeenMessageIds h self ->
  associated_message_type m = Some ty -> (2000 <= ty <= 3005)%Z ->
  ROWID m ∉ ROWID <$> messages (db self) ->
  onChange lastSeenMessageIds (Some (getConversations h' (withRow self chat_rowid m)))
  = (lastSeenMessageIds, []).
Proof.
  intros Hknows Hty Hband Hfresh. apply onChange_up_to_date.
  intros conv last (i & c & Hc & ->)%elem_of_getConversations Hlast.
  cbn [conversationOf Conversation.lastMessage Conversation.id select_chat chat_id] in *.
  assert (Hsame : getLastMessageForChat h' (withRow self chat_rowid m) i (chat_ROWID c)
                  = getLastMessageForChat h' self i (chat_ROWID c)).
  { unfold getLastMessageForChat, lastMessageQuery.
    rewrite selectMessages_withRow;
      [reflexivity | now apply (lastMessageFilter_band m ty) | assumption]. }
  rewrite Hsame in Hlast.
  assert (Hid : exists m', getLastMessageForChat h self 0 (chat_ROWID c) = Some m' /\
                           Message.id m' = Message.id last).
  { unfold getLastMessageForChat in *.
    destruct (lastMessageQuery (db self) (chat_ROWID c)) as [|r rest]; [discriminate|].
    injection Hlast as <-. eexists. split; reflexivity. }
  destruct Hid as (m' & Hm' & <-). now apply (Hknows c m').
Qed.

(** X18 on [Sample.folding] after start-up, when Alice adds a
    like to A. *)
Lemma tapbacks_are_not_announced_witness :
  let seen := initLastSeen (Some Cases.oneConversation) in
  onChange seen (Some (getConversations Sample.host
                         (withRow Sample.folding 1 Cases.laterTapback)))
  = (seen, []).
Proof.
  apply (tapbacks_are_not_announced Sample.host Sample.host Sample.folding
           (initLastSeen (Some Cases.oneConversation)) 1 Cases.laterTapback 2001).
  - intros c m Hc Hm. apply list_elem_of_In in Hc. destruct Hc as [<- | []].
    vm_compute in Hm. injection Hm as <-. vm_compute. reflexivity.
  - reflexivity.
  - lia.
  - vm_compute. intros H. apply list_elem_of_In in H. cbn in H. intuition discriminate.
Defined.


(* ================================================================= *)
(** ** Escaping for AppleScript and the shell *)

Lemma replaceAll_byte (c : nat) (replacement s : list nat) :
  Forall (fun x => x < 256) replacement -> Forall (fun x => x < 256) s ->
  Forall (fun x => x < 256) (replaceAll c replacement s).
Proof.
  intros Hr. induction 1 as [|x s Hx _ IH]; [constructor|].
  unfold replaceAll. cbn [flat_map]. apply Forall_app. split; [|exact IH].
  destruct (x =? c); [assumption | now constructor].
Qed.

Lemma bytes_bounded (s : string) : Forall (fun x => x < 256) (bytes_of_string s).
Proof.
  unfold bytes_of_string. rewrite Forall_forall.
  intros x (a & <- & _)%list_elem_of_In%in_map_iff. apply nat_ascii_bounded.
Qed.

Lemma literalText_escaped (s : list nat) :
  literalText (replaceAll 34 [92; 34] (replaceAll 92 [92; 92] s)) = Some s.
Proof.
  induction s as [|c s IH]; [reflexivity|].
  unfold replaceAll in *. cbn [flat_map].
  destruct (Nat.eqb_spec c 92) as [->|Hb].
  - cbn [flat_map app Nat.eqb]. cbn [literalText Nat.eqb orb]. now rewrite IH.
  - cbn [flat_map app]. destruct (Nat.eqb_spec c 34) as [->|Hq].
    + cbn [app literalText Nat.eqb orb]. now rewrite IH.
    + cbn [app]. 
      assert (E : forall rest, literalText (c :: rest) = cons c <$> literalText rest).
      { intros rest. cbn [literalText].
        destruct c as [|c]; [reflexivity|].
        do 92 (destruct c as [|c]; [try reflexivity; try congruence|]). reflexivity. }
      now rewrite E, IH.
Qed.

Lemma shellWord_quoted (s : list nat) :
  shellWord SingleQuoted (replaceAll 39 [39; 34; 39; 34; 39] s ++ [39]) = Some s.
Proof.
  induction s as [|c s IH]; [reflexivity|].
  unfold replaceAll in *. cbn [flat_map].
  destruct (Nat.eqb_spec c 39) as [->|Hc].
  - cbn [app shellWord Nat.eqb orb]. now rewrite IH.
  - cbn [app shellWord]. destruct (Nat.eqb_spec c 39); [contradiction|]. now rewrite IH.
Qed.

(** X19.  Text escaped for an AppleScript string literal is read
    back as the text: no quote of the text ends the literal. *)
Theorem escaped_text_is_read_back (text : string) :
  literalText (bytes_of_string (escapeForAppleScript text)) = Some (bytes_of_string text).
Proof.
  unfold escapeForAppleScript. rewrite bytes_of_string_of_bytes.
  - apply literalText_escaped.
  - repeat apply replaceAll_byte; try apply bytes_bounded; repeat constructor.
Qed.

(** X20.  The script as it is quoted on the [osascript -e] command
    line is read by the shell as one argument, the script itself. *)
Theorem quoted_script_is_one_argument (script : string) :
  shellWord Unquoted (bytes_of_string (quoteForShell script)) = Some (bytes_of_string script).
Proof.
  unfold quoteForShell. rewrite bytes_of_string_of_bytes.
  - cbn [app shellWord Nat.eqb]. apply shellWord_quoted.
  - apply Forall_app. split; [repeat constructor|]. apply Forall_app. split; [|repeat constructor].
    apply replaceAll_byte; [repeat constructor | apply bytes_bounded].
Qed.


(* ================================================================= *)
(** ** Reaction badges *)

Lemma countReaction_keys (type : ReactionType) (name : string)
    (groups : list (ReactionType * (nat * list string))) :
  (countReaction type name groups).*1
  = if bool_decide (type ∈ groups.*1) then groups.*1 else (groups.*1) ++ [type].
Proof.
  induction groups as [|[ty [c ns]] rest IH]; [reflexivity|].
  cbn [countReaction]. destruct (decide (ty = type)) as [->|Hne].
  - cbn. rewrite bool_decide_eq_true_2 by left. reflexivity.
  - cbn [fmap list_fmap fst]. rewrite IH.
    destruct (decide (type ∈ rest.*1)) as [Hin|Hin].
    + rewrite !bool_decide_eq_true_2; [reflexivity | now right | assumption].
    + rewrite !bool_decide_eq_false_2; [reflexivity | | assumption].
      intros [?|?]%elem_of_cons; [congruence | contradiction].
Qed.

Lemma countReaction_NoDup (type : ReactionType) (name : string)
    (groups : list (ReactionType * (nat * list string))) :
  NoDup groups.*1 -> NoDup (countReaction type name groups).*1.
Proof.
  intros H. rewrite countReaction_keys.
  destruct (decide (type ∈ groups.*1)) as [Hin|Hin].
  - now rewrite bool_decide_eq_true_2.
  - rewrite bool_decide_eq_false_2 by assumption. apply NoDup_app. split; [assumption|].
    split; [|apply NoDup_singleton]. intros x Hx ->%list_elem_of_singleton. contradiction.
Qed.

Lemma entryOf_countReaction (type : ReactionType) (name : string)
    (groups : list (ReactionType * (nat * list string))) (ty : ReactionType) :
  entryOf ty (countReaction type name groups)
  = if decide (ty = type)
    then Some (match entryOf type groups with
               | Some (count, names) => (count + 1, names ++ [name])
               | None => (1, [name])
               end)
    else entryOf ty groups.
Proof.
  induction groups as [|[ty' [c ns]] rest IH]; cbn [countReaction entryOf].
  - destruct (decide (type = ty)), (decide (ty = type)); congruence.
  - destruct (decide (ty' = type)) as [->|Hne]; cbn [entryOf].
    + destruct (decide (type = ty)) as [<-|Hty].
      * now rewrite !decide_True.
      * rewrite decide_False by congruence. reflexivity.
    + rewrite IH. destruct (decide (ty' = ty)) as [->|Hty].
      * rewrite decide_False by assumption. reflexivity.
      * reflexivity.
Qed.

Lemma entryOf_elem (groups : list (ReactionType * (nat * list string)))
    (ty : ReactionType) (entry : nat * list string) :
  NoDup groups.*1 -> (ty, entry) ∈ groups <-> entryOf ty groups = Some entry.
Proof.
  induction groups as [|[ty' e'] rest IH]; intros Hnd.
  - cbn. split; [intros []%elem_of_nil | discriminate].
  - cbn [fmap list_fmap fst] in Hnd. apply NoDup_cons in Hnd as [Hnew Hrest].
    cbn [entryOf]. rewrite elem_of_cons. destruct (decide (ty' = ty)) as [->|Hne].
    + split; [|intros [= ->]; now left].
      intros [[= ->] | Hin]; [reflexivity|]. exfalso. apply Hnew.
      change ty with ((ty, entry).1). now apply list_elem_of_fmap_2.
    + rewrite <- IH by assumption. split; [|now right]. intros [[= ? ?]|?]; congruence.
Qed.

Lemma entryOf_None (groups : list (ReactionType * (nat * list string))) (ty : ReactionType) :
  entryOf ty groups = None <-> ty ∉ groups.*1.
Proof.
  induction groups as [|[ty' e'] rest IH]; cbn [entryOf fmap list_fmap fst].
  - split; [intros _; apply not_elem_of_nil | reflexivity].
  - rewrite not_elem_of_cons. destruct (decide (ty' = ty)) as [->|Hne].
    + split; [discriminate | intros [[] _]; reflexivity].
    + rewrite IH. split; [intros ?; split; congruence | tauto].
Qed.

Lemma ofType_snoc (type : ReactionType) (reactions : list Reaction.t) (r : Reaction.t) :
  ofType type (reactions ++ [r])
  = ofType type reactions ++ (if decide (Reaction.type r = type) then [r] else []).
Proof.
  unfold ofType. rewrite List.filter_app. cbn [List.filter].
  destruct (decide (Reaction.type r = type)) as [E|E].
  - now rewrite bool_decide_eq_true_2.
  - now rewrite bool_decide_eq_false_2.
Qed.

Lemma fold_countReaction (reactions : list Reaction.t) :
  let groups :=
    fold_left (fun groups reaction =>
                 countReaction (Reaction.type reaction) (Reaction.senderName reaction) groups)
              reactions [] in
  NoDup groups.*1 /\
  forall type,
    entryOf type groups
    = match ofType type reactions with
      | [] => None
      | rs => Some (length rs, Reaction.senderName <$> rs)
      end.
Proof.
  induction reactions as [|r reactions IH] using rev_ind.
  - cbn. split; [constructor | reflexivity].
  - cbn zeta in *. rewrite fold_left_app. cbn [fold_left].
    destruct IH as [Hnd Hentry]. split; [now apply countReaction_NoDup|].
    intros type. rewrite entryOf_countReaction, ofType_snoc.
    destruct (decide (type = Reaction.type r)) as [->|Hne].
    + rewrite decide_True by reflexivity. rewrite Hentry.
      destruct (ofType (Reaction.type r) reactions) as [|x xs]; [reflexivity|].
      cbn [app length]. rewrite length_app, !fmap_cons, fmap_app. cbn [length].
      repeat f_equal; lia.
    + rewrite decide_False by congruence. now rewrite app_nil_r.
Qed.

(** X21.  [groupReactions] makes one group for each kind of
    reaction that occurs and none for the others; the group of a
    kind lists the senders of the reactions of that kind, in their
    order, its count is their number, and its emoji is that of the
    kind. *)
Theorem groupReactions_groups_by_kind (reactions : list Reaction.t) :
  NoDup (group_type <$> groupReactions reactions) /\
  (forall g,
      g ∈ groupReactions reactions ->
      group_names g = Reaction.senderName <$> ofType (group_type g) reactions /\
      group_count g = length (ofType (group_type g) reactions) /\
      0 < group_count g /\
      group_emoji g = REACTION_EMOJI (group_type g)) /\
  (forall r, r ∈ reactions -> Reaction.type r ∈ group_type <$> groupReactions reactions).
Proof.
  unfold groupReactions. destruct (fold_countReaction reactions) as [Hnd Hentry].
  cbn zeta in *.
  set (groups := fold_left _ reactions []) in *.
  assert (Hkeys : group_type <$> map (fun entry => mkGroup entry.1 (REACTION_EMOJI entry.1)
                                                    entry.2.1 entry.2.2) groups
                  = groups.*1).
  { clearbody groups. clear. induction groups as [|[ty [c ns]] rest IH]; [reflexivity|].
    cbn. f_equal. exact IH. }
  rewrite Hkeys. split; [assumption|]. split.
  - intros g Hg. apply list_elem_of_In, in_map_iff in Hg as ([ty [c ns]] & <- & Hin).
    apply list_elem_of_In, entryOf_elem in Hin; [|assumption]. rewrite Hentry in Hin.
    cbn. destruct (ofType ty reactions) as [|x xs]; [discriminate|].
    injection Hin as <- <-. cbn [length]. repeat split; lia.
  - intros r Hr. destruct (entryOf (Reaction.type r) groups) as [e|] eqn:E.
    + apply entryOf_elem in E; [|assumption].
      change (Reaction.type r) with ((Reaction.type r, e).1). now apply list_elem_of_fmap_2.
    + rewrite Hentry in E. exfalso.
      assert (Hin : In r (ofType (Reaction.type r) reactions)).
      { apply filter_In. split; [now apply list_elem_of_In | now apply bool_decide_eq_true_2]. }
      destruct (ofType (Reaction.type r) reactions); [exact Hin | discriminate].
Qed.


(* ================================================================= *)
(** ** The clients' stores *)

Lemma findIndex_Some {A} (p : A -> bool) (l : list A) (i : nat) :
  findIndex p l = Some i ->
  exists x, l !! i = Some x /\ p x = true /\ forall j y, j < i -> l !! j = Some y -> p y = false.
Proof.
  revert i. induction l as [|x l IH]; intros i; [discriminate|]. cbn [findIndex].
  destruct (p x) eqn:Hx.
  - intros [= <-]. exists x. split; [reflexivity|]. split; [assumption|]. lia.
  - destruct (findIndex p l) as [k|]; [|discriminate]. intros [= <-].
    destruct (IH k eq_refl) as (y & Hy & Hpy & Hbefore). exists y.
    split; [exact Hy|]. split; [assumption|].
    intros [|j] z Hj Hz; [now injection Hz as <-|]. apply (Hbefore j); [lia | exact Hz].
Qed.

Lemma findIndex_None {A} (p : A -> bool) (l : list A) :
  findIndex p l = None -> forall x, x ∈ l -> p x = false.
Proof.
  induction l as [|x l IH]; [intros _ y []%elem_of_nil|]. cbn [findIndex].
  destruct (p x) eqn:Hx; [discriminate|].
  destruct (findIndex p l); [discriminate|]. intros _ y [->|Hy]%elem_of_cons; auto.
Qed.

Lemma insertBy_perm {A} (compare : A -> A -> Z) (x : A) (l : list A) :
  insertBy compare x l ≡ₚ x :: l.
Proof.
  induction l as [|y l IH]; [reflexivity|]. cbn [insertBy].
  destruct (compare x y <=? 0)%Z; [reflexivity|]. rewrite IH. apply Permutation_swap.
Qed.

Lemma sortBy_perm {A} (compare : A -> A -> Z) (l : list A) : sortBy compare l ≡ₚ l.
Proof.
  induction l as [|x l IH]; [reflexivity|]. cbn. now rewrite insertBy_perm, IH.
Qed.

Lemma insertBy_newestFirst (x : Conversation.t) (l : list Conversation.t) :
  StronglySorted newestFirst l ->
  StronglySorted newestFirst (insertBy (fun a b => (lastTime b - lastTime a)%Z) x l).
Proof.
  induction 1 as [|y l Hs IH Hall]; [repeat constructor|]. cbn [insertBy].
  destruct (Z.leb_spec (lastTime y - lastTime x) 0).
  - constructor; [now constructor|]. constructor; [unfold newestFirst; lia|].
    eapply Forall_impl; [exact Hall|]. unfold newestFirst. cbn. intros; lia.
  - constructor; [exact IH|]. rewrite insertBy_perm. constructor; [|assumption].
    unfold newestFirst. lia.
Qed.

Lemma sortBy_newestFirst (l : list Conversation.t) :
  StronglySorted newestFirst (sortBy (fun a b => (lastTime b - lastTime a)%Z) l).
Proof.
  induction l as [|x l IH]; [constructor|]. cbn. now apply insertBy_newestFirst.
Qed.


Lemma findIndex_put {A} (p : A -> bool) (u : A) (l : list A) :
  match findIndex p l with
  | Some index => <[index := u]> l
  | None => l ++ [u]
  end = put p u l.
Proof.
  induction l as [|y l IH]; [reflexivity|]. cbn [findIndex put].
  destruct (p y); [reflexivity|].
  destruct (findIndex p l) as [k|]; cbn; now rewrite <- IH.
Qed.

Lemma put_ext {A} (p q : A -> bool) (u : A) (l : list A) :
  (forall x, p x = q x) -> put p u l = put q u l.
Proof.
  intros H. induction l as [|y l IH]; [reflexivity|]. cbn [put]. now rewrite H, IH.
Qed.

Lemma put_elem {A} (p : A -> bool) (u : A) (l : list A) : u ∈ put p u l.
Proof.
  induction l as [|y l IH]; cbn [put]; [left|]. destruct (p y); [left | now right].
Qed.

Lemma put_others {A} (p : A -> bool) (u : A) (l : list A) (x : A) :
  p x = false -> p u = true -> x ∈ put p u l <-> x ∈ l.
Proof.
  intros Hx Hu. induction l as [|y l IH]; cbn [put].
  - split; [intros [->|[]%elem_of_nil]%elem_of_cons; congruence | intros []%elem_of_nil].
  - destruct (p y) eqn:Hy; rewrite !elem_of_cons.
    + split; intros [->|?]; try congruence; now right.
    + now rewrite IH.
Qed.

Lemma put_from {A} (p : A -> bool) (u : A) (l : list A) (x : A) :
  x ∈ put p u l -> x = u \/ x ∈ l.
Proof.
  induction l as [|y l IH]; cbn [put].
  - intros [->|[]%elem_of_nil]%elem_of_cons. now left.
  - destruct (p y); intros [->|Hx]%elem_of_cons; try (now left); try (right; now left).
    + right. now right.
    + destruct (IH Hx) as [->|?]; [now left | right; now right].
Qed.

Lemma put_idem {A} (p : A -> bool) (u : A) (l : list A) :
  p u = true -> put p u (put p u l) = put p u l.
Proof.
  intros Hu. induction l as [|y l IH]; cbn [put].
  - now rewrite Hu.
  - destruct (p y) eqn:Hy; cbn [put]; [now rewrite Hu|]. now rewrite Hy, IH.
Qed.

Lemma put_NoDup {A B} `{EqDecision B} (key : A -> B) (u : A) (l : list A) :
  NoDup (key <$> l) ->
  NoDup (key <$> put (fun x => bool_decide (key x = key u)) u l).
Proof.
  induction l as [|y l IH]; cbn [put fmap list_fmap]; [intros _; apply NoDup_singleton|].
  rewrite NoDup_cons. intros [Hy Hl].
  destruct (decide (key y = key u)) as [E|E].
  - rewrite bool_decide_eq_true_2 by assumption. cbn [fmap list_fmap].
    apply NoDup_cons. split; [now rewrite <- E | assumption].
  - rewrite bool_decide_eq_false_2 by assumption. cbn [fmap list_fmap].
    apply NoDup_cons. split; [|now apply IH].
    intros (x & Hkx & Hx)%list_elem_of_fmap. apply put_from in Hx as [->|Hx]; [congruence|].
    apply Hy. rewrite Hkx. now apply list_elem_of_fmap_2.
Qed.

Lemma eqb_bool_decide (a b : string) : String.eqb a b = bool_decide (a = b).
Proof.
  destruct (String.eqb_spec a b).
  - now rewrite bool_decide_eq_true_2.
  - now rewrite bool_decide_eq_false_2.
Qed.

(** X22.  After a [conversation_updated] message the controller's
    list is ordered by the time of the last message, newest first;
    it holds the updated conversation, it holds the conversations
    with other ids exactly as before, and ids that were distinct
    stay distinct. *)
Theorem conversationUpdated_keeps_order (conversations : list Conversation.t)
    (updated : Conversation.t) :
  StronglySorted newestFirst (conversationUpdated conversations updated) /\
  updated ∈ conversationUpdated conversations updated /\
  (forall c, Conversation.id c <> Conversation.id updated ->
             c ∈ conversationUpdated conversations updated <-> c ∈ conversations) /\
  (NoDup (Conversation.id <$> conversations) ->
   NoDup (Conversation.id <$> conversationUpdated conversations updated)).
Proof.
  unfold conversationUpdated. cbn zeta. rewrite findIndex_put.
  set (p := fun c => String.eqb (Conversation.id c) (Conversation.id updated)).
  assert (Hu : p updated = true) by apply String.eqb_refl.
  split; [apply sortBy_newestFirst|]. split; [|split].
  - rewrite sortBy_perm. apply put_elem.
  - intros c Hc. rewrite sortBy_perm. apply put_others; [|assumption].
    now apply String.eqb_neq.
  - intros Hnd. rewrite sortBy_perm.
    rewrite (put_ext p (fun x => bool_decide (Conversation.id x = Conversation.id updated))).
    + now apply put_NoDup.
    + intros x. apply eqb_bool_decide.
Qed.

Lemma addMessage_put (messages : gmap string (list Message.t)) (message : Message.t) :
  addMessage messages message
  = <[Message.conversationId message :=
        put (fun m => String.eqb (Message.id m) (Message.id message)) message
            (default [] (messages !! Message.conversationId message))]> messages.
Proof. unfold addMessage. cbn zeta. now rewrite findIndex_put. Qed.

(** X23.  [addMessage] stores a message once: adding it a second
    time changes nothing, the lists of the other conversations are
    untouched, and ids that were distinct in the conversation's list
    stay distinct. *)
Theorem addMessage_keeps_one_copy (messages : gmap string (list Message.t))
    (message : Message.t) :
  addMessage (addMessage messages message) message = addMessage messages message /\
  (forall conversationId,
      conversationId <> Message.conversationId message ->
      addMessage messages message !! conversationId = messages !! conversationId) /\
  (exists stored,
      addMessage messages message !! Message.conversationId message = Some stored /\
      message ∈ stored /\
      (NoDup (Message.id <$> default [] (messages !! Message.conversationId message)) ->
       NoDup (Message.id <$> stored))).
Proof.
  rewrite !addMessage_put.
  set (p := fun m => String.eqb (Message.id m) (Message.id message)).
  assert (Hu : p message = true) by apply String.eqb_refl.
  split; [|split].
  - rewrite lookup_insert_eq. cbn [default from_option id]. rewrite put_idem by assumption.
    apply insert_insert_eq.
  - intros cid Hne. now rewrite lookup_insert_ne.
  - eexists. split; [apply lookup_insert_eq|]. split; [apply put_elem|].
    intros Hnd.
    rewrite (put_ext p (fun x => bool_decide (Message.id x = Message.id message))).
    + now apply put_NoDup.
    + intros x. apply eqb_bool_decide.
Qed.


(* ================================================================= *)
(** ** The terminal client *)

(** *** The layout and the list of conversations *)

(** X24.  Whatever the size of the terminal, the two panes and the
    column between them take the whole width and the conversation
    pane is 20 to 40 columns wide, so that the message pane has a
    positive width only from 22 columns on; the last row of the panes
    is the row above the composer, on which [renderFrame] draws a
    separator. *)
Theorem panes_and_separators (cols rows : Z) :
  let layout := calculateLayout cols rows in
  (convPaneWidth layout + 1 + msgPaneWidth layout = width layout)%Z /\
  (20 <= convPaneWidth layout <= 40)%Z /\
  ((0 < msgPaneWidth layout)%Z <-> (22 <= cols)%Z) /\
  lastPaneRow layout = (composerRow layout - 1)%Z /\
  lastPaneRow layout ∈ horizontalSeparators layout.
Proof.
  cbn. unfold lastPaneRow, horizontalSeparators. cbn.
  replace (2 + (rows - 5) - 1)%Z with (rows - 3 - 1)%Z by lia.
  split; [lia|]. split; [Z.to_euclidean_division_equations; lia|].
  split; [split; Z.to_euclidean_division_equations; lia|].
  split; [reflexivity|]. right. left.
Qed.

(** X25.  With the scroll offset that [calculateScrollOffset] gives,
    [renderConversations] draws the selected conversation, marked as
    selected; it reads no index outside the list, and every row it
    draws lies in the pane.  The pane has at least one row and the
    offset before was not negative. *)
Theorem selected_conversation_is_drawn (conversations : list Conversation.t)
    (selectedIndex currentOffset : Z) (layout : LayoutDimensions) (c : Conversation.t) :
  (1 <= convPaneHeight layout)%Z ->
  (0 <= currentOffset)%Z ->
  (0 <= selectedIndex)%Z ->
  conversations !! Z.to_nat selectedIndex = Some c ->
  let scrollOffset :=
    calculateScrollOffset selectedIndex currentOffset (convPaneHeight layout)
                          (Z.of_nat (length conversations)) in
  (0 <= scrollOffset)%Z /\
  exists drawn,
    renderConversations conversations selectedIndex scrollOffset layout = Some drawn /\
    (exists row, (row, c, true) ∈ drawn) /\
    (forall row c' selected, (row, c', selected) ∈ drawn ->
       (convPaneTop layout <= row < convPaneTop layout + convPaneHeight layout)%Z).
Proof.
  intros Hheight Hcur Hsel Hc scrollOffset.
  pose proof (lookup_lt_Some _ _ _ Hc) as Hlen.
  assert (Hoff : (0 <= scrollOffset <= selectedIndex)%Z /\
                 (selectedIndex < scrollOffset + convPaneHeight layout)%Z).
  { unfold scrollOffset, calculateScrollOffset.
    destruct (Z.ltb_spec selectedIndex currentOffset); [lia|].
    destruct (Z.geb_spec selectedIndex (currentOffset + convPaneHeight layout)); lia. }
  clearbody scrollOffset. destruct Hoff as [[Hlo Hle] Hhi]. split; [assumption|].
  unfold renderConversations.
  destruct (Nat.eqb_spec (length conversations) 0) as [Hnil|_]; [lia|].
  set (endIndex := Z.min (scrollOffset + convPaneHeight layout)
                         (Z.of_nat (length conversations))).
  set (row := fun i : Z =>
         conv ← (if (i <? 0)%Z then None else conversations !! Z.to_nat i);
         Some ((convPaneTop layout + (i - scrollOffset))%Z, conv, (i =? selectedIndex)%Z)).
  destruct (mapM row (seqZ scrollOffset (endIndex - scrollOffset))) as [drawn|] eqn:Hdrawn.
  - exists drawn. split; [reflexivity|]. apply mapM_Some_1 in Hdrawn. split.
    + destruct (Forall2_lookup_l _ _ _ (Z.to_nat (selectedIndex - scrollOffset)) selectedIndex
                  Hdrawn) as (y & Hy & Hrow).
      { apply lookup_seqZ. unfold endIndex. split; lia. }
      unfold row in Hrow. destruct (Z.ltb_spec selectedIndex 0); [lia|].
      rewrite Hc, Z.eqb_refl in Hrow. cbn in Hrow. inversion Hrow; subst y.
      eexists. eapply list_elem_of_lookup_2, Hy.
    + intros r c' selected Hin. apply list_elem_of_lookup in Hin as [k Hk].
      destruct (Forall2_lookup_r _ _ _ _ _ Hdrawn Hk) as (i & Hi & Hrow).
      apply lookup_seqZ in Hi as [-> Hi]. unfold row in Hrow.
      destruct (_ <? 0)%Z; [discriminate|].
      destruct (conversations !! Z.to_nat (scrollOffset + Z.of_nat k)); [|discriminate].
      cbn in Hrow. inversion Hrow; subst. unfold endIndex in Hi. lia.
  - exfalso. apply mapM_None_1, Exists_exists in Hdrawn as (i & Hi & Hrow).
    apply elem_of_seqZ in Hi. unfold endIndex in Hi. unfold row in Hrow.
    destruct (Z.ltb_spec i 0); [lia|].
    destruct (conversations !! Z.to_nat i) eqn:Hlook; [discriminate|].
    apply lookup_ge_None in Hlook. lia.
Qed.

(** X25 on a terminal of 80 columns and 6 rows, whose panes have one
    row, with the second of two conversations selected. *)
Lemma selected_conversation_is_drawn_witness :
  exists c, exists drawn,
    Cases.twoConversations !! 1 = Some c /\
    renderConversations Cases.twoConversations 1
      (calculateScrollOffset 1 0 (convPaneHeight (calculateLayout 80 6))
                             (Z.of_nat (length Cases.twoConversations)))
      (calculateLayout 80 6) = Some drawn /\
    (exists row, (row, c, true) ∈ drawn).
Proof.
  destruct (Cases.twoConversations !! 1) as [c|] eqn:Hc; [|discriminate].
  exists c.
  destruct (selected_conversation_is_drawn Cases.twoConversations 1 0 (calculateLayout 80 6) c)
    as (_ & drawn & Hdrawn & Hrow & _); [cbn; lia | lia | lia | exact Hc |].
  exists drawn. split; [reflexivity|]. split; [exact Hdrawn | exact Hrow].
Defined.

(** *** Key sequences *)

Lemma presses_gKey : presses gKey = [gKey].
Proof. reflexivity. Qed.

Lemma presses_ggKey : presses ggKey = [gKey; gKey].
Proof. reflexivity. Qed.

Lemma presses_other k : k <> ggKey -> presses k = [k].
Proof. intros H. unfold presses. now rewrite bool_decide_eq_false_2. Qed.

Lemma clearTimeout_only t : clearTimeout (Some t) [t] = [].
Proof. cbn. now rewrite Nat.eqb_refl. Qed.

Lemma parseKey_fromKeyboard (data : list nat) : fromKeyboard (parseKey data).
Proof.
  unfold parseKey, fromKeyboard, plainG.
  repeat match goal with
         | |- context [if ?b then _ else _] => destruct b
         end;
    cbn [key char ctrl alt negb andb];
    (split; [|discriminate]);
    try discriminate; try (rewrite ?andb_false_r; discriminate).
  rewrite !andb_true_r. intros ->%String.eqb_eq. reflexivity.
Qed.

Lemma listenerStep_keeps (l : KeyListener) (handled : list KeyEvent) (event : inputEvent) :
  timerMatches l ->
  let (l', handled') := listenerStep (l, handled) event in
  timerMatches l' /\
  (handled' ≫= presses) ++ heldBack l' =
  (handled ≫= presses) ++ heldBack l ++ pressed [event].
Proof.
  intros Hl. unfold listenerStep.
  destruct event as [data|t].
  - destruct (parseKey_fromKeyboard data) as [Hg Hgg].
    cbv zeta. change (pressed [DataReceived data]) with [parseKey data].
    generalize dependent (parseKey data). intros k Hg Hgg.
    unfold handleKeyWithSequences. fold (plainG k).
    unfold timerMatches, heldBack in *.
    destruct (plainG k) eqn:Hp.
    + rewrite (Hg eq_refl). destruct (waitingForG l) eqn:Hw; cbn.
      * destruct Hl as (t & -> & ->). rewrite clearTimeout_only. split; [reflexivity|].
        rewrite bind_app, app_nil_r. reflexivity.
      * rewrite Hl. split; [eexists; split; reflexivity|].
        now rewrite app_nil_r.
    + destruct (waitingForG l) eqn:Hw; cbn [waitingForG timers gSequenceTimer].
      * destruct Hl as (t & -> & ->). rewrite clearTimeout_only. split; [reflexivity|].
        rewrite bind_app, app_nil_r. cbn [mbind list_bind].
        change (mkKey "g" (Some "g"%string) false false false) with gKey.
        rewrite presses_gKey, (presses_other k Hgg). reflexivity.
      * rewrite Hw. split; [assumption|].
        rewrite bind_app, app_nil_r. cbn [mbind list_bind].
        rewrite (presses_other k Hgg). reflexivity.
  - unfold gSequenceTimeout, timerMatches, heldBack in *.
    destruct (waitingForG l) eqn:Hw.
    + destruct Hl as (t' & Ht' & Htimers). rewrite Htimers.
      destruct (bool_decide (t ∈ [t'])) eqn:Hin.
      * apply bool_decide_eq_true_1, list_elem_of_singleton in Hin. subst t'.
        cbn [waitingForG timers]. rewrite clearTimeout_only. split; [reflexivity|].
        rewrite bind_app, !app_nil_r. reflexivity.
      * cbn. rewrite Hw, Htimers, !app_nil_r. split; [eauto|reflexivity].
    + rewrite Hl. rewrite bool_decide_eq_false_2 by apply not_elem_of_nil.
      cbn. rewrite Hw, !app_nil_r. split; [assumption|reflexivity].
Qed.

Lemma listener_run (events : list inputEvent) :
  forall l handled,
  timerMatches l ->
  let (l', handled') := fold_left listenerStep events (l, handled) in
  timerMatches l' /\
  (handled' ≫= presses) ++ heldBack l' =
  (handled ≫= presses) ++ heldBack l ++ pressed events.
Proof.
  induction events as [|event events IH]; intros l handled Hl.
  - cbn. now rewrite app_nil_r.
  - cbn [fold_left].
    pose proof (listenerStep_keeps l handled event Hl) as Hstep.
    destruct (listenerStep (l, handled) event) as [l1 handled1].
    destruct Hstep as [Hl1 Heq].
    specialize (IH l1 handled1 Hl1).
    destruct (fold_left listenerStep events (l1, handled1)) as [l' handled'].
    destruct IH as [Hl' IH]. split; [assumption|].
    rewrite IH, app_assoc, Heq, <- !app_assoc. f_equal. f_equal.
    destruct event; reflexivity.
Qed.

(** X26.  The key listener loses no key and makes none up: the keys
    handed to the handler, with each ['gg'] it made read as two ['g'],
    followed by the ['g'] that is still held back, are the keys the
    terminal sent, in their order.  Timers may fire at any point of
    the run. *)
Theorem no_key_is_lost (events : list inputEvent) :
  let (l, handled) := startKeyListener events in
  (handled ≫= presses) ++ heldBack l = pressed events.
Proof.
  unfold startKeyListener.
  pose proof (listener_run events (mkListener false None [] 0) [] eq_refl) as H.
  destruct (fold_left listenerStep events _) as [l handled].
  now destruct H as [_ H].
Qed.

(** *** The selection *)

Lemma selectConversationByIndex_agrees (state : AppState) (index : Z) :
  selectionAgrees state -> selectionAgrees (selectConversationByIndex state index).
Proof.
  intros H. unfold selectConversationByIndex.
  destruct ((0 <=? index)%Z && (index <? Z.of_nat (length (conversations state)))%Z) eqn:Hin;
    [|assumption].
  apply andb_true_iff in Hin as [Hlo%Z.leb_le _].
  destruct (conversations state !! Z.to_nat index) as [c|] eqn:Hc; [|assumption].
  intros id [= <-]. cbn. split; [assumption|]. now exists c.
Qed.

(** X27.  Selecting by id, selecting by index, moving the selection
    and replacing a conversation keep the selected id and the selected
    index on the same conversation; so does a new list of
    conversations when nothing was selected. *)
Theorem selection_stays_in_step (state : AppState) :
  selectionAgrees state ->
  (forall id, selectionAgrees (selectConversation state id)) /\
  (forall index, selectionAgrees (selectConversationByIndex state index)) /\
  (forall delta, selectionAgrees (moveConversationSelection state delta)) /\
  (forall conversation, selectionAgrees (updateConversation state conversation)) /\
  (forall conversations,
     selectedConversationId state = None ->
     selectionAgrees (setConversations state conversations)).
Proof.
  intros H. split; [|split; [|split; [|split]]].
  - intros id. unfold selectConversation.
    destruct (findIndex _ (conversations state)) as [i|] eqn:Hi; [|assumption].
    destruct (findIndex_Some _ _ _ Hi) as (c & Hc & Hid & _).
    intros id' [= <-]. cbn. split; [lia|]. exists c. rewrite Nat2Z.id.
    split; [assumption|]. now apply String.eqb_eq.
  - intros index. now apply selectConversationByIndex_agrees.
  - intros delta. now apply selectConversationByIndex_agrees.
  - intros conversation. unfold updateConversation.
    destruct (findIndex _ (conversations state)) as [i|] eqn:Hi; [|assumption].
    destruct (findIndex_Some _ _ _ Hi) as (old & Hold & Hid%String.eqb_eq & _).
    intros id Hsel. cbn in *. destruct (H id Hsel) as (Hlo & c & Hc & Hcid).
    split; [assumption|].
    destruct (decide (i = Z.to_nat (selectedConversationIndex state))) as [->|Hne].
    + exists conversation. split.
      * apply list_lookup_insert_eq. now apply lookup_lt_Some in Hc.
      * rewrite Hold in Hc. injection Hc as <-. congruence.
    + exists c. split; [|assumption]. now rewrite list_lookup_insert_ne.
  - intros conversations Hnone. unfold setConversations.
    cbv zeta. cbn [selectedConversationId]. rewrite Hnone.
    destruct conversations as [|first rest].
    + intros id Hid. cbn in Hid. congruence.
    + intros id [= <-]. cbn. split; [lia|]. now exists first.
Qed.

(** X27 on the two conversations of [Cases.twoConversations], the
    second being selected and the selection moved up. *)
Lemma selection_stays_in_step_witness :
  selectedConversationIndex
    (selectConversation (setConversations (mkState [] None 0 0) Cases.twoConversations) "2")
  = 1%Z /\
  selectionAgrees
    (moveConversationSelection
       (selectConversation (setConversations (mkState [] None 0 0) Cases.twoConversations) "2")
       (-1)).
Proof.
  split; [reflexivity|].
  refine (proj1 (proj2 (proj2 (selection_stays_in_step _ _))) (-1)%Z).
  intros id Hid. vm_compute in Hid. injection Hid as <-.
  split; [vm_compute; discriminate|].
  eexists. split; vm_compute; reflexivity.
Defined.

(** *** Wrapping and cutting *)

Lemma split_from_app (sep : nat) (l r cur : list nat) :
  split_from sep cur (l ++ sep :: r) = split_from sep cur l ++ split_from sep [] r.
Proof.
  revert cur. induction l as [|c l IH]; intros cur; cbn [app split_from].
  - now rewrite Nat.eqb_refl.
  - destruct (c =? sep); [now rewrite IH | apply IH].
Qed.

Lemma split_from_free (sep : nat) (w cur : list nat) :
  sep ∉ w -> split_from sep cur w = [rev cur ++ w].
Proof.
  revert cur. induction w as [|c w IH]; intros cur Hw; cbn [split_from].
  - now rewrite app_nil_r.
  - apply not_elem_of_cons in Hw as [Hc Hw].
    destruct (Nat.eqb_spec c sep) as [->|_]; [congruence|].
    rewrite IH by assumption. cbn [rev]. now rewrite <- app_assoc.
Qed.

Lemma not_elem_of_rev (x : nat) (l : list nat) : x ∉ l -> x ∉ rev l.
Proof. rewrite !list_elem_of_In. intros H Hin. now apply H, in_rev. Qed.

Lemma split_from_pieces (sep : nat) (s cur piece : list nat) :
  sep ∉ cur -> piece ∈ split_from sep cur s -> sep ∉ piece.
Proof.
  revert cur. induction s as [|c s IH]; intros cur Hcur; cbn [split_from].
  - intros ->%list_elem_of_singleton. now apply not_elem_of_rev.
  - destruct (Nat.eqb_spec c sep) as [->|Hc].
    + intros [->|Hin]%elem_of_cons; [now apply not_elem_of_rev|].
      apply (IH []); [apply not_elem_of_nil | assumption].
    + apply IH. apply not_elem_of_cons. split; [congruence | assumption].
Qed.

Lemma wordsOf_app (l r : list nat) : wordsOf (l ++ 32 :: r) = wordsOf l ++ wordsOf r.
Proof. unfold wordsOf. now rewrite split_from_app, List.filter_app. Qed.

Lemma wordsOf_word (w : list nat) :
  32 ∉ w -> wordsOf w = List.filter (fun w => negb (length w =? 0)) [w].
Proof. intros Hw. unfold wordsOf. now rewrite split_from_free. Qed.

Lemma wordsOf_nil : wordsOf [] = [].
Proof. reflexivity. Qed.

Lemma wrapStep_words (maxWidth : Z) (words : list (list nat)) :
  forall lines currentLine,
  Forall (fun w => 32 ∉ w) words ->
  let (lines', currentLine') := fold_left (wrapStep maxWidth) words (lines, currentLine) in
  (lines' ≫= wordsOf) ++ wordsOf currentLine' =
  (lines ≫= wordsOf) ++ wordsOf currentLine
  ++ List.filter (fun w => negb (length w =? 0)) words.
Proof.
  induction words as [|word words IH]; intros lines currentLine Hwords.
  - cbn. now rewrite app_nil_r.
  - inversion Hwords as [|? ? Hword Hrest]; subst. cbn [fold_left].
    assert (Hstep : let (lines1, line1) := wrapStep maxWidth (lines, currentLine) word in
                    (lines1 ≫= wordsOf) ++ wordsOf line1 =
                    (lines ≫= wordsOf) ++ wordsOf currentLine
                    ++ List.filter (fun w => negb (length w =? 0)) [word]).
    { unfold wrapStep. destruct (Nat.eqb_spec (length currentLine) 0) as [Hlen|Hlen].
      - apply nil_length_inv in Hlen as ->. rewrite wordsOf_nil. now rewrite wordsOf_word.
      - destruct (_ <=? maxWidth)%Z.
        + cbn [app]. rewrite wordsOf_app. now rewrite (wordsOf_word word).
        + rewrite bind_app. cbn [mbind list_bind]. rewrite app_nil_r, <- app_assoc.
          now rewrite (wordsOf_word word). }
    destruct (wrapStep maxWidth (lines, currentLine) word) as [lines1 line1].
    specialize (IH lines1 line1 Hrest).
    destruct (fold_left (wrapStep maxWidth) words (lines1, line1)) as [lines' line'].
    rewrite IH, app_assoc, Hstep, <- !app_assoc. f_equal. f_equal.
    change (word :: words) with ([word] ++ words). now rewrite List.filter_app.
Qed.

(** X28.  [wrapText] neither loses, repeats nor reorders a word: the
    words of the lines, one line after the other, are the words of
    the text. *)
Theorem wrapText_keeps_the_words (text : list nat) (maxWidth : Z) :
  wrapText text maxWidth ≫= wordsOf = wordsOf text.
Proof.
  unfold wrapText. destruct (_ <=? maxWidth)%Z.
  - cbn. now rewrite app_nil_r.
  - pose proof (wrapStep_words maxWidth (split_from 32 [] text) [] []) as H.
    destruct (fold_left _ _ _) as [lines currentLine].
    cbn [mbind list_bind app] in H. rewrite wordsOf_nil in H. cbn [app] in H.
    fold (wordsOf text) in H. rewrite <- H.
    + destruct currentLine as [|c currentLine]; cbn [length Nat.ltb Nat.leb].
      * now rewrite wordsOf_nil, app_nil_r.
      * rewrite bind_app. cbn [mbind list_bind]. now rewrite app_nil_r.
    + apply Forall_forall. intros w Hw. eapply split_from_pieces; [|exact Hw].
      apply not_elem_of_nil.
Qed.

Lemma wrapStep_fits (maxWidth : Z) (all_words : list (list nat)) (words : list (list nat)) :
  forall lines currentLine,
  words ⊆ all_words ->
  let fits := fun line : list nat =>
    line <> [] /\ ((Z.of_nat (length line) <= maxWidth)%Z \/ line ∈ all_words) in
  Forall fits lines ->
  (currentLine = [] \/ fits currentLine) ->
  let (lines', currentLine') := fold_left (wrapStep maxWidth) words (lines, currentLine) in
  Forall fits lines' /\ (currentLine' = [] \/ fits currentLine').
Proof.
  induction words as [|word words IH]; intros lines currentLine Hsub fits Hlines Hcur.
  - cbn. now split.
  - assert (Hword : word ∈ all_words) by (apply Hsub; left).
    assert (Hrest : words ⊆ all_words) by (intros w Hw; apply Hsub; now right).
    cbn [fold_left]. unfold wrapStep at 2.
    destruct (Nat.eqb_spec (length currentLine) 0) as [Hlen|Hlen].
    + apply IH; [assumption..|].
      destruct word as [|c word]; [now left|]. right. split; [discriminate | now right].
    + destruct Hcur as [->|Hcur]; [now cbn in Hlen|].
      destruct (Z.leb_spec (Z.of_nat (length currentLine) + 1 + Z.of_nat (length word)) maxWidth)
        as [Hfit|Hwide].
      * apply IH; [assumption..|]. right. split.
        -- destruct currentLine; [now cbn in Hlen | discriminate].
        -- left. rewrite !length_app. cbn [length]. lia.
      * apply IH; [assumption| |].
        -- apply Forall_app. split; [assumption|]. now constructor.
        -- destruct word as [|c word]; [now left|]. right. split; [discriminate | now right].
Qed.

(** X29.  A line of [wrapText] fits the width, unless it is a single
    piece of the text between two spaces, which is never cut; when the
    text is longer than the width no line is empty. *)
Theorem wrapped_lines_fit (text : list nat) (maxWidth : Z) (line : list nat) :
  line ∈ wrapText text maxWidth ->
  ((Z.of_nat (length line) <= maxWidth)%Z \/
   (line ∈ split_from 32 [] text /\ 32 ∉ line)) /\
  ((maxWidth < Z.of_nat (length text))%Z -> line <> []).
Proof.
  unfold wrapText. destruct (Z.leb_spec (Z.of_nat (length text)) maxWidth) as [Hshort|Hlong].
  - intros ->%list_elem_of_singleton. split; [now left | lia].
  - pose proof (wrapStep_fits maxWidth (split_from 32 [] text) (split_from 32 [] text) [] []) as H.
    destruct (fold_left _ _ _) as [lines currentLine].
    destruct H as [Hlines Hcur]; [done | constructor | now left |].
    intros Hin.
    assert (Hfits : line <> [] /\
                    ((Z.of_nat (length line) <= maxWidth)%Z \/ line ∈ split_from 32 [] text)).
    { destruct currentLine as [|c currentLine]; cbn [length Nat.ltb Nat.leb] in Hin.
      - now apply (proj1 (Forall_forall _ _) Hlines).
      - apply elem_of_app in Hin as [Hin| ->%list_elem_of_singleton].
        + now apply (proj1 (Forall_forall _ _) Hlines).
        + now destruct Hcur. }
    destruct Hfits as [Hne [Hfit|Hword]].
    + split; [now left | auto].
    + split; [right; split; [assumption|] | auto].
      eapply split_from_pieces; [|exact Hword]. apply not_elem_of_nil.
Qed.

(** X29 on [hi there you] wrapped to 5 columns. *)
Lemma wrapped_lines_fit_witness :
  wrapText Cases.hiThereYou 5 = [[104; 105]; Cases.there; [121; 111; 117]] /\
  (((Z.of_nat (length Cases.there) <= 5)%Z \/
    (Cases.there ∈ split_from 32 [] Cases.hiThereYou /\ 32 ∉ Cases.there)) /\
   ((5 < Z.of_nat (length Cases.hiThereYou))%Z -> Cases.there <> [])).
Proof.
  split; [reflexivity|].
  apply (wrapped_lines_fit Cases.hiThereYou 5 Cases.there).
  vm_compute. right. left.
Defined.

(** X30.  For a length of at least one, [truncate] gives at most
    that many code units: the text itself, or its first characters
    followed by an ellipsis. *)
Theorem truncate_fits (text : list nat) (maxLength : Z) :
  (1 <= maxLength)%Z ->
  (Z.of_nat (length (truncate text maxLength)) <= maxLength)%Z /\
  (truncate text maxLength = text \/
   truncate text maxLength = take (Z.to_nat maxLength - 1) text ++ [ellipsis]).
Proof.
  intros H. unfold truncate.
  destruct (Z.leb_spec (Z.of_nat (length text)) maxLength) as [Hshort|Hlong].
  - split; [assumption | now left].
  - unfold slice0. destruct (Z.ltb_spec (maxLength - 1) 0) as [Hneg|_]; [lia|]. split.
    + rewrite length_app, length_take. cbn [length]. lia.
    + right. do 2 f_equal. lia.
Qed.

(** X30 on [there] cut to 3. *)
Lemma truncate_fits_witness :
  truncate Cases.there 3 = [116; 104; ellipsis] /\
  (Z.of_nat (length (truncate Cases.there 3)) <= 3)%Z /\
  (truncate Cases.there 3 = Cases.there \/
   truncate Cases.there 3 = take (Z.to_nat 3 - 1) Cases.there ++ [ellipsis]).
Proof.
  split; [reflexivity|].
  apply (truncate_fits Cases.there 3). lia.
Defined.
